(** * vrc_localization_checker: the task-orchestration core

    A shallow embedding of [base.py] (classes [Helper], [Task], [Base]) and
    of the sync pipeline of [sync_translations.py] ([SyncLangTask],
    [SyncFolderTask]), as seen from ONE running coroutine.

    Python's [async def] bodies become computations in a state and
    exception monad [M].  The state ([world]) holds what the coroutine can
    observe or change: the shutdown event, the logger, the semaphores, the
    asyncio tasks known to the loop, the repository's [Task] objects, the
    exit stacks and the statements sent to the database.  Whatever the
    event loop does while the coroutine is suspended in an [await] is read
    from a finite [script] of [env_event]s stored in the world; after the
    script the loop stays idle and only time passes.

    The standard library objects the code relies on ([asyncio.Event],
    [asyncio.Semaphore], [asyncio.gather], [asyncio.wait],
    [asyncio.wait_for], [contextlib.AsyncExitStack]) are modelled after
    CPython 3.11.  A [string] is the UTF-8 text of a Python [str].  Not
    modelled: failures of the file system and of the database, and the
    time an operation takes other than through [Tick]. *)

From Stdlib Require Import String Ascii Bool Arith ZArith Lia Permutation List.
From Stdlib Require Import DecimalString.
Import ListNotations.
Open Scope string_scope.

(* ===================================================================== *)
(** ** Exceptions *)
(* ===================================================================== *)

(** The exception classes the code raises, catches or can meet. *)
Inductive exc_class :=
| BaseException
| Exception
| CancelledError      (* asyncio.CancelledError, a BaseException since 3.8 *)
| Shutdown            (* base.py:22  class Shutdown(Exception) *)
| RuntimeError
| TimeoutError
| OSError
| KeyboardInterrupt
| SystemExit
| NotImplementedError (* what a loop without signal handlers raises *)
| ValueError
| TypeError
| LookupError
| IndexError
| JSONDecodeError.    (* json.JSONDecodeError, a ValueError *)

(** Method resolution order of each class (the class itself first). *)
Definition mro (c : exc_class) : list exc_class :=
  match c with
  | BaseException => [BaseException]
  | Exception => [Exception; BaseException]
  | CancelledError => [CancelledError; BaseException]
  | Shutdown => [Shutdown; Exception; BaseException]
  | RuntimeError => [RuntimeError; Exception; BaseException]
  | TimeoutError => [TimeoutError; OSError; Exception; BaseException]
  | OSError => [OSError; Exception; BaseException]
  | KeyboardInterrupt => [KeyboardInterrupt; BaseException]
  | SystemExit => [SystemExit; BaseException]
  | NotImplementedError =>
      [NotImplementedError; RuntimeError; Exception; BaseException]
  | ValueError => [ValueError; Exception; BaseException]
  | TypeError => [TypeError; Exception; BaseException]
  | LookupError => [LookupError; Exception; BaseException]
  | IndexError => [IndexError; LookupError; Exception; BaseException]
  | JSONDecodeError =>
      [JSONDecodeError; ValueError; Exception; BaseException]
  end.

Definition exc_class_eqb (a b : exc_class) : bool :=
  match a, b with
  | BaseException, BaseException | Exception, Exception
  | CancelledError, CancelledError | Shutdown, Shutdown
  | RuntimeError, RuntimeError | TimeoutError, TimeoutError
  | OSError, OSError | KeyboardInterrupt, KeyboardInterrupt
  | SystemExit, SystemExit
  | NotImplementedError, NotImplementedError | ValueError, ValueError
  | TypeError, TypeError | LookupError, LookupError
  | IndexError, IndexError | JSONDecodeError, JSONDecodeError => true
  | _, _ => false
  end.

Definition class_name (c : exc_class) : string :=
  match c with
  | BaseException => "BaseException"
  | Exception => "Exception"
  | CancelledError => "CancelledError"
  | Shutdown => "Shutdown"
  | RuntimeError => "RuntimeError"
  | TimeoutError => "TimeoutError"
  | OSError => "OSError"
  | KeyboardInterrupt => "KeyboardInterrupt"
  | SystemExit => "SystemExit"
  | NotImplementedError => "NotImplementedError"
  | ValueError => "ValueError"
  | TypeError => "TypeError"
  | LookupError => "LookupError"
  | IndexError => "IndexError"
  | JSONDecodeError => "JSONDecodeError"
  end.

(** An exception instance: its class and [str(exc)]. *)
Record exc := { exc_type : exc_class; exc_str : string }.

Definition isinstance (e : exc) (c : exc_class) : bool :=
  existsb (exc_class_eqb c) (mro (exc_type e)).

(* ===================================================================== *)
(** ** Logging *)
(* ===================================================================== *)

Inductive level := INFO | WARNING | ERROR.

(** One record handed to the logger [vrc_lc]; [exc_info] tells whether a
    traceback was attached. *)
Record log_record :=
  { levelname : level; message : string; exc_info : bool }.

(** A string is the UTF-8 text of a Python [str]; [ascii_only] says that
    it has no character outside ASCII. *)
Definition ascii_only (s : string) : bool :=
  forallb (fun c => Nat.ltb (nat_of_ascii c) 128) (list_ascii_of_string s).

Definition has_char (c : ascii) (s : string) : bool :=
  existsb (Ascii.eqb c) (list_ascii_of_string s).

Definition hex_digit (n : nat) : ascii :=
  if Nat.ltb n 10 then ascii_of_nat (48 + n) else ascii_of_nat (87 + n).

(** One character inside [repr]: the quote in use and the backslash get a
    backslash; tab, newline and carriage return their letter; the other
    control characters [\xNN]. *)
Definition repr_char (quote c : ascii) : string :=
  let n := nat_of_ascii c in
  if Ascii.eqb c quote || Nat.eqb n 92 then String (ascii_of_nat 92) (String c EmptyString)
  else if Nat.eqb n 9 then String (ascii_of_nat 92) "t"
  else if Nat.eqb n 10 then String (ascii_of_nat 92) "n"
  else if Nat.eqb n 13 then String (ascii_of_nat 92) "r"
  else if Nat.ltb n 32 || Nat.eqb n 127
  then String (ascii_of_nat 92)
         (String "x" (String (hex_digit (n / 16))
                        (String (hex_digit (n mod 16)) EmptyString)))
  else String c EmptyString.

Fixpoint repr_body (quote : ascii) (s : string) : string :=
  match s with
  | EmptyString => EmptyString
  | String c r => repr_char quote c ++ repr_body quote r
  end.

(** [repr] of a string, as CPython writes it: in double quotes when the
    string holds a single quote and no double quote, in single quotes
    otherwise.  The bytes of a character outside ASCII are kept, which
    is what Python does for the printable ones; statements that spell
    out a [repr] are made for [ascii_only] strings. *)
Definition repr (s : string) : string :=
  let quote :=
    if has_char "'"%char s && negb (has_char (ascii_of_nat 34) s)
    then ascii_of_nat 34 else "'"%char in
  String quote (repr_body quote s ++ String quote EmptyString).

Definition str_nat (n : nat) : string :=
  NilEmpty.string_of_uint (Nat.to_uint n).

(** What [self.span(begin)] prints depends on the clock only. *)
Definition span : string := "<span>".

(* ===================================================================== *)
(** ** asyncio.Semaphore *)
(* ===================================================================== *)

(** Tasks of the event loop are numbered. *)
Definition tid := nat.

(** State of the future a suspended [acquire] waits on. *)
Inductive fut_state := FPending | FResult | FCancelled.

Definition fut_done (f : fut_state) : bool :=
  match f with FPending => false | _ => true end.

Definition fut_cancelled (f : fut_state) : bool :=
  match f with FCancelled => true | _ => false end.

(** [_value] and [_waiters] are the fields of CPython's semaphore.
    [holders] is bookkeeping only: the tasks that returned from [acquire]
    and did not yet [release] (one entry per permit held). *)
Record Semaphore :=
  { _value : Z; _waiters : list (tid * fut_state); holders : list tid }.

(** [asyncio.Semaphore(n)]. *)
Definition Semaphore_new (n : Z) : Semaphore :=
  {| _value := n; _waiters := []; holders := [] |}.

(** [locked()]: no permit is free, or somebody is queued already. *)
Definition locked (s : Semaphore) : bool :=
  (_value s =? 0)%Z
  || existsb (fun w => negb (fut_cancelled (snd w))) (_waiters s).

(** The loop of [_wake_up_next]: give the result to the first future that
    is not done; [None] when there is none. *)
Fixpoint wake_first (ws : list (tid * fut_state))
  : option (list (tid * fut_state)) :=
  match ws with
  | [] => None
  | (t, f) :: r =>
      if fut_done f
      then option_map (cons (t, f)) (wake_first r)
      else Some ((t, FResult) :: r)
  end.

Definition _wake_up_next (s : Semaphore) : Semaphore :=
  match wake_first (_waiters s) with
  | Some ws =>
      {| _value := _value s - 1; _waiters := ws; holders := holders s |}
  | None => s
  end.

(** [_waiters.remove(fut)] for the future of task [t]. *)
Fixpoint remove_waiter (t : tid) (ws : list (tid * fut_state))
  : list (tid * fut_state) :=
  match ws with
  | [] => []
  | (u, f) :: r => if Nat.eqb u t then r else (u, f) :: remove_waiter t r
  end.

Fixpoint waiter_of (t : tid) (ws : list (tid * fut_state))
  : option fut_state :=
  match ws with
  | [] => None
  | (u, f) :: r => if Nat.eqb u t then Some f else waiter_of t r
  end.

Fixpoint remove_one (t : tid) (l : list tid) : list tid :=
  match l with
  | [] => []
  | u :: r => if Nat.eqb u t then r else u :: remove_one t r
  end.

(** First part of [acquire], up to [await fut]: [true] when the permit was
    taken at once, [false] when the caller is now queued. *)
Definition acquire_call (t : tid) (s : Semaphore) : bool * Semaphore :=
  if negb (locked s)
  then (true, {| _value := _value s - 1; _waiters := _waiters s;
                 holders := t :: holders s |})
  else (false, {| _value := _value s;
                  _waiters := _waiters s ++ [(t, FPending)];
                  holders := holders s |}).

(** Rest of [acquire] once [fut] has its result: the [finally] removes the
    future, and a free permit is passed on. *)
Definition acquire_resume (t : tid) (s : Semaphore) : Semaphore :=
  let s1 := {| _value := _value s; _waiters := remove_waiter t (_waiters s);
               holders := t :: holders s |} in
  if (0 <? _value s1)%Z then _wake_up_next s1 else s1.

(** [task.cancel()] reaching a task suspended in [acquire]: the pending
    future is cancelled (a future that has its result stays as it is). *)
Fixpoint cancel_waiter (t : tid) (ws : list (tid * fut_state))
  : list (tid * fut_state) :=
  match ws with
  | [] => []
  | (u, f) :: r =>
      if Nat.eqb u t
      then (u, if fut_done f then f else FCancelled) :: r
      else (u, f) :: cancel_waiter t r
  end.

(** Rest of [acquire] when [CancelledError] is thrown at [await fut]: the
    [finally] removes the future; a permit already handed over is given
    back and passed on. *)
Definition acquire_cancelled (t : tid) (s : Semaphore) : Semaphore :=
  let s1 := {| _value := _value s; _waiters := remove_waiter t (_waiters s);
               holders := holders s |} in
  match waiter_of t (_waiters s) with
  | Some FResult =>
      _wake_up_next {| _value := _value s1 + 1; _waiters := _waiters s1;
                       holders := holders s1 |}
  | _ => s1
  end.

(** [release()]. *)
Definition release (t : tid) (s : Semaphore) : Semaphore :=
  _wake_up_next {| _value := _value s + 1; _waiters := _waiters s;
                   holders := remove_one t (holders s) |}.

(** What tasks can do to one semaphore, as steps of the event loop. *)
Inductive sem_event :=
| CallAcquire (t : tid)      (* t enters  async with sem  *)
| Resume (t : tid)           (* t wakes up with the result of its future *)
| FutCancel (t : tid)        (* t.cancel() while t waits *)
| ResumeCancelled (t : tid)  (* t wakes up with CancelledError *)
| Release (t : tid).         (* t leaves  async with sem  *)

(** One step; [None] when the event cannot happen in this state (a task
    suspended in [acquire] cannot call it again, only a holder releases,
    only a queued task is resumed). *)
Definition sem_step (s : Semaphore) (e : sem_event) : option Semaphore :=
  match e with
  | CallAcquire t =>
      match waiter_of t (_waiters s) with
      | None => Some (snd (acquire_call t s))
      | Some _ => None
      end
  | Resume t =>
      match waiter_of t (_waiters s) with
      | Some FResult => Some (acquire_resume t s)
      | _ => None
      end
  | FutCancel t =>
      match waiter_of t (_waiters s) with
      | Some _ =>
          Some {| _value := _value s;
                  _waiters := cancel_waiter t (_waiters s);
                  holders := holders s |}
      | None => None
      end
  | ResumeCancelled t =>
      match waiter_of t (_waiters s) with
      | Some FPending => None
      | Some _ => Some (acquire_cancelled t s)
      | None => None
      end
  | Release t =>
      if existsb (Nat.eqb t) (holders s) then Some (release t s) else None
  end.

(** A run of events from a state; [None] as soon as one cannot happen. *)
Fixpoint sem_run (s : Semaphore) (es : list sem_event) : option Semaphore :=
  match es with
  | [] => Some s
  | e :: r =>
      match sem_step s e with
      | Some s' => sem_run s' r
      | None => None
      end
  end.

(** Permits handed to a waiter that did not run yet. *)
Definition is_result (w : tid * fut_state) : bool :=
  match snd w with FResult => true | _ => false end.

Definition granted_in (ws : list (tid * fut_state)) : nat :=
  length (filter is_result ws).

Definition granted (s : Semaphore) : nat := granted_in (_waiters s).

(** Number of permits held by tasks inside their [async with] block. *)
Definition held (s : Semaphore) : nat := length (holders s).

(* ===================================================================== *)
(** ** The world of one coroutine *)
(* ===================================================================== *)

(** The three semaphores of the program: [Base.io_sem] and [Base.db_sem]
    (base.py:162,166) and the class attribute [SyncLangTask.SEM]
    (sync_translations.py:19), each created with 8 permits. *)
Inductive sem_id := io_sem | db_sem | SyncLangTask_SEM.

Definition sem_capacity : Z := 8.

(** Async context managers pushed on an [AsyncExitStack]. *)
Inductive cm := CmSem (s : sem_id) | CmConn.

(** A row of the [translations] table, as built in [store_lines]. *)
Record row :=
  { string_file : string; string_key : string;
    lang_code : string; string_body : string }.

(** A row of the table [suggestions], as built in [_process_suggestion]
    (analyze_translations.py:381-392); [None] is SQL's [NULL]. *)
Record suggestion_row :=
  { r_source_id : nat; r_target_id : nat; r_model_id : string;
    suggestion_string_body : option string;
    suggestion_comment : option string;
    r_interval : string;
    completion_tokens : option nat;
    prompt_tokens : option nat;
    system_fingerprint : option string }.

(** What the coroutine sends to the database. *)
Inductive db_op :=
| DbConnect
| DbInsert (r : row)
| DbInsertSuggestion (r : suggestion_row)
| DbCommit
| DbClose.

(** State of an [asyncio.Task]. *)
Inductive task_state :=
| Pending
| Finished            (* the coroutine returned *)
| Excepted (e : exc)  (* the coroutine raised e *)
| CancelledT.         (* the coroutine let CancelledError through *)

(** An [asyncio.Task] known to the loop: its name, the [Task] object whose
    [_main_outer] it runs ([None] for a coroutine of another kind), its
    state and how often [cancel()] was called on it. *)
Record atask :=
  { t_name : string; t_obj : option nat; t_state : task_state;
    t_cancels : nat }.

Definition done (t : atask) : bool :=
  match t_state t with Pending => false | _ => true end.

(** An object of class [Task] (base.py:117): [self.name], [self._task],
    [self.task_sem] and the index of [self._stack] among the exit stacks. *)
Record Task :=
  { name : string; _task : option tid; task_sem : option sem_id;
    _stack : nat }.

(** How a coroutine ended. *)
Inductive outcome := Returned | Raised (e : exc).

(** What the event loop can do while the coroutine is suspended. *)
Inductive env_event :=
| Tick                                   (* one second passes *)
| Signal (reason : string)               (* a bound handler calls shutdown(reason) *)
| Cancel                                 (* cancel() of this coroutine's task *)
| SemEvent (s : sem_id) (e : sem_event)  (* another task uses a semaphore *)
| TaskDone (t : tid) (o : outcome)       (* another task's coroutine ends *)
| Spawn (n : string)                     (* another task calls create_task *)
| IoDone.                                (* the awaited file or database call ends *)

(** The mutable lists of the sync pipeline: [SyncFolderTask.keys] and
    [SyncFolderTask.langs] of the folder being synced, and
    [SyncLangTask.lines] of the running language task. *)
Record sync_state :=
  { keys : list string; langs : list nat; lines : list string }.

(** The three semaphore objects. *)
Record sem_table :=
  { s_io : Semaphore; s_db : Semaphore; s_lang : Semaphore }.

Record world :=
  { base_name : string;            (* Base.name *)
    current : tid;                 (* asyncio.current_task() *)
    shutdown_requested : bool;     (* Base.shutdown_requested, an asyncio.Event *)
    log : list log_record;         (* records logged so far, oldest first *)
    script : list env_event;       (* what the loop will do, next first *)
    sems : sem_table;
    all_tasks : list atask;        (* the tasks of the loop, by task number *)
    objs : list Task;              (* the Task objects, by object number *)
    stacks : list (list cm);       (* the AsyncExitStacks, innermost entry first *)
    io_pending : bool;             (* a file or database call is in flight *)
    sync : sync_state;             (* the lists of the sync pipeline *)
    db : list db_op }.             (* statements sent so far, oldest first *)

Definition set_flag (b : bool) (w : world) : world :=
  {| base_name := base_name w; current := current w;
     shutdown_requested := b; log := log w; script := script w;
     sems := sems w; all_tasks := all_tasks w; objs := objs w;
     stacks := stacks w; io_pending := io_pending w; sync := sync w;
     db := db w |}.

Definition set_log (l : list log_record) (w : world) : world :=
  {| base_name := base_name w; current := current w;
     shutdown_requested := shutdown_requested w; log := l;
     script := script w; sems := sems w; all_tasks := all_tasks w;
     objs := objs w; stacks := stacks w; io_pending := io_pending w;
     sync := sync w; db := db w |}.

Definition set_script (s : list env_event) (w : world) : world :=
  {| base_name := base_name w; current := current w;
     shutdown_requested := shutdown_requested w; log := log w;
     script := s; sems := sems w; all_tasks := all_tasks w;
     objs := objs w; stacks := stacks w; io_pending := io_pending w;
     sync := sync w; db := db w |}.

Definition set_sems (f : sem_table) (w : world) : world :=
  {| base_name := base_name w; current := current w;
     shutdown_requested := shutdown_requested w; log := log w;
     script := script w; sems := f; all_tasks := all_tasks w;
     objs := objs w; stacks := stacks w; io_pending := io_pending w;
     sync := sync w; db := db w |}.

Definition set_all_tasks (l : list atask) (w : world) : world :=
  {| base_name := base_name w; current := current w;
     shutdown_requested := shutdown_requested w; log := log w;
     script := script w; sems := sems w; all_tasks := l;
     objs := objs w; stacks := stacks w; io_pending := io_pending w;
     sync := sync w; db := db w |}.

Definition set_objs (l : list Task) (w : world) : world :=
  {| base_name := base_name w; current := current w;
     shutdown_requested := shutdown_requested w; log := log w;
     script := script w; sems := sems w; all_tasks := all_tasks w;
     objs := l; stacks := stacks w; io_pending := io_pending w;
     sync := sync w; db := db w |}.

Definition set_stacks (l : list (list cm)) (w : world) : world :=
  {| base_name := base_name w; current := current w;
     shutdown_requested := shutdown_requested w; log := log w;
     script := script w; sems := sems w; all_tasks := all_tasks w;
     objs := objs w; stacks := l; io_pending := io_pending w;
     sync := sync w; db := db w |}.

Definition set_io_pending (b : bool) (w : world) : world :=
  {| base_name := base_name w; current := current w;
     shutdown_requested := shutdown_requested w; log := log w;
     script := script w; sems := sems w; all_tasks := all_tasks w;
     objs := objs w; stacks := stacks w; io_pending := b;
     sync := sync w; db := db w |}.

Definition set_sync (l : sync_state) (w : world) : world :=
  {| base_name := base_name w; current := current w;
     shutdown_requested := shutdown_requested w; log := log w;
     script := script w; sems := sems w; all_tasks := all_tasks w;
     objs := objs w; stacks := stacks w; io_pending := io_pending w;
     sync := l; db := db w |}.

Definition set_db (l : list db_op) (w : world) : world :=
  {| base_name := base_name w; current := current w;
     shutdown_requested := shutdown_requested w; log := log w;
     script := script w; sems := sems w; all_tasks := all_tasks w;
     objs := objs w; stacks := stacks w; io_pending := io_pending w;
     sync := sync w; db := l |}.

Definition set_keys (l : list string) (w : world) : world :=
  set_sync {| keys := l; langs := langs (sync w); lines := lines (sync w) |} w.

Definition set_langs (l : list nat) (w : world) : world :=
  set_sync {| keys := keys (sync w); langs := l; lines := lines (sync w) |} w.

Definition set_lines (l : list string) (w : world) : world :=
  set_sync {| keys := keys (sync w); langs := langs (sync w); lines := l |} w.

Definition sem_of (s : sem_id) (w : world) : Semaphore :=
  match s with
  | io_sem => s_io (sems w)
  | db_sem => s_db (sems w)
  | SyncLangTask_SEM => s_lang (sems w)
  end.

Definition set_sem (s : sem_id) (v : Semaphore) (w : world) : world :=
  let t := sems w in
  set_sems
    match s with
    | io_sem => {| s_io := v; s_db := s_db t; s_lang := s_lang t |}
    | db_sem => {| s_io := s_io t; s_db := v; s_lang := s_lang t |}
    | SyncLangTask_SEM => {| s_io := s_io t; s_db := s_db t; s_lang := v |}
    end w.

(** [l[i] = x]; nothing happens out of range (never reached below). *)
Fixpoint list_set {A} (i : nat) (x : A) (l : list A) {struct l} : list A :=
  match l, i with
  | [], _ => []
  | _ :: r, 0 => x :: r
  | a :: r, S j => a :: list_set j x r
  end.

(** A world at process start: nothing logged, nothing scheduled, the three
    semaphores with their 8 permits. *)
Definition world0 (bname : string) (evs : list env_event) : world :=
  {| base_name := bname; current := 0; shutdown_requested := false;
     log := []; script := evs;
     sems := {| s_io := Semaphore_new sem_capacity;
                s_db := Semaphore_new sem_capacity;
                s_lang := Semaphore_new sem_capacity |};
     all_tasks := [{| t_name := "Task-1"; t_obj := None;
                      t_state := Pending; t_cancels := 0 |}];
     objs := []; stacks := []; io_pending := false;
     sync := {| keys := []; langs := []; lines := [] |};
     db := [] |}.

(* ===================================================================== *)
(** ** The monad of coroutine bodies *)
(* ===================================================================== *)

(** A computation returns, raises, or never returns ([Blocked]: the script
    ended while it waited for something only another task can provide, or
    it loops for ever). *)
Inductive result (A : Type) :=
| Ok (a : A)
| Raise (e : exc)
| Blocked.
Arguments Ok {A} a.
Arguments Raise {A} e.
Arguments Blocked {A}.

Definition M (A : Type) : Type := world -> result A * world.

Definition ret {A} (a : A) : M A := fun w => (Ok a, w).

Definition bind {A B} (m : M A) (k : A -> M B) : M B :=
  fun w =>
    match m w with
    | (Ok a, w') => k a w'
    | (Raise e, w') => (Raise e, w')
    | (Blocked, w') => (Blocked, w')
    end.

Definition raise {A} (e : exc) : M A := fun w => (Raise e, w).

Notation "x <- m ;; k" := (bind m (fun x => k))
  (at level 61, m at next level, right associativity).
Notation "m ;; k" := (bind m (fun _ => k))
  (at level 61, right associativity).

(** [try: body except ...: handler]: the handler sees every exception and
    re-raises those no clause matches. *)
Definition try_except {A} (body : M A) (handler : exc -> M A) : M A :=
  fun w =>
    match body w with
    | (Raise e, w') => handler e w'
    | r => r
    end.

(** [try: body finally: fin]. *)
Definition try_finally {A} (body : M A) (fin : M unit) : M A :=
  fun w =>
    match body w with
    | (Ok a, w') =>
        match fin w' with
        | (Ok _, w'') => (Ok a, w'')
        | (Raise e, w'') => (Raise e, w'')
        | (Blocked, w'') => (Blocked, w'')
        end
    | (Raise e, w') =>
        match fin w' with
        | (Ok _, w'') => (Raise e, w'')
        | (Raise e', w'') => (Raise e', w'')
        | (Blocked, w'') => (Blocked, w'')
        end
    | (Blocked, w') => (Blocked, w')
    end.

Definition get {A} (f : world -> A) : M A := fun w => (Ok (f w), w).
Definition modify (f : world -> world) : M unit := fun w => (Ok tt, f w).

(* ===================================================================== *)
(** ** Helper: logging, shutdown check (base.py:42-114) *)
(* ===================================================================== *)

(** The logger appends a record. *)
Definition add_record (r : log_record) (w : world) : world :=
  set_log (log w ++ [r]) w.

Definition emit (l : level) (msg : string) (ei : bool) : M unit :=
  modify (add_record {| levelname := l; message := msg; exc_info := ei |}).

(** [Helper.info], [warning], [warning_exc], [error], [error_exc];
    [self] is [self.name]. *)
Definition info (self : string) (msg : string) : M unit :=
  emit INFO ("[" ++ self ++ "] " ++ msg) false.

Definition warning (self : string) (msg : string) : M unit :=
  emit WARNING ("[" ++ self ++ "] " ++ msg) false.

Definition warning_exc (self : string) (msg : string) (e : exc)
    (ei : bool) : M unit :=
  emit WARNING ("[" ++ repr self ++ "] " ++ msg ++ ": "
                ++ class_name (exc_type e) ++ ": " ++ exc_str e) ei.

Definition error (self : string) (msg : string) : M unit :=
  emit ERROR ("[" ++ repr self ++ "] " ++ msg) false.

Definition error_exc (self : string) (msg : string) (e : exc)
    (ei : bool) : M unit :=
  emit ERROR ("[" ++ repr self ++ "] " ++ msg ++ ": "
              ++ class_name (exc_type e) ++ ": " ++ exc_str e) ei.

(** [Helper.error_raise] (base.py:112). *)
Definition error_raise {A} (self : string) (exc_t : exc_class)
    (msg : string) : M A :=
  emit ERROR ("[" ++ repr self ++ "] " ++ msg) false ;;
  raise {| exc_type := exc_t; exc_str := msg |}.

(** [Helper.check_shutdown] (base.py:54). *)
Definition check_shutdown : M unit :=
  fun w =>
    if shutdown_requested w
    then (Raise {| exc_type := Shutdown; exc_str := "" |}, w)
    else (Ok tt, w).

(** [Base.shutdown] (base.py:243); [self.name] of the [Base] object is
    [base_name]. *)
Definition shutdown (reason : string) : M unit :=
  self <- get base_name ;;
  warning self ("Shutdown requested: " ++ repr reason) ;;
  modify (set_flag true).

(* ===================================================================== *)
(** ** The event loop while the coroutine is suspended *)
(* ===================================================================== *)

(** State an [asyncio.Task] takes when its coroutine ends. *)
Definition state_of_outcome (o : outcome) : task_state :=
  match o with
  | Returned => Finished
  | Raised e =>
      if exc_class_eqb (exc_type e) CancelledError then CancelledT
      else Excepted e
  end.

Definition finish_task (t : tid) (o : outcome) (l : list atask)
  : list atask :=
  match nth_error l t with
  | Some a =>
      if done a then l
      else list_set t {| t_name := t_name a; t_obj := t_obj a;
                         t_state := state_of_outcome o;
                         t_cancels := t_cancels a |} l
  | None => l
  end.

(** One event of the script.  A signal runs [Base.shutdown]; [Cancel]
    throws [CancelledError] into the pending [await]; an event that cannot
    happen in the current state changes nothing. *)
Definition apply_event (e : env_event) : M unit :=
  match e with
  | Tick => ret tt
  | Signal reason => shutdown reason
  | Cancel => raise {| exc_type := CancelledError; exc_str := "" |}
  | SemEvent s ev =>
      modify (fun w =>
        match sem_step (sem_of s w) ev with
        | Some s' => set_sem s s' w
        | None => w
        end)
  | TaskDone t o =>
      modify (fun w => set_all_tasks (finish_task t o (all_tasks w)) w)
  | Spawn n =>
      modify (fun w =>
        set_all_tasks (all_tasks w ++ [{| t_name := n; t_obj := None;
                                          t_state := Pending;
                                          t_cancels := 0 |}]) w)
  | IoDone => modify (set_io_pending false)
  end.

Inductive wake := Ready | TimedOut.

(** The coroutine awaits something that is there when [cond] holds, for at
    most [timeout] seconds ([None]: no limit).  The loop runs the events of
    the script one by one until then.  When the script is over, time
    passes idly: a wait with a limit times out, a wait without one never
    ends. *)
Fixpoint await_loop (cond : world -> bool) (timeout : option nat)
    (evs : list env_event) (w : world) : result wake * world :=
  if cond w then (Ok Ready, set_script evs w)
  else
    match timeout with
    | Some 0 => (Ok TimedOut, set_script evs w)
    | _ =>
        match evs with
        | [] =>
            match timeout with
            | Some _ => (Ok TimedOut, set_script [] w)
            | None => (Blocked, set_script [] w)
            end
        | e :: rest =>
            match apply_event e w with
            | (Ok _, w') =>
                let timeout' :=
                  match e, timeout with
                  | Tick, Some n => Some (pred n)
                  | _, _ => timeout
                  end in
                await_loop cond timeout' rest w'
            | (Raise x, w') => (Raise x, set_script rest w')
            | (Blocked, w') => (Blocked, set_script rest w')
            end
        end
    end.

Definition await_until (cond : world -> bool) (timeout : option nat)
  : M wake :=
  fun w => await_loop cond timeout (script w) w.

(** An awaited file or database call: it ends at the next [IoDone], or by
    itself when the script is over. *)
Definition await_io : M unit :=
  fun w =>
    match await_until (fun w => negb (io_pending w)) None
                      (set_io_pending true w) with
    | (Ok _, w') => (Ok tt, w')
    | (Raise e, w') => (Raise e, set_io_pending false w')
    | (Blocked, w') => (Ok tt, set_io_pending false w')
    end.

(* ===================================================================== *)
(** ** Base.sleep_or_shutdown (base.py:285) *)
(* ===================================================================== *)

(** [asyncio.wait_for(self.shutdown_requested.wait(), sleep)]: returns when
    the event is set, raises [TimeoutError] after [sleep] seconds. *)
Definition wait_for_shutdown_requested (sleep : nat) : M unit :=
  r <- await_until shutdown_requested (Some sleep) ;;
  match r with
  | Ready => ret tt
  | TimedOut => raise {| exc_type := TimeoutError; exc_str := "" |}
  end.

Definition sleep_or_shutdown (sleep : nat) : M bool :=
  set <- get shutdown_requested ;;
  if set then ret false
  else
    try_except (wait_for_shutdown_requested sleep)
      (fun e => if isinstance e TimeoutError then ret tt else raise e) ;;
    set <- get shutdown_requested ;;
    ret (negb set).

(* ===================================================================== *)
(** ** Semaphores and exit stacks inside a coroutine *)
(* ===================================================================== *)

Definition has_result (t : tid) (s : Semaphore) : bool :=
  match waiter_of t (_waiters s) with
  | Some FResult => true
  | _ => false
  end.

(** [await sem.acquire()] by the running task: either the permit is taken
    at once (no suspension), or the task queues and sleeps until its future
    gets the result; a [CancelledError] thrown meanwhile takes the future
    out of the queue again. *)
Definition sem_acquire (s : sem_id) : M unit :=
  fun w =>
    let me := current w in
    match acquire_call me (sem_of s w) with
    | (true, s') => (Ok tt, set_sem s s' w)
    | (false, s') =>
        match await_until (fun w => has_result me (sem_of s w)) None
                          (set_sem s s' w) with
        | (Ok _, w') =>
            (Ok tt, set_sem s (acquire_resume me (sem_of s w')) w')
        | (Raise e, w') =>
            (Raise e, set_sem s (acquire_cancelled me (sem_of s w')) w')
        | (Blocked, w') => (Blocked, w')
        end
    end.

(** [sem.release()] by the running task. *)
Definition sem_release (s : sem_id) : M unit :=
  modify (fun w => set_sem s (release (current w) (sem_of s w)) w).

(** [contextlib.AsyncExitStack()]. *)
Definition AsyncExitStack : M nat :=
  fun w => (Ok (length (stacks w)), set_stacks (stacks w ++ [[]]) w).

Definition aenter (c : cm) : M unit :=
  match c with
  | CmSem s => sem_acquire s
  | CmConn => modify (fun w => set_db (db w ++ [DbConnect]) w) ;; await_io
  end.

Definition aexit (c : cm) : M unit :=
  match c with
  | CmSem s => sem_release s
  | CmConn => modify (fun w => set_db (db w ++ [DbClose]) w)
  end.

(** [await stack.enter_async_context(c)]: the exit is registered only when
    the entry succeeded. *)
Definition enter_async_context (stack : nat) (c : cm) : M unit :=
  aenter c ;;
  modify (fun w =>
    set_stacks (list_set stack (c :: nth stack (stacks w) []) (stacks w)) w).

(** Leaving the stack: the registered exits run, last entered first; an
    exit that raises replaces the exception in flight. *)
Fixpoint unwind (cs : list cm) : M unit :=
  match cs with
  | [] => ret tt
  | c :: r => try_finally (aexit c) (unwind r)
  end.

Definition stack_aexit (stack : nat) : M unit :=
  cs <- get (fun w => nth stack (stacks w) []) ;;
  modify (fun w => set_stacks (list_set stack [] (stacks w)) w) ;;
  unwind cs.

(** [async with stack: body]. *)
Definition async_with {A} (stack : nat) (body : M A) : M A :=
  try_finally body (stack_aexit stack).

(** [Helper.db_conn] (base.py:60): the connection object is created
    first, then the permit of [db_sem] is awaited, then the connection is
    opened. *)
Definition db_conn (stack : nat) : M unit :=
  enter_async_context stack (CmSem db_sem) ;;
  enter_async_context stack CmConn.

(* ===================================================================== *)
(** ** Task (base.py:117-151) *)
(* ===================================================================== *)

Definition no_such_object : exc :=
  {| exc_type := BaseException; exc_str := "no such object" |}.

Definition get_obj (self : nat) : M Task :=
  fun w =>
    match nth_error (objs w) self with
    | Some o => (Ok o, w)
    | None => (Raise no_such_object, w)
    end.

(** [Task.__init__]: [_task = None], a fresh exit stack, [task_sem] taken
    from the class attribute [SEM]; [self.name] is set by the subclass. *)
Definition Task_init (n : string) (SEM : option sem_id) : M nat :=
  st <- AsyncExitStack ;;
  fun w =>
    (Ok (length (objs w)),
     set_objs (objs w ++ [{| name := n; _task := None; task_sem := SEM;
                             _stack := st |}]) w).

(** [asyncio.create_task(coro, name=n)]: a new pending task of the loop. *)
Definition create_task (obj : option nat) (n : string) : M tid :=
  fun w =>
    (Ok (length (all_tasks w)),
     set_all_tasks (all_tasks w ++ [{| t_name := n; t_obj := obj;
                                       t_state := Pending;
                                       t_cancels := 0 |}]) w).

(** [Task.start] (base.py:144). *)
Definition start (self : nat) : M tid :=
  o <- get_obj self ;;
  t <- create_task (Some self) (name o) ;;
  modify (fun w =>
    set_objs (list_set self {| name := name o; _task := Some t;
                               task_sem := task_sem o;
                               _stack := _stack o |} (objs w)) w) ;;
  ret t.

(** [Task.wait] (base.py:148). *)
Definition wait (self : nat) : M (option tid) :=
  o <- get_obj self ;;
  match _task o with
  | None => start self ;; ret tt
  | Some _ => ret tt
  end ;;
  o' <- get_obj self ;;
  ret (_task o').

(** The [async with self._stack] block of [_main_outer]
    (base.py:132-135); [main] is the subclass's [self.main()]. *)
Definition main_block (o : Task) (main : M unit) : M unit :=
  async_with (_stack o)
    (match task_sem o with
     | Some s => enter_async_context (_stack o) (CmSem s)
     | None => ret tt
     end ;;
     main).

(** [Task._main_outer] (base.py:130). *)
Definition _main_outer (self : nat) (main : M unit) : M unit :=
  o <- get_obj self ;;
  try_except
    (main_block o main)
    (fun exc =>
       if isinstance exc CancelledError
       then warning (name o) "Cancelled before completion."
       else if isinstance exc Shutdown
       then warning (name o) "Shutdown before completion."
       else if isinstance exc Exception
       then error_exc (name o) "Failed" exc
              (negb (isinstance exc BaseException)) ;;
            raise exc
       else raise exc).

(* ===================================================================== *)
(** ** asyncio.gather and Helper.gather (base.py:51) *)
(* ===================================================================== *)

(** An entry of the list [gather] returns: a task's result (always [None]
    here), or its exception when [return_exceptions] is set. *)
Inductive gres := GNone | GExc (e : exc).

Inductive outer_state :=
| OPending
| OResult (rs : list gres)
| OException (e : exc).

(** The future [asyncio.gather] returns, with the variables of its
    closure. *)
Record gathering :=
  { children : list tid; nfuts : nat; nfinished : nat;
    outer : outer_state; _cancel_requested : bool }.

Definition cancelled_error : exc :=
  {| exc_type := CancelledError; exc_str := "" |}.

Definition state_of (l : list atask) (t : tid) : task_state :=
  match nth_error l t with
  | Some a => t_state a
  | None => Pending
  end.

Definition is_done (l : list atask) (t : tid) : bool :=
  match state_of l t with Pending => false | _ => true end.

Definition child_result (l : list atask) (t : tid) : gres :=
  match state_of l t with
  | CancelledT => GExc cancelled_error
  | Excepted e => GExc e
  | _ => GNone
  end.

(** The exception of a finished child that ends a [gather] without
    [return_exceptions]. *)
Definition child_failure (l : list atask) (t : tid) : option exc :=
  match state_of l t with
  | CancelledT => Some cancelled_error
  | Excepted e => Some e
  | _ => None
  end.

(** [_done_callback(fut)] of [asyncio.gather], run by the loop when the
    child [fut] is done. *)
Definition _done_callback (return_exceptions : bool) (l : list atask)
    (fut : tid) (g : gathering) : gathering :=
  let n := S (nfinished g) in
  let upd o :=
    {| children := children g; nfuts := nfuts g; nfinished := n;
       outer := o; _cancel_requested := _cancel_requested g |} in
  match outer g with
  | OPending =>
      match (if return_exceptions then None else child_failure l fut) with
      | Some e => upd (OException e)
      | None =>
          if Nat.eqb n (nfuts g)
          then if _cancel_requested g
               then upd (OException cancelled_error)
               else upd (OResult (map (child_result l) (children g)))
          else upd OPending
      end
  | o => upd o
  end.

(** [task.cancel()]: a request, counted on a task that is not done. *)
Definition cancel_task (t : tid) (l : list atask) : list atask :=
  match nth_error l t with
  | Some a =>
      if done a then l
      else list_set t {| t_name := t_name a; t_obj := t_obj a;
                         t_state := t_state a;
                         t_cancels := S (t_cancels a) |} l
  | None => l
  end.

Definition cancel_all (ts : list tid) (l : list atask) : list atask :=
  fold_left (fun acc t => cancel_task t acc) ts l.

Definition is_child (t : tid) (g : gathering) : bool :=
  existsb (Nat.eqb t) (children g).

(** The callback the loop runs after the event [e] took the world from
    [w] to [w']: the one of the child that [e] finished, if any. *)
Definition run_callback (return_exceptions : bool) (e : env_event)
    (w w' : world) (g : gathering) : gathering :=
  match e with
  | TaskDone t _ =>
      if is_child t g && negb (is_done (all_tasks w) t)
         && is_done (all_tasks w') t
      then _done_callback return_exceptions (all_tasks w') t g
      else g
  | _ => g
  end.

(** The coroutine awaits the gathering future.  Each [TaskDone] of a child
    still pending runs the callback; [Cancel] of the waiting task is
    passed to the children ([_GatheringFuture.cancel]) and the wait goes
    on until the future is done. *)
Fixpoint gather_loop (return_exceptions : bool) (g : gathering)
    (evs : list env_event) (w : world) : result (list gres) * world :=
  match outer g with
  | OResult rs => (Ok rs, set_script evs w)
  | OException e => (Raise e, set_script evs w)
  | OPending =>
      match evs with
      | [] => (Blocked, set_script [] w)
      | Cancel :: rest =>
          gather_loop return_exceptions
            {| children := children g; nfuts := nfuts g;
               nfinished := nfinished g; outer := outer g;
               _cancel_requested := true |}
            rest
            (set_all_tasks (cancel_all (children g) (all_tasks w)) w)
      | e :: rest =>
          match apply_event e w with
          | (Ok _, w') =>
              gather_loop return_exceptions
                (run_callback return_exceptions e w w' g) rest w'
          | (Raise x, w') => (Raise x, set_script rest w')
          | (Blocked, w') => (Blocked, set_script rest w')
          end
      end
  end.

(** [await asyncio.gather] on the futures [futs]: without
    arguments the result is there at once; otherwise each distinct future
    gets the callback, and those already done run it first, in order. *)
Definition asyncio_gather (return_exceptions : bool) (futs : list tid)
  : M (list gres) :=
  fun w =>
    match futs with
    | [] => (Ok [], w)
    | _ =>
        let distinct := nodup Nat.eq_dec futs in
        let g0 := {| children := futs; nfuts := length distinct;
                     nfinished := 0; outer := OPending;
                     _cancel_requested := false |} in
        let g1 := fold_left
                    (fun g t => if is_done (all_tasks w) t
                                then _done_callback return_exceptions
                                       (all_tasks w) t g
                                else g)
                    distinct g0 in
        gather_loop return_exceptions g1 (script w) w
    end.

(** The generator [(t.wait() for t in tasks)], run left to right. *)
Fixpoint wait_all (tasks : list nat) : M (list tid) :=
  match tasks with
  | [] => ret []
  | t :: r =>
      h <- wait t ;;
      hs <- wait_all r ;;
      ret (match h with Some x => x :: hs | None => hs end)
  end.

(** [Helper.gather] (base.py:51); the default of [return_exceptions] is
    [False]. *)
Definition gather (tasks : list nat) (return_exceptions : bool) : M unit :=
  futs <- wait_all tasks ;;
  asyncio_gather return_exceptions futs ;;
  ret tt.

(* ===================================================================== *)
(** ** Base.cleanup_loop (base.py:346) *)
(* ===================================================================== *)

(** [list(t for t in asyncio.all_tasks() if t != current and not t.done())].
    [asyncio.all_tasks()] is a set, whose order Python does not fix; the
    tasks are taken here in the order of their creation, and what is
    stated of the list is stated up to its order. *)
Definition remaining_tasks (w : world) : list tid :=
  filter (fun t => negb (Nat.eqb t (current w))
                   && negb (is_done (all_tasks w) t))
         (seq 0 (length (all_tasks w))).

(** [task.get_name() or str(task)]; the text [str(task)] of a task whose
    name is empty is not spelled out. *)
Definition task_label (l : list atask) (t : tid) : string :=
  match nth_error l t with
  | Some a => if String.eqb (t_name a) "" then "<Task>" else t_name a
  | None => "<Task>"
  end.

(** [repr] of a list of strings. *)
Definition repr_list (l : list string) : string :=
  "[" ++ String.concat ", " (map repr l) ++ "]".

(** [await asyncio.wait(tasks, timeout=...)]: returns when all are done
    or the time is over, with the done and the pending ones. *)
Definition asyncio_wait (tasks : list tid) (timeout : nat)
  : M (list tid * list tid) :=
  await_until (fun w => forallb (is_done (all_tasks w)) tasks)
              (Some timeout) ;;
  get (fun w => (filter (is_done (all_tasks w)) tasks,
                 filter (fun t => negb (is_done (all_tasks w) t)) tasks)).

(** One round of the [while True] body after the test [if not tasks]. *)
Definition cleanup_round (tasks : list tid) : M unit :=
  self <- get base_name ;;
  names <- get (fun w => map (task_label (all_tasks w)) tasks) ;;
  info self ("Cancelling all " ++ str_nat (length tasks) ++ " tasks: "
             ++ repr_list names) ;;
  modify (fun w => set_all_tasks (cancel_all tasks (all_tasks w)) w) ;;
  dp <- asyncio_wait tasks 5 ;;
  info self ("Cancelled " ++ str_nat (length (fst dp)) ++ " tasks, "
             ++ str_nat (length (snd dp)) ++ " not yet done.").

(** The loop, unrolled [fuel] times; out of fuel it has not returned. *)
Fixpoint cleanup_loop_n (fuel : nat) : M unit :=
  match fuel with
  | 0 => fun w => (Blocked, w)
  | S n =>
      tasks <- get remaining_tasks ;;
      match tasks with
      | [] => ret tt
      | _ => cleanup_round tasks ;; cleanup_loop_n n
      end
  end.

(** Every round that does not end the loop uses up an event of the script
    or finds it empty; once it is empty nothing changes any more and the
    loop goes on for ever.  So this many rounds decide. *)
Definition cleanup_loop : M unit :=
  fun w => cleanup_loop_n (S (S (length (script w)))) w.

(* ===================================================================== *)
(** ** Strings of the sync pipeline *)
(* ===================================================================== *)

(** The double quote, for messages that contain one. *)
Definition dq : string := String (ascii_of_nat 34) EmptyString.

(** White space as [str.strip()] sees it, on the UTF-8 text: the ASCII
    characters 9-13 and 28-32; U+0085 and U+00A0 (bytes C2 85 and
    C2 A0); U+1680 (E1 9A 80); U+2000 to U+200A, U+2028, U+2029 and
    U+202F (E2 80 followed by 80-8A, A8, A9, AF); U+205F (E2 81 9F);
    U+3000 (E3 80 80). *)
Definition is_space (c : ascii) : bool :=
  let n := nat_of_ascii c in
  (((9 <=? n) && (n <=? 13)) || ((28 <=? n) && (n <=? 32)))%nat.

Definition is_space2 (a b : ascii) : bool :=
  let y := nat_of_ascii b in
  Nat.eqb (nat_of_ascii a) 194 && (Nat.eqb y 133 || Nat.eqb y 160).

Definition is_space3 (a b c : ascii) : bool :=
  let x := nat_of_ascii a in
  let y := nat_of_ascii b in
  let z := nat_of_ascii c in
  (Nat.eqb x 225 && Nat.eqb y 154 && Nat.eqb z 128)
  || (Nat.eqb x 226 && Nat.eqb y 128
      && ((Nat.leb 128 z && Nat.leb z 138)
          || Nat.eqb z 168 || Nat.eqb z 169 || Nat.eqb z 175))
  || (Nat.eqb x 226 && Nat.eqb y 129 && Nat.eqb z 159)
  || (Nat.eqb x 227 && Nat.eqb y 128 && Nat.eqb z 128).

(** The text without the white space at its start; with [back], the
    text is read from its end, so that the bytes of a character come in
    the opposite order. *)
Fixpoint strip_start (back : bool) (s : string) : string :=
  match s with
  | EmptyString => EmptyString
  | String c r =>
      if is_space c then strip_start back r
      else
        match r with
        | EmptyString => s
        | String c1 r1 =>
            if (if back then is_space2 c1 c else is_space2 c c1)
            then strip_start back r1
            else
              match r1 with
              | EmptyString => s
              | String c2 r2 =>
                  if (if back then is_space3 c2 c1 c else is_space3 c c1 c2)
                  then strip_start back r2
                  else s
              end
        end
  end.

Definition string_rev (s : string) : string :=
  string_of_list_ascii (rev (list_ascii_of_string s)).

Definition lstrip (s : string) : string := strip_start false s.

Definition rstrip (s : string) : string :=
  string_rev (strip_start true (string_rev s)).

Definition strip (s : string) : string := rstrip (lstrip s).

(** [str.lower()] on ASCII. *)
Definition lower_ascii (c : ascii) : ascii :=
  let n := nat_of_ascii c in
  if ((65 <=? n) && (n <=? 90))%nat then ascii_of_nat (n + 32) else c.

Fixpoint lower (s : string) : string :=
  match s with
  | EmptyString => EmptyString
  | String c r => String (lower_ascii c) (lower r)
  end.

(** A character of the class [[a-zA-Z_-]]. *)
Definition is_lang_char (c : ascii) : bool :=
  let n := nat_of_ascii c in
  (((65 <=? n) && (n <=? 90)) || ((97 <=? n) && (n <=? 122))
   || (n =? 95) || (n =? 45))%nat.

(** [LANG_PATTERN.fullmatch], the pattern being [^[a-zA-Z_-]+\.txt$]
    (sync_translations.py:66). *)
Fixpoint lang_tail (s : string) : bool :=
  match s with
  | EmptyString => false
  | String c r =>
      if String.eqb s ".txt" then true else is_lang_char c && lang_tail r
  end.

Definition LANG_PATTERN_fullmatch (s : string) : bool :=
  match s with
  | EmptyString => false
  | String c r => is_lang_char c && lang_tail r
  end.

(** [pathlib.Path.stem] of a file name: the name without its last suffix,
    which begins at the last dot when that dot is neither the first nor
    the last character of the name. *)
Fixpoint stem_rest (s : string) : string :=
  match s with
  | EmptyString => EmptyString
  | String c r =>
      if (Ascii.eqb c "."%char)
         && negb (existsb (Ascii.eqb "."%char) (list_ascii_of_string r))
         && negb (String.eqb r "")
      then EmptyString
      else String c (stem_rest r)
  end.

Definition stem (s : string) : string :=
  match s with
  | EmptyString => EmptyString
  | String c r => String c (stem_rest r)
  end.

(* ===================================================================== *)
(** ** SyncLangTask (sync_translations.py:18-62) *)
(* ===================================================================== *)

(** The fields set in [__init__], with the lines [aiofiles] yields for
    [lang_file].  [self.folder_task.keys] is [keys] of the world and
    [self.lines] is [lines] of the world. *)
Record SyncLangTask :=
  { lt_self : nat;              (* the Task object *)
    lt_name : string;           (* self.name *)
    lang_file : string;         (* the path *)
    lang_file_lines : list string;
    lt_lang_code : string;      (* self.lang_code *)
    l10n_name : string }.

(** The [async for line in fp] loop: every step awaits the file, the last
    one finds its end. *)
Fixpoint read_loop (content : list string) : M unit :=
  await_io ;;
  match content with
  | [] => ret tt
  | line :: rest =>
      modify (fun w => set_lines (lines (sync w) ++ [strip line]) w) ;;
      check_shutdown ;;
      read_loop rest
  end.

(** [async with aiofiles.open(...) as fp: body]. *)
Definition with_open {A} (body : M A) : M A :=
  await_io ;;
  try_finally body await_io.

(** Lines 31-38 of [read_lines]: everything up to the end of the
    [async with] block, that is, reading the file to its end. *)
Definition read_lines_file (self : SyncLangTask) : M unit :=
  check_shutdown ;;
  info (lt_name self)
       ("Reading lines from " ++ dq ++ lang_file self ++ dq ++ "...") ;;
  modify (set_lines []) ;;
  with_open (read_loop (lang_file_lines self)).

(** [SyncLangTask.read_lines] (sync_translations.py:30). *)
Definition read_lines (self : SyncLangTask) : M unit :=
  read_lines_file self ;;
  nl <- get (fun w => length (lines (sync w))) ;;
  nk <- get (fun w => length (keys (sync w))) ;;
  (if negb (Nat.eqb nl nk)
   then
     base <- get base_name ;;
     error_raise base RuntimeError
       ("Number of lines (" ++ str_nat nl
        ++ ") doesn't match with number of keys (" ++ str_nat nk ++ ")!")
   else ret tt) ;;
  info (lt_name self)
       ("Found " ++ str_nat nl ++ " lines in " ++ span ++ "...").

(** [await conn.execute(statement, row)] and [await conn.commit()]. *)
Definition conn_execute (r : row) : M unit :=
  modify (fun w => set_db (db w ++ [DbInsert r]) w) ;; await_io.

Definition conn_commit : M unit :=
  modify (fun w => set_db (db w ++ [DbCommit]) w) ;; await_io.

(** The [for i, (key, body) in enumerate(zip(...))] loop of
    [store_lines]. *)
Fixpoint store_loop (self : SyncLangTask) (kb : list (string * string))
  : M unit :=
  match kb with
  | [] => ret tt
  | (key, body) :: rest =>
      conn_execute {| string_file := l10n_name self; string_key := key;
                      lang_code := lt_lang_code self;
                      string_body := body |} ;;
      check_shutdown ;;
      store_loop self rest
  end.

(** [SyncLangTask.store_lines] (sync_translations.py:43). *)
Definition store_lines (self : SyncLangTask) : M unit :=
  check_shutdown ;;
  nl <- get (fun w => length (lines (sync w))) ;;
  info (lt_name self) ("Storing " ++ str_nat nl ++ " to DB...") ;;
  stack <- AsyncExitStack ;;
  async_with stack
    (db_conn stack ;;
     check_shutdown ;;
     kb <- get (fun w => combine (keys (sync w)) (lines (sync w))) ;;
     store_loop self kb ;;
     conn_commit) ;;
  info (lt_name self)
       ("Stored " ++ str_nat nl ++ " to DB in " ++ span ++ ".").

(** [SyncLangTask.main] (sync_translations.py:60). *)
Definition SyncLangTask_main (self : SyncLangTask) : M unit :=
  read_lines self ;;
  store_lines self.

(** The coroutine the loop runs for a language task. *)
Definition SyncLangTask_run (self : SyncLangTask) : M unit :=
  _main_outer (lt_self self) (SyncLangTask_main self).

(* ===================================================================== *)
(** ** SyncFolderTask (sync_translations.py:65-116) *)
(* ===================================================================== *)

(** An entry [scandir] returns. *)
Record dir_entry := { e_name : string; e_is_file : bool }.

Record SyncFolderTask :=
  { ft_self : nat;
    ft_name : string;            (* self.name, the folder's name *)
    path_parent : string;
    keys_lines : list string;    (* what the file keys.txt yields *)
    entries : list dir_entry }.  (* what scandir(path_parent) yields *)

Fixpoint read_keys_loop (content : list string) : M unit :=
  await_io ;;
  match content with
  | [] => ret tt
  | line :: rest =>
      modify (fun w => set_keys (keys (sync w) ++ [strip line]) w) ;;
      check_shutdown ;;
      read_keys_loop rest
  end.

(** [SyncFolderTask.read_keys] (sync_translations.py:76). *)
Definition read_keys (self : SyncFolderTask) : M unit :=
  check_shutdown ;;
  info (ft_name self) "Reading keys..." ;;
  modify (set_keys []) ;;
  with_open (read_keys_loop (keys_lines self)) ;;
  nk <- get (fun w => length (keys (sync w))) ;;
  info (ft_name self)
       ("Found " ++ str_nat nk ++ " keys in " ++ span ++ "...").

(** The [for entry in entries] loop of [find_languages]: a language file
    gets a [SyncLangTask], which is recorded and started. *)
Fixpoint find_loop (self : SyncFolderTask) (es : list dir_entry) : M unit :=
  match es with
  | [] => ret tt
  | entry :: rest =>
      (if String.eqb (lower (e_name entry)) "keys.txt" then ret tt
       else if negb (LANG_PATTERN_fullmatch (e_name entry)) then ret tt
       else
         await_io ;;
         if negb (e_is_file entry) then ret tt
         else
           check_shutdown ;;
           sub_task <- Task_init (ft_name self ++ "/" ++ stem (e_name entry))
                                 (Some SyncLangTask_SEM) ;;
           modify (fun w => set_langs (langs (sync w) ++ [sub_task]) w) ;;
           start sub_task ;;
           ret tt) ;;
      find_loop self rest
  end.

(** [SyncFolderTask.find_languages] (sync_translations.py:87). *)
Definition find_languages (self : SyncFolderTask) : M unit :=
  check_shutdown ;;
  info (ft_name self) "Looking for languages..." ;;
  await_io ;;
  check_shutdown ;;
  find_loop self (entries self) ;;
  n <- get (fun w => length (langs (sync w))) ;;
  info (ft_name self)
       ("Found " ++ str_nat n ++ " languages in " ++ span ++ "...").

(** [SyncFolderTask.main] (sync_translations.py:108). *)
Definition SyncFolderTask_main (self : SyncFolderTask) : M unit :=
  info (ft_name self)
       ("Syncing from " ++ dq ++ path_parent self ++ dq ++ "...") ;;
  read_keys self ;;
  find_languages self ;;
  nk <- get (fun w => length (keys (sync w))) ;;
  info (ft_name self) ("Running " ++ str_nat nk ++ " lang sync tasks...") ;;
  check_shutdown ;;
  ls <- get (fun w => langs (sync w)) ;;
  gather ls false ;;
  info (ft_name self)
       ("Done " ++ str_nat nk ++ " lang sync tasks in " ++ span ++ ".").

(* ===================================================================== *)
(** ** Notions used by the statements *)
(* ===================================================================== *)

(** Number of executions of the body of the [Task] object [self] that were
    scheduled: the asyncio tasks created for it. *)
Definition executions (self : nat) (w : world) : nat :=
  length (filter (fun a => match t_obj a with
                           | Some o => Nat.eqb o self
                           | None => false
                           end) (all_tasks w)).

(** The operations of the program that touch the shutdown event or run
    while it may be set. *)
Inductive operation :=
| OpShutdown (reason : string)
| OpCheck
| OpSleep (sleep : nat)
| OpEvent (e : env_event)
| OpLang (t : SyncLangTask)
| OpFolder (self : nat) (t : SyncFolderTask)
| OpGather (tasks : list nat) (return_exceptions : bool)
| OpCleanup.

Definition perform (w : world) (o : operation) : world :=
  match o with
  | OpShutdown r => snd (shutdown r w)
  | OpCheck => snd (check_shutdown w)
  | OpSleep n => snd (sleep_or_shutdown n w)
  | OpEvent e => snd (apply_event e w)
  | OpLang t => snd (SyncLangTask_run t w)
  | OpFolder self t => snd (_main_outer self (SyncFolderTask_main t) w)
  | OpGather ts re => snd (gather ts re w)
  | OpCleanup => snd (cleanup_loop w)
  end.

(** The record [Base.shutdown] logs. *)
Definition shutdown_record (bname reason : string) : log_record :=
  {| levelname := WARNING;
     message := "[" ++ bname ++ "] Shutdown requested: " ++ repr reason;
     exc_info := false |}.

Definition shutdown_record_of (bname text : string) : log_record :=
  {| levelname := WARNING;
     message := "[" ++ bname ++ "] Shutdown requested: " ++ text;
     exc_info := false |}.

(** The records [_main_outer] logs for a task named [n]. *)
Definition cancelled_record (n : string) : log_record :=
  {| levelname := WARNING;
     message := "[" ++ n ++ "] Cancelled before completion.";
     exc_info := false |}.

Definition aborted_record (n : string) : log_record :=
  {| levelname := WARNING;
     message := "[" ++ n ++ "] Shutdown before completion.";
     exc_info := false |}.

Definition failed_record (n : string) (e : exc) : log_record :=
  {| levelname := ERROR;
     message := "[" ++ repr n ++ "] Failed: " ++ class_name (exc_type e)
                ++ ": " ++ exc_str e;
     exc_info := false |}.

(** The same record, with [text] for [repr] of the name. *)
Definition failed_record_of (text : string) (e : exc) : log_record :=
  {| levelname := ERROR;
     message := "[" ++ text ++ "] Failed: " ++ class_name (exc_type e)
                ++ ": " ++ exc_str e;
     exc_info := false |}.

(** A semaphore of capacity 8 whose permits are all taken by the tasks
    1..8, as a run of eight [acquire] calls leaves it. *)
Definition full_sem : Semaphore :=
  match sem_run (Semaphore_new sem_capacity)
                (map CallAcquire (seq 1 8)) with
  | Some s => s
  | None => Semaphore_new sem_capacity
  end.

(** Number of [Tick]s among events. *)
Definition ticks (evs : list env_event) : nat :=
  length (filter (fun e => match e with Tick => true | _ => false end) evs).

(** The counter is never negative, and every permit is either free, held
    by a task inside its block, or handed to a waiter about to run. *)
Definition sem_inv (N : Z) (s : Semaphore) : Prop :=
  (0 <= _value s)%Z
  /\ (_value s + Z.of_nat (held s) + Z.of_nat (granted s) = N)%Z.

(** [m] keeps [P]: from a world with [P] it ends in a world with [P],
    however it ends. *)
Definition preserves {A} (P : world -> Prop) (m : M A) : Prop :=
  forall w, P w -> P (snd (m w)).

(** Exits that do not close a connection. *)
Definition sem_only (cs : list cm) : Prop :=
  Forall (fun c => match c with CmSem _ => True | CmConn => False end) cs.

(** [cancel()] calls counted on task [t]. *)
Definition cancels_of (l : list atask) (t : tid) : nat :=
  match nth_error l t with
  | Some a => t_cancels a
  | None => 0
  end.

(** The text of the error [read_lines] raises. *)
Definition mismatch_message (nl nk : nat) : string :=
  "Number of lines (" ++ str_nat nl
  ++ ") doesn't match with number of keys (" ++ str_nat nk ++ ")!".

(** A language file of one line under a folder with two keys. *)
Definition lang_en : SyncLangTask :=
  {| lt_self := 0; lt_name := "Menu/en"; lang_file := "Menu/en.txt";
     lang_file_lines := ["Hello"]; lt_lang_code := "en";
     l10n_name := "Menu" |}.

(** Two worlds that differ at most in the shutdown flag. *)
Definition eq_but_flag (w1 w2 : world) : Prop :=
  set_flag true w1 = set_flag true w2.

(** The two records a round of the drain loop logs. *)
Definition cancelling_record (bname : string) (ts : list tid)
    (l : list atask) : log_record :=
  {| levelname := INFO;
     message := "[" ++ bname ++ "] "
                ++ ("Cancelling all " ++ str_nat (length ts) ++ " tasks: "
                    ++ repr_list (map (task_label l) ts));
     exc_info := false |}.

Definition settled_record (bname : string) (d p : nat) : log_record :=
  {| levelname := INFO;
     message := "[" ++ bname ++ "] "
                ++ ("Cancelled " ++ str_nat d ++ " tasks, "
                    ++ str_nat p ++ " not yet done.");
     exc_info := false |}.

(** The tasks [ts] all have a name, which is not empty and has no
    character outside ASCII. *)
Definition plainly_named (l : list atask) (ts : list tid) : bool :=
  forallb (fun t => match nth_error l t with
                    | Some a => negb (String.eqb (t_name a) "")
                                && ascii_only (t_name a)
                    | None => false
                    end) ts.

(** The condition [asyncio.wait] waits for. *)
Definition all_done (ts : list tid) (w : world) : bool :=
  forallb (is_done (all_tasks w)) ts.

(** Two ends of a computation that agree: the same result, and the same
    world unless the computation never returns. *)
Definition same_end {A} (r1 r2 : result A * world) : Prop :=
  fst r1 = fst r2 /\ (fst r1 <> Blocked -> snd r1 = snd r2).

(** What the callbacks counted so far: the distinct children in [F], all
    finished without exception, fewer than there are children. *)
Definition gpend (D : list tid) (l : list atask) (g : gathering)
    (F : list tid) : Prop :=
  NoDup F /\ incl F D /\ nfinished g = length F /\ length F < nfuts g
  /\ (forall t, In t F -> state_of l t = Finished).

(** What a gathering future that is done tells about the children. *)
Definition gdone (futs : list tid) (l : list atask) (g : gathering) : Prop :=
  match outer g with
  | OPending => True
  | OResult _ => forall u, In u futs -> state_of l u = Finished
  | OException e =>
      (exists u, In u futs /\ child_failure l u = Some e)
      \/ e = cancelled_error
  end.

(** Two tasks are left running when the root is done; the first ends on
    the cancellation within a second, the second only in the next round. *)
Definition drain_world : world :=
  snd (create_task None "Menu/en"
         (snd (create_task None "Menu/de"
                 (world0 "sync_t9ns"
                    [Tick; TaskDone 1 Returned; Tick; Tick; Tick; Tick;
                     Tick; TaskDone 2 Returned])))).

(** Two language tasks of a folder, not yet started, and a loop in which
    the first fails and the second ends a little later. *)
Definition two_langs : world :=
  snd (Task_init "Menu/de" (Some SyncLangTask_SEM)
         (snd (Task_init "Menu/en" (Some SyncLangTask_SEM)
                 (world0 "sync_t9ns"
                    [TaskDone 1 (Raised {| exc_type := RuntimeError;
                                           exc_str := "boom" |});
                     Tick; TaskDone 2 Returned])))).

(** The same two tasks once [wait] has started both. *)
Definition two_langs_started : world :=
  snd (wait_all [0; 1] two_langs).

(** A world in which the language task [lang_en] exists and its folder
    has the keys [ks]. *)
Definition lang_world (ks : list string) : world :=
  set_keys ks (snd (Task_init "Menu/en" (Some SyncLangTask_SEM)
                      (world0 "sync_t9ns" []))).

(* ===================================================================== *)
(** ** Notions for the rest of the code *)
(* ===================================================================== *)

(** What a coroutine owns or reads besides the loop's state: the
    statements sent, the exit stacks, the lists of the pipeline, the
    [Task] objects, who runs, and the name of the [Base] object. *)
Definition store (w : world)
  : list db_op * list (list cm) * sync_state * list Task * tid * string :=
  (db w, stacks w, sync w, objs w, current w, base_name w).

(** The row [store_lines] builds from a key and a line. *)
Definition row_of (self : SyncLangTask) (kb : string * string) : row :=
  {| string_file := l10n_name self; string_key := fst kb;
     lang_code := lt_lang_code self; string_body := snd kb |}.

(** The inserts for the pairs [kb]. *)
Definition inserts (self : SyncLangTask) (kb : list (string * string))
  : list db_op :=
  map (fun p => DbInsert (row_of self p)) kb.

(** The statements an entry and an exit send. *)
Definition sent_by_enter (c : cm) : list db_op :=
  match c with CmConn => [DbConnect] | CmSem _ => [] end.

Definition sent_by_exit (c : cm) : list db_op :=
  match c with CmConn => [DbClose] | CmSem _ => [] end.

(** The body of the [async with] block of [store_lines]. *)
Definition store_block (self : SyncLangTask) (stack : nat) : M unit :=
  db_conn stack ;;
  check_shutdown ;;
  kb <- get (fun w => combine (keys (sync w)) (lines (sync w))) ;;
  store_loop self kb ;;
  conn_commit.

(** The world of [lang_en] after it has read its line, when the signal
    arrives during the insert. *)
Definition lang_world_signalled : world :=
  set_script [IoDone; Signal "SIGINT"]
    (set_lines ["Hello"] (lang_world ["greeting"])).

(** A folder with two keys and four directory entries, and a world in
    which its task exists. *)
Definition folder_menu : SyncFolderTask :=
  {| ft_self := 0; ft_name := "Menu"; path_parent := "Localization/Menu";
     keys_lines := ["greeting "; " farewell"];
     entries := [{| e_name := "Keys.txt"; e_is_file := true |};
                 {| e_name := "en.txt"; e_is_file := true |};
                 {| e_name := "notes.md"; e_is_file := true |};
                 {| e_name := "de.txt"; e_is_file := false |};
                 {| e_name := "pt_BR.txt"; e_is_file := true |}] |}.

Definition folder_world : world :=
  snd (Task_init "Menu" None (world0 "sync_t9ns" [])).

(** The entries for which [find_languages] creates a task, and the task
    object it creates for one. *)
Definition is_language (entry : dir_entry) : bool :=
  negb (String.eqb (lower (e_name entry)) "keys.txt")
  && LANG_PATTERN_fullmatch (e_name entry)
  && e_is_file entry.

Definition lang_object (self : SyncFolderTask) (entry : dir_entry)
    (o : Task) : Prop :=
  name o = ft_name self ++ "/" ++ stem (e_name entry)
  /\ task_sem o = Some SyncLangTask_SEM
  /\ _task o <> None.

(** Whether the object [o] is one of the [n] objects created after the
    first [k]. *)
Definition created (k n o : nat) : nat :=
  if Nat.leb k o && Nat.ltb o (k + n) then 1 else 0.

(** Whether the [Task] object [o] exists and has no handle yet, and the
    handle it has. *)
Definition unstarted (w : world) (o : nat) : bool :=
  match nth_error (objs w) o with
  | Some t => match _task t with None => true | Some _ => false end
  | None => false
  end.

Definition handle_of (w : world) (o : nat) : option tid :=
  match nth_error (objs w) o with
  | Some t => _task t
  | None => None
  end.

(** What [wait] adds to the executions of the object [o] when it is
    called for the objects [tasks]. *)
Definition started_by (w : world) (tasks : list nat) (o : nat) : nat :=
  if existsb (Nat.eqb o) tasks && unstarted w o then 1 else 0.

(** What an await leaves alone, whatever events arrive: who runs, the
    cancel requests, and the state of the tasks that are done. *)
Definition spared (w0 w' : world) : Prop :=
  current w' = current w0
  /\ (forall t, cancels_of (all_tasks w') t = cancels_of (all_tasks w0) t)
  /\ (forall t, is_done (all_tasks w0) t = true ->
                state_of (all_tasks w') t = state_of (all_tasks w0) t).

(* ===================================================================== *)
(** ** Base.async_main and the default sub_main (base.py:236-374) *)
(* ===================================================================== *)

(** [Base._async_post] (base.py:236): setting the debug flag of the loop
    changes nothing that is modelled. *)
Definition _async_post : M unit := check_shutdown.

(** [Base.async_main] (base.py:359).  [_db_prepare] and [sub_main] are
    the methods of the object; [sub_main] is what a program overrides. *)
Definition async_main (_db_prepare sub_main : M unit) : M unit :=
  self <- get base_name ;;
  try_finally
    (try_except
       (_async_post ;;
        _db_prepare ;;
        info self "Initialized, running sub_main..." ;;
        sub_main ;;
        info self "Done sub_main.")
       (fun exc =>
          if isinstance exc CancelledError
          then warning self "Cancelled before completion."
          else if isinstance exc Shutdown
          then warning self "Shutdown before completion."
          else if isinstance exc Exception
          then error_exc self "sub_main failed" exc
                 (negb (isinstance exc BaseException)) ;;
               raise exc
          else raise exc))
    cleanup_loop.

(** [await asyncio.sleep(delay)]. *)
Definition asyncio_sleep (delay : nat) : M unit :=
  await_until (fun _ => false) (Some delay) ;; ret tt.

(** [Base.sub_main] (base.py:339), the [while True] loop unrolled [fuel]
    times; out of fuel it has not returned. *)
Fixpoint sub_main_n (fuel : nat) : M unit :=
  match fuel with
  | 0 => fun w => (Blocked, w)
  | S n =>
      asyncio_sleep 1 ;;
      set <- get shutdown_requested ;;
      if set then ret tt else sub_main_n n
  end.

(** A sleep uses up an event of the script or finds it empty; once it is
    empty nothing changes any more.  So this many rounds decide. *)
Definition Base_sub_main : M unit :=
  fun w => sub_main_n (S (length (script w))) w.

(** A world in which the shutdown was requested before the loop ran. *)
Definition world_shut : world := set_flag true (world0 "main" [Spawn "x"]).

(** The folder of the example when the file system answers nine times
    and the two language tasks then end. *)
Definition folder_world_run : world :=
  set_script (repeat IoDone 9
              ++ [TaskDone 1 Returned; TaskDone 2 Returned])%list
    folder_world.

(* ===================================================================== *)
(** ** Permits and exit stacks *)
(* ===================================================================== *)

Definition sem_event_task (e : sem_event) : tid :=
  match e with
  | CallAcquire t | Resume t | FutCancel t | ResumeCancelled t | Release t => t
  end.

(** An event of the script that is not a step of the task [me] on a
    semaphore: the steps of the running task are those of its own
    [acquire] and [release]. *)
Definition foreign (me : tid) (e : env_event) : bool :=
  match e with
  | SemEvent _ ev => negb (Nat.eqb (sem_event_task ev) me)
  | _ => true
  end.

Definition foreign_script (w : world) : Prop :=
  forallb (foreign (current w)) (script w) = true.

(** The permits of [s] the running task holds. *)
Definition permits (s : sem_id) (w : world) : nat :=
  count_occ Nat.eq_dec (holders (sem_of s w)) (current w).

Definition sem_id_eqb (a b : sem_id) : bool :=
  match a, b with
  | io_sem, io_sem | db_sem, db_sem | SyncLangTask_SEM, SyncLangTask_SEM =>
      true
  | _, _ => false
  end.

(** The releases of [s] registered on an exit stack. *)
Definition owed (s : sem_id) (cs : list cm) : nat :=
  length (filter (fun c => match c with
                           | CmSem s' => sem_id_eqb s s'
                           | CmConn => false
                           end) cs).

(** The exit stacks that exist stay as they are. *)
Definition stacks_kept (w w' : world) : Prop :=
  length (stacks w) <= length (stacks w')
  /\ forall st, st < length (stacks w) ->
                nth st (stacks w') [] = nth st (stacks w) [].

(** A computation that, unless it waits for ever, ends with the permits
    the task had and with the exit stacks as they were. *)
Definition keeps {A} (m : M A) : Prop :=
  forall w, foreign_script w -> fst (m w) <> Blocked ->
    current (snd (m w)) = current w
    /\ foreign_script (snd (m w))
    /\ (forall s, permits s (snd (m w)) = permits s w)
    /\ stacks_kept w (snd (m w)).

(** A computation that registers on the stack [st] the release of every
    permit it takes and keeps. *)
Definition bal {A} (st : nat) (m : M A) : Prop :=
  forall w, foreign_script w -> st < length (stacks w) ->
    fst (m w) <> Blocked ->
    current (snd (m w)) = current w
    /\ foreign_script (snd (m w))
    /\ length (stacks w) <= length (stacks (snd (m w)))
    /\ (forall st', st' <> st -> st' < length (stacks w) ->
                    nth st' (stacks (snd (m w))) [] = nth st' (stacks w) [])
    /\ (forall s, permits s (snd (m w)) + owed s (nth st (stacks w) [])
                  = permits s w + owed s (nth st (stacks (snd (m w))) [])).

(** The language task of the example while another task takes a permit
    of [db_sem] and the task itself is cancelled during an insert. *)
Definition lang_world_busy : world :=
  set_script [SemEvent db_sem (CallAcquire 5); IoDone; IoDone; IoDone;
              IoDone; SemEvent db_sem (Release 5); Cancel]
    (lang_world ["greeting"]).

(* ===================================================================== *)
(** ** AnalyzeTranslations._process_suggestion
       (analyze_translations.py:336-398) *)
(* ===================================================================== *)

#[local] Unset Elimination Schemes.

(** What [json.loads] returns. *)
Inductive json :=
| JNull
| JBool (b : bool)
| JNum (literal : string)
| JStr (s : string)
| JList (l : list json)
| JDict (items : list (string * json)).

#[local] Set Elimination Schemes.

(** [d.get(key)] on the items of a dict. *)
Fixpoint dict_get (key : string) (items : list (string * json))
  : option json :=
  match items with
  | [] => None
  | (k, v) :: r => if String.eqb k key then Some v else dict_get key r
  end.

(** A row of the query of [_pick_strings], as far as it is used here; the
    query keeps the pairs whose two bodies differ
    (analyze_translations.py:70), so both are strings. *)
Record string_pair :=
  { sp_string_file : string; sp_string_key : string;
    sp_source_id : nat; sp_target_id : nat;
    source_string_body : string; target_string_body : string }.

(** The sign [U+2116] of the log token, in UTF-8. *)
Definition numero : string :=
  String (ascii_of_nat 226) (String (ascii_of_nat 132)
    (String (ascii_of_nat 150) EmptyString)).

(** [_pairs_log_token] (analyze_translations.py:258). *)
Definition _pairs_log_token (p : string_pair) : string :=
  "translation " ++ numero ++ str_nat (sp_source_id p) ++ " -> " ++ numero
  ++ str_nat (sp_target_id p) ++ " on string (" ++ dq ++ sp_string_file p
  ++ dq ++ ", " ++ dq ++ sp_string_key p ++ dq ++ ")".

(** A choice of the response, as far as it is used: what [json.loads]
    makes of [choice.message.content] (or the exception it raises), and
    [repr(choice)]. *)
Record choice :=
  { content_loaded : json + exc;
    choice_repr : string }.

(** The response of the model, as far as it is used: the choices, the
    token counts [(completion_tokens, prompt_tokens)] of [usage] when
    there is one, and the fingerprint. *)
Record completion :=
  { choices : list choice;
    usage : option (nat * nat);
    c_system_fingerprint : option string }.

(** [response.choices[0]]. *)
Definition index_error : exc :=
  {| exc_type := IndexError; exc_str := "list index out of range" |}.

Definition first_choice (response : completion) : M choice :=
  match choices response with
  | c :: _ => ret c
  | [] => raise index_error
  end.

Definition repr_bool (b : bool) : string := if b then "True" else "False".

(** [x and y or None] for a count [y]. *)
Definition and_or_None (x : option (nat * nat)) (f : nat * nat -> nat)
  : option nat :=
  match x with
  | Some u => if Nat.eqb (f u) 0 then None else Some (f u)
  | None => None
  end.

Section ProcessSuggestion.

(** [pprint.pformat] on a decoded value, and [config['openai_model']]. *)
Variable pformat : json -> string.
Variable model_id : string.

Variable self : string.       (* self.name *)
Variable log_token : string.

(** Lines 343-346: decoding the content of the first choice. *)
Definition decoded (response : choice) : M json :=
  match content_loaded response with
  | inl v => ret v
  | inr e =>
      if isinstance e Exception
      then warning_exc self
             ("Failed to decode model " ++ repr model_id
              ++ " response on " ++ log_token ++ ": choice="
              ++ choice_repr response) e false ;;
           ret (JDict [])
      else raise e
  end.

(** Lines 349-351. *)
Definition as_dict (suggestion_json : json) : M (list (string * json)) :=
  match suggestion_json with
  | JDict items => ret items
  | v =>
      warning self
        ("Model " ++ repr model_id
         ++ " responded with with non-dict object on " ++ log_token
         ++ ": " ++ pformat v) ;;
      ret []
  end.

(** Lines 353-356. *)
Definition valid_has_suggestion (items : list (string * json)) : M bool :=
  match dict_get "has_suggestion" items with
  | Some (JBool b) => ret b
  | _ =>
      warning self
        ("Model " ++ repr model_id
         ++ " didn't provided valid 'has_suggestion' on " ++ log_token
         ++ ": " ++ pformat (JDict items)) ;;
      ret false
  end.

(** Lines 358-362: the suggestion and the new [has_suggestion]. *)
Definition valid_suggestion (items : list (string * json))
    (has_suggestion : bool) : M (option string * bool) :=
  match dict_get "suggestion" items with
  | None | Some JNull => ret (None, has_suggestion)
  | Some (JStr (String c r)) => ret (Some (String c r), has_suggestion)
  | Some _ =>
      warning self
        ("Model " ++ repr model_id
         ++ " didn't provided valid 'suggestion' on " ++ log_token
         ++ ": " ++ pformat (JDict items)) ;;
      ret (None, false)
  end.

(** Lines 364-367. *)
Definition not_the_target (target : string) (items : list (string * json))
    (sh : option string * bool) : M (option string * bool) :=
  match fst sh with
  | Some s =>
      if String.eqb target s
      then warning self
             ("Model " ++ repr model_id
              ++ " suggested exactly the same 'target' on " ++ log_token
              ++ ": " ++ pformat (JDict items)) ;;
           ret (None, false)
      else ret sh
  | None => ret sh
  end.

(** Lines 369-372. *)
Definition valid_comment (items : list (string * json))
  : M (option string) :=
  match dict_get "comment" items with
  | None | Some JNull => ret None
  | Some (JStr (String c r)) => ret (Some (String c r))
  | Some _ =>
      warning self
        ("Model " ++ repr model_id
         ++ " didn't provided valid 'comment' on " ++ log_token
         ++ ": " ++ pformat (JDict items)) ;;
      ret None
  end.

End ProcessSuggestion.

(** [await conn.execute(statement, row)] on the table [suggestions]. *)
Definition conn_execute_suggestion (r : suggestion_row) : M unit :=
  modify (fun w => set_db (db w ++ [DbInsertSuggestion r]) w) ;; await_io.

(** [pprint.pformat(suggestion)] takes [None] or a string. *)
Definition json_of (v : option string) : json :=
  match v with
  | Some s => JStr s
  | None => JNull
  end.

(** [_process_suggestion] (analyze_translations.py:336); [self.name] of
    the program is [base_name], the metadata holds the table
    [suggestions]. *)
Definition _process_suggestion (pformat : json -> string)
    (model_id : string) (p : string_pair) (response : completion)
    (interval : string) : M unit :=
  self <- get base_name ;;
  let log_token := _pairs_log_token p in
  info self "Processing " ;;
  choice <- first_choice response ;;
  suggestion_json <- decoded model_id self log_token choice ;;
  items <- as_dict pformat model_id self log_token suggestion_json ;;
  has_suggestion <-
    valid_has_suggestion pformat model_id self log_token items ;;
  sh <- valid_suggestion pformat model_id self log_token items
          has_suggestion ;;
  sh <- not_the_target pformat model_id self log_token
          (target_string_body p) items sh ;;
  comment <- valid_comment pformat model_id self log_token items ;;
  info self ("Storing suggestion (" ++ repr_bool (snd sh) ++ ") for "
             ++ log_token ++ " to DB...") ;;
  stack <- AsyncExitStack ;;
  async_with stack
    (db_conn stack ;;
     check_shutdown ;;
     conn_execute_suggestion
       {| r_source_id := sp_source_id p; r_target_id := sp_target_id p;
          r_model_id := model_id;
          suggestion_string_body := fst sh;
          suggestion_comment := comment;
          r_interval := interval;
          completion_tokens := and_or_None (usage response) fst;
          prompt_tokens := and_or_None (usage response) snd;
          system_fingerprint := c_system_fingerprint response |} ;;
     conn_commit) ;;
  info self ("Stored suggestion (" ++ repr_bool (snd sh) ++ ") for "
             ++ log_token ++ " to DB in " ++ span ++ ".") ;;
  info self (pformat (json_of (fst sh))).

(** The body of the [async with] block of [_process_suggestion], and
    what follows the sanitising of the answer. *)
Definition suggestion_block (stack : nat) (r : suggestion_row) : M unit :=
  db_conn stack ;;
  check_shutdown ;;
  conn_execute_suggestion r ;;
  conn_commit.

Definition store_suggestion (self storing stored shown : string)
    (r : suggestion_row) : M unit :=
  info self storing ;;
  stack <- AsyncExitStack ;;
  async_with stack (suggestion_block stack r) ;;
  info self stored ;;
  info self shown.

(** The statements [_process_suggestion] can have sent when it ends with
    [e], the row being [row]. *)
Definition sent_on_raise (row : suggestion_row) (e : exc)
    (tr : list db_op) : Prop :=
  (tr = [] /\ e = cancelled_error)
  \/ (tr = [DbConnect] /\ e = cancelled_error)
  \/ (tr = [DbConnect; DbClose] /\ exc_type e = Shutdown)
  \/ (tr = [DbConnect; DbInsertSuggestion row; DbClose]
      /\ e = cancelled_error)
  \/ (tr = [DbConnect; DbInsertSuggestion row; DbCommit; DbClose]
      /\ e = cancelled_error).

(** A pair of the string [greeting] and two answers of the model: one
    that says it has no suggestion and gives one, one without choices. *)
Definition pair_greeting : string_pair :=
  {| sp_string_file := "Menu"; sp_string_key := "greeting";
     sp_source_id := 1; sp_target_id := 2;
     source_string_body := "Hello"; target_string_body := "Privet" |}.

Definition answer_unflagged : completion :=
  {| choices :=
       [{| content_loaded :=
             inl (JDict [("has_suggestion", JBool false);
                         ("suggestion", JStr "Zdravstvuj");
                         ("comment", JStr "")]);
           choice_repr := "Choice()" |}];
     usage := Some (0, 12); c_system_fingerprint := None |}.

Definition answer_empty : completion :=
  {| choices := []; usage := None; c_system_fingerprint := None |}.

(** A value fit for the row: absent, or a string that is not empty. *)
Definition filled (v : option string) : Prop :=
  forall s, v = Some s -> s <> "".

(** What [_process_suggestion] makes of the answer [response] for the
    pair [p]: the suggestion and the comment are absent or strings that
    are not empty, the suggestion is not the target text, a token count
    is absent or not zero. *)
Definition sanitised (p : string_pair) (r : suggestion_row) : Prop :=
  (forall s, suggestion_string_body r = Some s ->
             s <> "" /\ s <> target_string_body p)
  /\ filled (suggestion_comment r)
  /\ completion_tokens r <> Some 0 /\ prompt_tokens r <> Some 0.

(** The decoded items of the first choice: those of the dict it holds,
    none otherwise. *)
Definition items_of (response : completion) : list (string * json) :=
  match choices response with
  | {| content_loaded := inl (JDict items) |} :: _ => items
  | _ => []
  end.

(** The suggestion of the row, as a function of the decoded items. *)
Definition suggestion_of (target : string) (items : list (string * json))
  : option string :=
  match dict_get "suggestion" items with
  | Some (JStr (String c r)) =>
      if String.eqb target (String c r) then None else Some (String c r)
  | _ => None
  end.

(* ===================================================================== *)
(** ** ExportToGoogleSheet._prepare_worksheet
       (export_to_google_spreadsheet.py:87-104) *)
(* ===================================================================== *)

(** A worksheet of the spreadsheet, as [gspread] shows it. *)
Record worksheet :=
  { title : string; ws_id : nat; row_count : nat; col_count : nat }.

(** [str(worksheet)]. *)
Definition worksheet_str (ws : worksheet) : string :=
  "<Worksheet " ++ repr (title ws) ++ " id:" ++ str_nat (ws_id ws) ++ ">".

(** [next(iter(w for w in worksheets if w.title == model_id))], with the
    place of the worksheet; [None] for [StopIteration]. *)
Fixpoint find_title (t : string) (l : list worksheet) (i : nat)
  : option (nat * worksheet) :=
  match l with
  | [] => None
  | ws :: r =>
      if String.eqb (title ws) t then Some (i, ws)
      else find_title t r (S i)
  end.

(** [_prepare_worksheet]: [model_id] is [config['openai_model']],
    [nrows] is [len(self.rows)], [sheets] are the worksheets of the
    spreadsheet and [new_id] the id the service gives to an added one.
    It returns the worksheets afterwards and the place of
    [self.worksheet]. *)
Definition _prepare_worksheet (model_id : string) (new_id : nat)
    (nrows : nat) (sheets : list worksheet) : M (list worksheet * nat) :=
  self <- get base_name ;;
  info self "Preparing worksheet..." ;;
  let need_rows := nrows + 10 in
  let need_cols := 10 in
  match find_title model_id sheets 0 with
  | Some (i, ws) =>
      info self ("Got existing worksheet: " ++ worksheet_str ws ++ " in "
                 ++ span ++ ".") ;;
      let min_rows := Nat.max need_rows (row_count ws) in
      let min_cols := Nat.max need_cols (col_count ws) in
      if Nat.ltb (row_count ws) min_rows || Nat.ltb (col_count ws) min_cols
      then
        let ws' := {| title := title ws; ws_id := ws_id ws;
                      row_count := min_rows; col_count := min_cols |} in
        info self ("Resized " ++ worksheet_str ws' ++ " to ("
                   ++ str_nat min_rows ++ ", " ++ str_nat min_cols
                   ++ ").") ;;
        ret (list_set i ws' sheets, i)
      else ret (sheets, i)
  | None =>
      let ws := {| title := model_id; ws_id := new_id;
                   row_count := nrows + 10; col_count := 10 |} in
      info self ("Added new worksheet: " ++ worksheet_str ws ++ " in "
                 ++ span ++ ".") ;;
      ret ((sheets ++ [ws])%list, length sheets)
  end.

(** Worksheet [new] is worksheet [old], possibly grown. *)
Definition grown (old new : worksheet) : Prop :=
  title new = title old /\ ws_id new = ws_id old
  /\ row_count old <= row_count new /\ col_count old <= col_count new.

(* ===================================================================== *)
(** ** Base._signals_bind and Base._async_prepare (base.py:222-283) *)
(* ===================================================================== *)

Inductive signum := SIGINT | SIGTERM | SIGBREAK.

(** What [signal.getsignal] can return here: the two constants, Python's
    handler of [SIGINT], and [functools.partial(_handle, handler=prev)]. *)
Inductive handler :=
| SIG_DFL
| SIG_IGN
| default_int_handler
| _handle (prev : handler).

(** The handlers of the process: those given to the loop, with the reason
    the callback passes to [shutdown], and those set with
    [signal.signal]. *)
Record signals :=
  { loop_handlers : list (signum * string);
    on_SIGINT : handler; on_SIGTERM : handler; on_SIGBREAK : handler }.

Definition getsignal (n : signum) (sg : signals) : handler :=
  match n with
  | SIGINT => on_SIGINT sg
  | SIGTERM => on_SIGTERM sg
  | SIGBREAK => on_SIGBREAK sg
  end.

Definition signal_signal (n : signum) (h : handler) (sg : signals)
  : signals :=
  match n with
  | SIGINT => {| loop_handlers := loop_handlers sg; on_SIGINT := h;
                 on_SIGTERM := on_SIGTERM sg;
                 on_SIGBREAK := on_SIGBREAK sg |}
  | SIGTERM => {| loop_handlers := loop_handlers sg;
                  on_SIGINT := on_SIGINT sg; on_SIGTERM := h;
                  on_SIGBREAK := on_SIGBREAK sg |}
  | SIGBREAK => {| loop_handlers := loop_handlers sg;
                   on_SIGINT := on_SIGINT sg;
                   on_SIGTERM := on_SIGTERM sg; on_SIGBREAK := h |}
  end.

Definition add_signal_handler (n : signum) (reason : string)
    (sg : signals) : signals :=
  {| loop_handlers := (loop_handlers sg ++ [(n, reason)])%list;
     on_SIGINT := on_SIGINT sg; on_SIGTERM := on_SIGTERM sg;
     on_SIGBREAK := on_SIGBREAK sg |}.

(** [callable(handler)]. *)
Definition callable (h : handler) : bool :=
  match h with
  | SIG_DFL | SIG_IGN => false
  | _ => true
  end.

(** The [for signal_num in (SIGINT, SIGTERM, SIGBREAK)] loop of the
    fallback (base.py:273-276): the handler read is that of
    [signal_num], the handler set is always that of [SIGINT]. *)
Definition fallback_handlers (sg : signals) : signals :=
  fold_left (fun sg signal_num =>
               signal_signal SIGINT (_handle (getsignal signal_num sg)) sg)
            [SIGINT; SIGTERM; SIGBREAK] sg.

Section Signals.

(** [str(signum)], [signal.strsignal(signum)] and [str(handler)] depend
    on the platform; [loop_repr] is [repr(loop)]. *)
Variable signum_str : signum -> string.
Variable strsignal : signum -> string.
Variable handler_str : handler -> string.
Variable loop_repr : string.

(** Calling a handler with the signal [n]: the body of [_handle]
    (base.py:266-271) for a handler installed by the fallback. *)
Fixpoint call_handler (h : handler) (n : signum) : M unit :=
  match h with
  | _handle prev =>
      shutdown ("signal " ++ signum_str n ++ " " ++ repr (strsignal n)) ;;
      if callable prev
      then
        self <- get base_name ;;
        warning self ("Passing signal " ++ signum_str n ++ " "
                      ++ repr (strsignal n) ++ " to " ++ handler_str prev
                      ++ "...") ;;
        call_handler prev n
      else ret tt
  | default_int_handler =>
      raise {| exc_type := KeyboardInterrupt; exc_str := "" |}
  | SIG_DFL | SIG_IGN => ret tt
  end.

(** [_signals_bind] (base.py:253).  [failure] is what the first
    [loop.add_signal_handler] raises, if anything (a loop without signal
    handlers raises on every call); [signal.signal] and
    [loop.create_task] are taken to succeed, on a platform that has
    [SIGBREAK]. *)
Definition _signals_bind (failure : option exc) (sg : signals)
  : M signals :=
  self <- get base_name ;;
  match failure with
  | None =>
      info self "Added loop signal handlers!" ;;
      ret (add_signal_handler SIGTERM "loop SIGTERM"
             (add_signal_handler SIGINT "loop SIGINT" sg))
  | Some exc =>
      if isinstance exc RuntimeError
      then
        warning_exc self ("Can't " ++ loop_repr ++ ".add_signal_handler(...)")
          exc false ;;
        create_task None "_signals_wakeup" ;;
        warning self "Added fallback signal.signal handlers." ;;
        ret (fallback_handlers sg)
      else raise exc
  end.

End Signals.

(** [prefix in s] at the start of [s], the rest of [s] after [n]
    characters, and [sub in s]. *)
Fixpoint starts_with (p s : string) : bool :=
  match p, s with
  | EmptyString, _ => true
  | String a p', String b s' => Ascii.eqb a b && starts_with p' s'
  | String _ _, EmptyString => false
  end.

Fixpoint drop (n : nat) (s : string) : string :=
  match n, s with
  | 0, _ => s
  | S n', String _ r => drop n' r
  | S _, EmptyString => EmptyString
  end.

Fixpoint contains (sub s : string) : bool :=
  starts_with sub s
  || match s with
     | EmptyString => false
     | String _ r => contains sub r
     end.

(** [s.split(sep, 1)] when it gives two parts ([sep] is not empty). *)
Fixpoint split_once (sep s : string) : option (string * string) :=
  match s with
  | EmptyString => None
  | String c r =>
      if starts_with sep s then Some (EmptyString, drop (String.length sep) s)
      else match split_once sep r with
           | Some (a, b) => Some (String c a, b)
           | None => None
           end
  end.

(** The first lines of [_async_prepare] (base.py:223-226): [None] when
    the unpacking of the split raises [ValueError], otherwise whether the
    selector event loop policy is set. *)
Definition selector_policy (db_url : string) : option bool :=
  match split_once "://" db_url with
  | Some (db_protocol, _) => Some (contains "psycopg" (lower db_protocol))
  | None => None
  end.

(** A string without a colon. *)
Definition no_colon (s : string) : Prop :=
  forallb (fun c => negb (Ascii.eqb c ":"%char)) (list_ascii_of_string s)
  = true.

(** The language task of the example when the shutdown was requested
    before it ran. *)
Definition lang_world_shut : world := set_flag true (lang_world ["greeting"]).

(** [Base._signals_wakeup] (base.py:247), the [while True] loop unrolled
    [fuel] times; out of fuel it has not returned. *)
Fixpoint _signals_wakeup_n (fuel : nat) : M unit :=
  match fuel with
  | 0 => fun w => (Blocked, w)
  | S n => asyncio_sleep 1 ;; _signals_wakeup_n n
  end.


(* ===================================================================== *)
(** * Proofs *)
(* ===================================================================== *)

(** ** The semaphore *)

Section SemaphoreInvariant.


Lemma wake_first_granted ws ws' :
  wake_first ws = Some ws' -> granted_in ws' = S (granted_in ws).
Proof.
  unfold granted_in. revert ws'.
  induction ws as [|[t f] r IH]; intros ws' H; simpl in H; [discriminate|].
  destruct f; simpl in H.
  - injection H as <-. reflexivity.
  - destruct (wake_first r) as [r'|] eqn:E; [|discriminate].
    injection H as <-. simpl. f_equal. f_equal. apply eq_add_S.
    now rewrite <- (IH r' eq_refl).
  - destruct (wake_first r) as [r'|] eqn:E; [|discriminate].
    injection H as <-. simpl. now apply IH.
Qed.

Lemma remove_waiter_granted t ws f :
  waiter_of t ws = Some f ->
  granted_in ws = (if is_result (t, f) then 1 else 0) + granted_in (remove_waiter t ws).
Proof.
  unfold granted_in.
  induction ws as [|[u g] r IH]; intros H; simpl in H; [discriminate|].
  simpl. destruct (Nat.eqb u t).
  - injection H as ->. unfold is_result; simpl. now destruct f.
  - specialize (IH H). unfold is_result in *; simpl in *.
    destruct g; simpl; rewrite IH; destruct f; simpl; lia.
Qed.

Lemma cancel_waiter_granted t ws : granted_in (cancel_waiter t ws) = granted_in ws.
Proof.
  unfold granted_in.
  induction ws as [|[u g] r IH]; simpl; [reflexivity|].
  destruct (Nat.eqb u t).
  - destruct g; reflexivity.
  - unfold is_result in *; simpl. destruct g; simpl; now rewrite IH.
Qed.

Lemma queue_granted t ws : granted_in (ws ++ [(t, FPending)]) = granted_in ws.
Proof.
  unfold granted_in. rewrite filter_app, length_app. simpl. lia.
Qed.

Lemma remove_one_length t l :
  existsb (Nat.eqb t) l = true -> S (length (remove_one t l)) = length l.
Proof.
  induction l as [|u r IH]; simpl; [discriminate|].
  rewrite (Nat.eqb_sym t u).
  destruct (Nat.eqb u t); simpl; [reflexivity|].
  intros H. now rewrite IH.
Qed.

Lemma wake_up_next_inv N s :
  (1 <= _value s)%Z ->
  (_value s + Z.of_nat (held s) + Z.of_nat (granted s) = N)%Z ->
  sem_inv N (_wake_up_next s).
Proof.
  intros Hv Hs. unfold _wake_up_next.
  destruct (wake_first (_waiters s)) as [ws|] eqn:E.
  - apply wake_first_granted in E. unfold sem_inv, held, granted, granted_in in *.
    simpl. unfold granted_in in E. rewrite E. lia.
  - unfold sem_inv. lia.
Qed.

Lemma not_locked_value s :
  (0 <= _value s)%Z -> locked s = false -> (1 <= _value s)%Z.
Proof.
  unfold locked. intros H0 H. apply orb_false_iff in H as [H _].
  apply Z.eqb_neq in H. lia.
Qed.

(** Every step keeps the invariant. *)
Lemma sem_step_inv N s e s' :
  sem_inv N s -> sem_step s e = Some s' -> sem_inv N s'.
Proof.
  intros [H0 Hs] H. destruct e as [t|t|t|t|t]; simpl in H.
  - destruct (waiter_of t (_waiters s)); [discriminate|].
    injection H as <-. unfold acquire_call.
    destruct (locked s) eqn:L; simpl.
    + unfold sem_inv, held, granted, granted_in in *. simpl.
      pose proof (queue_granted t (_waiters s)) as Q.
      unfold granted_in in Q. rewrite Q. lia.
    + apply not_locked_value in L; [|assumption].
      unfold sem_inv, held, granted, granted_in in *. simpl. lia.
  - destruct (waiter_of t (_waiters s)) as [[| |]|] eqn:W; try discriminate.
    injection H as <-. unfold acquire_resume.
    pose proof (remove_waiter_granted t _ _ W) as R. unfold granted_in in R.
    simpl in R.
    cbv zeta. cbn [_value].
    destruct (0 <? _value s)%Z eqn:P.
    + apply Z.ltb_lt in P. apply wake_up_next_inv; simpl; [lia|].
      unfold held, granted, granted_in in *. simpl. lia.
    + unfold sem_inv, held, granted, granted_in in *. simpl. lia.
  - destruct (waiter_of t (_waiters s)); [|discriminate].
    injection H as <-. unfold sem_inv, held, granted, granted_in in *. simpl.
   
    pose proof (cancel_waiter_granted t (_waiters s)) as C.
    unfold granted_in in C. rewrite C. lia.
  - destruct (waiter_of t (_waiters s)) as [f|] eqn:W; [|discriminate].
    pose proof (remove_waiter_granted t _ _ W) as R. unfold granted_in in R.
    destruct f; try discriminate; injection H as <-;
      unfold acquire_cancelled; rewrite W; simpl in R.
    + apply wake_up_next_inv; simpl; [lia|].
      unfold held, granted, granted_in in *. simpl. lia.
    + unfold sem_inv, held, granted, granted_in in *. simpl. lia.
  - destruct (existsb (Nat.eqb t) (holders s)) eqn:X; [|discriminate].
    injection H as <-. apply remove_one_length in X.
    unfold release. apply wake_up_next_inv; simpl; [lia|].
    unfold held, granted, granted_in, tid in *. simpl. lia.
Qed.

Lemma sem_run_inv N es : forall s s',
  sem_inv N s -> sem_run s es = Some s' -> sem_inv N s'.
Proof.
  induction es as [|e r IH]; intros s s' I H; simpl in H.
  - now injection H as <-.
  - destruct (sem_step s e) as [s1|] eqn:E; [|discriminate].
    eapply IH; [|exact H]. eapply sem_step_inv; eauto.
Qed.

Lemma Semaphore_new_inv N : (0 <= N)%Z -> sem_inv N (Semaphore_new N).
Proof. intros H. unfold sem_inv, held, granted, granted_in. simpl. lia. Qed.

End SemaphoreInvariant.

(** ** Properties of the world that computations keep *)


Section Preservation.

Variable P : world -> Prop.

Lemma preserves_ret {A} (a : A) : preserves P (ret a).
Proof. intros w H. exact H. Qed.

Lemma preserves_raise {A} (e : exc) : preserves P (@raise A e).
Proof. intros w H. exact H. Qed.

Lemma preserves_get {A} (f : world -> A) : preserves P (get f).
Proof. intros w H. exact H. Qed.

Lemma preserves_modify (f : world -> world) :
  (forall w, P w -> P (f w)) -> preserves P (modify f).
Proof. intros Hf w H. now apply Hf. Qed.

Lemma preserves_bind {A B} (m : M A) (k : A -> M B) :
  preserves P m -> (forall a, preserves P (k a)) -> preserves P (bind m k).
Proof.
  intros Hm Hk w H. unfold bind. specialize (Hm w H).
  destruct (m w) as [[a|e|] w1]; simpl in *; auto. now apply Hk.
Qed.

Lemma preserves_try_except {A} (body : M A) (h : exc -> M A) :
  preserves P body -> (forall e, preserves P (h e)) ->
  preserves P (try_except body h).
Proof.
  intros Hb Hh w H. unfold try_except. specialize (Hb w H).
  destruct (body w) as [[a|e|] w1]; simpl in *; auto. now apply Hh.
Qed.

Lemma preserves_try_finally {A} (body : M A) (fin : M unit) :
  preserves P body -> preserves P fin -> preserves P (try_finally body fin).
Proof.
  intros Hb Hf w H. unfold try_finally. specialize (Hb w H).
  destruct (body w) as [[a|e|] w1]; simpl in *; auto;
    specialize (Hf w1 Hb); destruct (fin w1) as [[?|?|] w2]; simpl in *;
    auto.
Qed.

(** [P] does not depend on the fields a coroutine changes outside the
    database. *)
Hypothesis P_log : forall l w, P w -> P (set_log l w).
Hypothesis P_script : forall l w, P w -> P (set_script l w).
Hypothesis P_sems : forall l w, P w -> P (set_sems l w).
Hypothesis P_tasks : forall l w, P w -> P (set_all_tasks l w).
Hypothesis P_objs : forall l w, P w -> P (set_objs l w).
Hypothesis P_stacks : forall l w, P w -> P (set_stacks l w).
Hypothesis P_io : forall b w, P w -> P (set_io_pending b w).
Hypothesis P_sync : forall l w, P w -> P (set_sync l w).
Hypothesis P_flag : forall w, P w -> P (set_flag true w).

Lemma P_sem s v w : P w -> P (set_sem s v w).
Proof. intros H. unfold set_sem. now apply P_sems. Qed.

Lemma preserves_emit l msg ei : preserves P (emit l msg ei).
Proof.
  apply preserves_modify. intros w H. unfold add_record. now apply P_log.
Qed.

Lemma preserves_info self msg : preserves P (info self msg).
Proof. apply preserves_emit. Qed.

Lemma preserves_warning self msg : preserves P (warning self msg).
Proof. apply preserves_emit. Qed.

Lemma preserves_error_exc self msg e ei :
  preserves P (error_exc self msg e ei).
Proof. apply preserves_emit. Qed.

Lemma preserves_error_raise {A} self c msg :
  preserves P (@error_raise A self c msg).
Proof.
  apply preserves_bind; [apply preserves_emit|intros; apply preserves_raise].
Qed.

Lemma preserves_check_shutdown : preserves P check_shutdown.
Proof.
  intros w H. unfold check_shutdown. now destruct (shutdown_requested w).
Qed.

Lemma preserves_shutdown reason : preserves P (shutdown reason).
Proof.
  unfold shutdown.
  apply preserves_bind; [apply preserves_get|intros].
  apply preserves_bind; [apply preserves_warning|intros].
  apply preserves_modify. exact P_flag.
Qed.

Lemma preserves_apply_event e : preserves P (apply_event e).
Proof.
  destruct e; simpl.
  - apply preserves_ret.
  - apply preserves_shutdown.
  - apply preserves_raise.
  - apply preserves_modify. intros w H.
    destruct (sem_step (sem_of s w) e); [now apply P_sem|assumption].
  - apply preserves_modify. intros w H. now apply P_tasks.
  - apply preserves_modify. intros w H. now apply P_tasks.
  - apply preserves_modify. intros w H. now apply P_io.
Qed.

Lemma preserves_await_loop cond evs :
  forall timeout, preserves P (await_loop cond timeout evs).
Proof.
  induction evs as [|e r IH]; intros timeout w H; simpl.
  - destruct (cond w); simpl; [now apply P_script|].
    destruct timeout as [[|n]|]; simpl; now apply P_script.
  - destruct (cond w); simpl; [now apply P_script|].
    pose proof (preserves_apply_event e w H) as He.
    destruct timeout as [[|n]|]; simpl.
    + now apply P_script.
    + destruct (apply_event e w) as [[?|?|] w1] eqn:E; simpl in *.
      * now apply IH.
      * now apply P_script.
      * now apply P_script.
    + destruct (apply_event e w) as [[?|?|] w1] eqn:E; simpl in *.
      * now apply IH.
      * now apply P_script.
      * now apply P_script.
Qed.

Lemma preserves_await_until cond timeout :
  preserves P (await_until cond timeout).
Proof. intros w H. unfold await_until. now apply preserves_await_loop. Qed.

Lemma preserves_await_io : preserves P await_io.
Proof.
  intros w H. unfold await_io.
  pose proof (preserves_await_until (fun w => negb (io_pending w)) None
                (set_io_pending true w) (P_io _ _ H)) as G.
  destruct (await_until _ None _) as [[?|?|] w1]; simpl in *; auto.
Qed.

Lemma preserves_with_open {A} (body : M A) :
  preserves P body -> preserves P (with_open body).
Proof.
  intros Hb. unfold with_open.
  apply preserves_bind; [apply preserves_await_io|intros].
  apply preserves_try_finally; [assumption|apply preserves_await_io].
Qed.

Lemma preserves_read_loop content : preserves P (read_loop content).
Proof.
  induction content as [|l r IH]; simpl.
  - apply preserves_bind; [apply preserves_await_io|intros].
    apply preserves_ret.
  - apply preserves_bind; [apply preserves_await_io|intros].
    apply preserves_bind;
      [apply preserves_modify; intros; now apply P_sync|intros].
    apply preserves_bind; [apply preserves_check_shutdown|intros].
    exact IH.
Qed.

Lemma preserves_read_lines_file self : preserves P (read_lines_file self).
Proof.
  unfold read_lines_file.
  apply preserves_bind; [apply preserves_check_shutdown|intros].
  apply preserves_bind; [apply preserves_info|intros].
  apply preserves_bind;
    [apply preserves_modify; intros; now apply P_sync|intros].
  apply preserves_with_open, preserves_read_loop.
Qed.

Lemma preserves_read_lines self : preserves P (read_lines self).
Proof.
  unfold read_lines.
  apply preserves_bind; [apply preserves_read_lines_file|intros].
  apply preserves_bind; [apply preserves_get|intros nl].
  apply preserves_bind; [apply preserves_get|intros nk].
  apply preserves_bind; [|intros; apply preserves_info].
  destruct (negb (Nat.eqb nl nk)); [|apply preserves_ret].
  apply preserves_bind; [apply preserves_get|intros].
  apply preserves_error_raise.
Qed.

Lemma preserves_sem_acquire s : preserves P (sem_acquire s).
Proof.
  intros w H. unfold sem_acquire.
  destruct (acquire_call (current w) (sem_of s w)) as [[|] s'].
  - simpl. now apply P_sem.
  - pose proof (preserves_await_until
                  (fun w0 => has_result (current w) (sem_of s w0)) None
                  (set_sem s s' w) (P_sem _ _ _ H)) as G.
    destruct (await_until _ None _) as [[?|?|] w1]; simpl in *; auto;
      now apply P_sem.
Qed.

Lemma preserves_sem_release s : preserves P (sem_release s).
Proof. apply preserves_modify. intros w H. now apply P_sem. Qed.

Lemma preserves_AsyncExitStack : preserves P AsyncExitStack.
Proof. intros w H. simpl. now apply P_stacks. Qed.

Lemma preserves_get_obj self : preserves P (get_obj self).
Proof.
  intros w H. unfold get_obj. now destruct (nth_error (objs w) self).
Qed.

Lemma preserves_create_task o n : preserves P (create_task o n).
Proof. intros w H. simpl. now apply P_tasks. Qed.

Lemma preserves_Task_init n sem : preserves P (Task_init n sem).
Proof.
  unfold Task_init.
  apply preserves_bind; [apply preserves_AsyncExitStack|intros].
  intros w H. simpl. now apply P_objs.
Qed.

Lemma preserves_start self : preserves P (start self).
Proof.
  unfold start.
  apply preserves_bind; [apply preserves_get_obj|intros o].
  apply preserves_bind; [apply preserves_create_task|intros t].
  apply preserves_bind; [|intros; apply preserves_ret].
  apply preserves_modify. intros w H. now apply P_objs.
Qed.

Lemma preserves_wait self : preserves P (wait self).
Proof.
  unfold wait.
  apply preserves_bind; [apply preserves_get_obj|intros o].
  apply preserves_bind.
  - destruct (_task o); [apply preserves_ret|].
    apply preserves_bind; [apply preserves_start|intros].
    apply preserves_ret.
  - intros. apply preserves_bind; [apply preserves_get_obj|intros].
    apply preserves_ret.
Qed.

Lemma preserves_wait_all tasks : preserves P (wait_all tasks).
Proof.
  induction tasks as [|t r IH]; simpl; [apply preserves_ret|].
  apply preserves_bind; [apply preserves_wait|intros h].
  apply preserves_bind; [exact IH|intros]. apply preserves_ret.
Qed.

Lemma preserves_gather_loop re evs :
  forall g, preserves P (gather_loop re g evs).
Proof.
  induction evs as [|e r IH]; intros g w H; simpl.
  - destruct (outer g); simpl; now apply P_script.
  - destruct (outer g); simpl; try now apply P_script.
    pose proof (preserves_apply_event e w H) as He.
    destruct e; try (destruct (apply_event _ w) as [[?|?|] w1]; simpl in *;
                     [now apply IH|now apply P_script|now apply P_script]).
    apply IH. now apply P_tasks.
Qed.

Lemma preserves_asyncio_gather re futs : preserves P (asyncio_gather re futs).
Proof.
  intros w H. unfold asyncio_gather. destruct futs; [assumption|].
  now apply preserves_gather_loop.
Qed.

Lemma preserves_gather tasks re : preserves P (gather tasks re).
Proof.
  unfold gather.
  apply preserves_bind; [apply preserves_wait_all|intros].
  apply preserves_bind; [apply preserves_asyncio_gather|intros].
  apply preserves_ret.
Qed.

Lemma preserves_asyncio_wait tasks timeout :
  preserves P (asyncio_wait tasks timeout).
Proof.
  unfold asyncio_wait.
  apply preserves_bind; [apply preserves_await_until|intros].
  apply preserves_get.
Qed.

Lemma preserves_cleanup_round tasks : preserves P (cleanup_round tasks).
Proof.
  unfold cleanup_round.
  apply preserves_bind; [apply preserves_get|intros].
  apply preserves_bind; [apply preserves_get|intros].
  apply preserves_bind; [apply preserves_info|intros].
  apply preserves_bind;
    [apply preserves_modify; intros; now apply P_tasks|intros].
  apply preserves_bind; [apply preserves_asyncio_wait|intros].
  apply preserves_info.
Qed.

Lemma preserves_cleanup_loop_n fuel : preserves P (cleanup_loop_n fuel).
Proof.
  induction fuel as [|n IH]; simpl; [intros w H; exact H|].
  apply preserves_bind; [apply preserves_get|intros ts].
  destruct ts; [apply preserves_ret|].
  apply preserves_bind; [apply preserves_cleanup_round|intros]. exact IH.
Qed.

Lemma preserves_cleanup_loop : preserves P cleanup_loop.
Proof. intros w H. unfold cleanup_loop. now apply preserves_cleanup_loop_n. Qed.

Lemma preserves_sleep_or_shutdown n : preserves P (sleep_or_shutdown n).
Proof.
  unfold sleep_or_shutdown.
  apply preserves_bind; [apply preserves_get|intros b].
  destruct b; [apply preserves_ret|].
  apply preserves_bind.
  - apply preserves_try_except.
    + unfold wait_for_shutdown_requested.
      apply preserves_bind; [apply preserves_await_until|intros r].
      destruct r; [apply preserves_ret|apply preserves_raise].
    + intros e. destruct (isinstance e TimeoutError);
        [apply preserves_ret|apply preserves_raise].
  - intros. apply preserves_bind; [apply preserves_get|intros].
    apply preserves_ret.
Qed.

Lemma preserves_unwind_sems cs : sem_only cs -> preserves P (unwind cs).
Proof.
  induction 1 as [|c r Hc Hr IH]; simpl; [apply preserves_ret|].
  apply preserves_try_finally; [|exact IH].
  destruct c; [apply preserves_sem_release|contradiction].
Qed.

(** From here on [P] does not depend on the statements sent to the
    database either. *)
Hypothesis P_db : forall l w, P w -> P (set_db l w).

Lemma preserves_aenter c : preserves P (aenter c).
Proof.
  destruct c; simpl; [apply preserves_sem_acquire|].
  apply preserves_bind; [|intros; apply preserves_await_io].
  apply preserves_modify. intros w H. now apply P_db.
Qed.

Lemma preserves_aexit c : preserves P (aexit c).
Proof.
  destruct c; simpl; [apply preserves_sem_release|].
  apply preserves_modify. intros w H. now apply P_db.
Qed.

Lemma preserves_enter_async_context stack c :
  preserves P (enter_async_context stack c).
Proof.
  unfold enter_async_context.
  apply preserves_bind; [apply preserves_aenter|intros].
  apply preserves_modify. intros w H. now apply P_stacks.
Qed.

Lemma preserves_unwind cs : preserves P (unwind cs).
Proof.
  induction cs as [|c r IH]; simpl; [apply preserves_ret|].
  apply preserves_try_finally; [apply preserves_aexit|exact IH].
Qed.

Lemma preserves_stack_aexit stack : preserves P (stack_aexit stack).
Proof.
  unfold stack_aexit.
  apply preserves_bind; [apply preserves_get|intros cs].
  apply preserves_bind; [|intros; apply preserves_unwind].
  apply preserves_modify. intros w H. now apply P_stacks.
Qed.

Lemma preserves_async_with {A} stack (body : M A) :
  preserves P body -> preserves P (async_with stack body).
Proof.
  intros Hb. apply preserves_try_finally;
    [assumption|apply preserves_stack_aexit].
Qed.

Lemma preserves_db_conn stack : preserves P (db_conn stack).
Proof.
  unfold db_conn.
  apply preserves_bind; intros; apply preserves_enter_async_context.
Qed.

Lemma preserves_main_outer self main :
  preserves P main -> preserves P (_main_outer self main).
Proof.
  intros Hm. unfold _main_outer.
  apply preserves_bind; [apply preserves_get_obj|intros o].
  apply preserves_try_except.
  - unfold main_block. apply preserves_async_with.
    apply preserves_bind; [|intros; exact Hm].
    destruct (task_sem o);
      [apply preserves_enter_async_context|apply preserves_ret].
  - intros e.
    destruct (isinstance e CancelledError); [apply preserves_warning|].
    destruct (isinstance e Shutdown); [apply preserves_warning|].
    destruct (isinstance e Exception); [|apply preserves_raise].
    apply preserves_bind; [apply preserves_error_exc|intros].
    apply preserves_raise.
Qed.

Lemma preserves_store_loop self kb : preserves P (store_loop self kb).
Proof.
  induction kb as [|[k b] r IH]; simpl; [apply preserves_ret|].
  apply preserves_bind.
  - unfold conn_execute.
    apply preserves_bind; [|intros; apply preserves_await_io].
    apply preserves_modify. intros w H. now apply P_db.
  - intros. apply preserves_bind; [apply preserves_check_shutdown|intros].
    exact IH.
Qed.

Lemma preserves_store_lines self : preserves P (store_lines self).
Proof.
  unfold store_lines.
  apply preserves_bind; [apply preserves_check_shutdown|intros].
  apply preserves_bind; [apply preserves_get|intros nl].
  apply preserves_bind; [apply preserves_info|intros].
  apply preserves_bind; [apply preserves_AsyncExitStack|intros st].
  apply preserves_bind; [|intros; apply preserves_info].
  apply preserves_async_with.
  apply preserves_bind; [apply preserves_db_conn|intros].
  apply preserves_bind; [apply preserves_check_shutdown|intros].
  apply preserves_bind; [apply preserves_get|intros kb].
  apply preserves_bind; [apply preserves_store_loop|intros].
  unfold conn_commit.
  apply preserves_bind; [|intros; apply preserves_await_io].
  apply preserves_modify. intros w H. now apply P_db.
Qed.

Lemma preserves_SyncLangTask_run self : preserves P (SyncLangTask_run self).
Proof.
  unfold SyncLangTask_run. apply preserves_main_outer.
  unfold SyncLangTask_main.
  apply preserves_bind; [apply preserves_read_lines|intros].
  apply preserves_store_lines.
Qed.

Lemma preserves_read_keys_loop content : preserves P (read_keys_loop content).
Proof.
  induction content as [|l r IH]; simpl.
  - apply preserves_bind; [apply preserves_await_io|intros].
    apply preserves_ret.
  - apply preserves_bind; [apply preserves_await_io|intros].
    apply preserves_bind;
      [apply preserves_modify; intros; now apply P_sync|intros].
    apply preserves_bind; [apply preserves_check_shutdown|intros].
    exact IH.
Qed.

Lemma preserves_find_loop self es : preserves P (find_loop self es).
Proof.
  induction es as [|e r IH]; simpl; [apply preserves_ret|].
  apply preserves_bind; [|intros; exact IH].
  destruct (String.eqb _ _); [apply preserves_ret|].
  destruct (negb (LANG_PATTERN_fullmatch _)); [apply preserves_ret|].
  apply preserves_bind; [apply preserves_await_io|intros].
  destruct (negb (e_is_file e)); [apply preserves_ret|].
  apply preserves_bind; [apply preserves_check_shutdown|intros].
  apply preserves_bind; [apply preserves_Task_init|intros st].
  apply preserves_bind;
    [apply preserves_modify; intros; now apply P_sync|intros].
  apply preserves_bind; [apply preserves_start|intros].
  apply preserves_ret.
Qed.

Lemma preserves_SyncFolderTask_main self :
  preserves P (SyncFolderTask_main self).
Proof.
  unfold SyncFolderTask_main.
  apply preserves_bind; [apply preserves_info|intros].
  apply preserves_bind.
  { unfold read_keys.
    apply preserves_bind; [apply preserves_check_shutdown|intros].
    apply preserves_bind; [apply preserves_info|intros].
    apply preserves_bind;
      [apply preserves_modify; intros; now apply P_sync|intros].
    apply preserves_bind;
      [apply preserves_with_open, preserves_read_keys_loop|intros].
    apply preserves_bind; [apply preserves_get|intros].
    apply preserves_info. }
  intros. apply preserves_bind.
  { unfold find_languages.
    apply preserves_bind; [apply preserves_check_shutdown|intros].
    apply preserves_bind; [apply preserves_info|intros].
    apply preserves_bind; [apply preserves_await_io|intros].
    apply preserves_bind; [apply preserves_check_shutdown|intros].
    apply preserves_bind; [apply preserves_find_loop|intros].
    apply preserves_bind; [apply preserves_get|intros].
    apply preserves_info. }
  intros. apply preserves_bind; [apply preserves_get|intros].
  apply preserves_bind; [apply preserves_info|intros].
  apply preserves_bind; [apply preserves_check_shutdown|intros].
  apply preserves_bind; [apply preserves_get|intros].
  apply preserves_bind; [apply preserves_gather|intros].
  apply preserves_info.
Qed.

(** Every operation of the program keeps [P]. *)
Lemma perform_preserves o : forall w, P w -> P (perform w o).
Proof.
  intros w H. destruct o; simpl.
  - now apply preserves_shutdown.
  - now apply preserves_check_shutdown.
  - now apply preserves_sleep_or_shutdown.
  - now apply preserves_apply_event.
  - now apply preserves_SyncLangTask_run.
  - now apply preserves_main_outer; [apply preserves_SyncFolderTask_main|].
  - now apply preserves_gather.
  - now apply preserves_cleanup_loop.
Qed.

End Preservation.

(** ** The shutdown event *)

Lemma flag_kept_by_perform o w :
  shutdown_requested w = true -> shutdown_requested (perform w o) = true.
Proof.
  apply (perform_preserves (fun w => shutdown_requested w = true));
    intros; assumption || reflexivity.
Qed.

Lemma flag_kept_by_run ops : forall w,
  shutdown_requested w = true ->
  shutdown_requested (fold_left perform ops w) = true.
Proof.
  induction ops as [|o r IH]; intros w H; simpl; [exact H|].
  apply IH. now apply flag_kept_by_perform.
Qed.

(** C9: once [shutdown] was called, the flag is set after every further
    run of operations of the program (shutdown requests, checks, timed
    waits, events of the loop, language and folder tasks, gather, the
    drain loop), and a check made then raises [Shutdown]. *)
Theorem shutdown_flag_stays_set :
  forall (reason : string) (ops : list operation) (w : world),
    let w' := fold_left perform ops (snd (shutdown reason w)) in
    shutdown_requested w' = true
    /\ fst (check_shutdown w')
       = Raise {| exc_type := Shutdown; exc_str := "" |}.
Proof.
  intros reason ops w w'.
  assert (H : shutdown_requested w' = true).
  { apply flag_kept_by_run. reflexivity. }
  split; [exact H|]. unfold check_shutdown. now rewrite H.
Qed.

(** C5, as the code has it: every call of [shutdown] sets the flag and
    logs its reason, also when the flag is set already; a second call
    changes nothing but the log, which gets a second record.  The record
    is a warning with the name of the program and a text for the reason,
    which for a reason without characters outside ASCII is its [repr]. *)
Theorem shutdown_sets_flag_and_logs_every_call :
  forall (r1 r2 : string) (w : world),
    let w1 := snd (shutdown r1 w) in
    let w2 := snd (shutdown r2 w1) in
    shutdown_requested w1 = true
    /\ shutdown_requested w2 = true
    /\ (exists t1 t2,
          log w1 = (log w ++ [shutdown_record_of (base_name w) t1])%list
          /\ log w2 = (log w1 ++ [shutdown_record_of (base_name w) t2])%list
          /\ (ascii_only r1 = true -> t1 = repr r1)
          /\ (ascii_only r2 = true -> t2 = repr r2))
    /\ set_log (log w1) w2 = w1.
Proof.
  intros r1 r2 w. cbv zeta. split; [reflexivity|]. split; [reflexivity|].
  split; [|reflexivity].
  exists (repr r1), (repr r2). repeat split.
Qed.

(** C5 fails as stated: on a world where shutdown was requested, a second
    request logs again and so changes the state. *)
Lemma shutdown_second_call_logs_again :
  let w1 := snd (shutdown "loop SIGINT" (world0 "main" [])) in
  let w2 := snd (shutdown "loop SIGINT" w1) in
  shutdown_requested w1 = true
  /\ length (log w1) = 1 /\ length (log w2) = 2 /\ w2 <> w1.
Proof.
  cbv zeta. repeat split. intros H.
  apply (f_equal (fun w => length (log w))) in H. discriminate H.
Qed.

(** ** sleep_or_shutdown *)

(** What [sleep_or_shutdown] returns is the negation of the flag at its
    return. *)
Lemma sleep_or_shutdown_result sleep w b w' :
  sleep_or_shutdown sleep w = (Ok b, w') ->
  b = negb (shutdown_requested w').
Proof.
  unfold sleep_or_shutdown, bind, get, ret, try_except.
  destruct (shutdown_requested w) eqn:F.
  - intros H. injection H as <- <-. now rewrite F.
  - destruct (wait_for_shutdown_requested sleep w) as [[[]|e|] w1];
      try discriminate.
    + intros H. now injection H as <- <-.
    + destruct (isinstance e TimeoutError); simpl; [|discriminate].
      intros H. now injection H as <- <-.
Qed.

(** C4, the code at the failing inputs: with the flag set at entry, and
    with the flag set by a signal during the wait, [sleep_or_shutdown]
    returns [False]; when the time runs out with the flag unset it returns
    [True]. *)
Lemma sleep_or_shutdown_returns_negated_flag :
  fst (sleep_or_shutdown 5 (set_flag true (world0 "main" []))) = Ok false
  /\ fst (sleep_or_shutdown 5
            (world0 "main" [Tick; Signal "loop SIGINT"; Tick])) = Ok false
  /\ fst (sleep_or_shutdown 2 (world0 "main" [Tick; Tick; Tick])) = Ok true.
Proof. repeat split. Qed.

(** ** Capacity of the gates *)

(** C8: a semaphore created with [N] permits never has more than [N]
    holders, whatever tasks call, are resumed, are cancelled or release,
    in whatever order (not even when the permits handed to waiters that
    did not run yet are counted as held); with [N] holders a call of
    [acquire] does not return but queues the caller on a pending future;
    and the three gates of the program are created with 8 permits. *)
Theorem semaphore_holders_bounded :
  forall (N : Z) (es : list sem_event) (s : Semaphore),
    (0 <= N)%Z ->
    sem_run (Semaphore_new N) es = Some s ->
    (Z.of_nat (held s) <= N)%Z
    /\ (Z.of_nat (held s + granted s) <= N)%Z
    /\ (Z.of_nat (held s) = N ->
        forall t, acquire_call t s
                  = (false, {| _value := _value s;
                               _waiters := _waiters s ++ [(t, FPending)];
                               holders := holders s |}))
    /\ (forall g bname evs,
          sem_of g (world0 bname evs) = Semaphore_new 8).
Proof.
  intros N es s HN Hrun.
  assert (I : sem_inv N s).
  { eapply sem_run_inv; [|exact Hrun]. now apply Semaphore_new_inv. }
  destruct I as [H0 Hs]. split; [lia|]. split; [lia|]. split.
  - intros Hfull t. unfold acquire_call, locked.
    assert (V : _value s = 0%Z) by lia. rewrite V. reflexivity.
  - intros g bname evs. now destruct g.
Qed.

Lemma semaphore_holders_bounded_witness :
  (Z.of_nat (held full_sem) <= 8)%Z
  /\ (Z.of_nat (held full_sem + granted full_sem) <= 8)%Z
  /\ (Z.of_nat (held full_sem) = 8%Z ->
      forall t, acquire_call t full_sem
                = (false, {| _value := _value full_sem;
                             _waiters := _waiters full_sem ++ [(t, FPending)];
                             holders := holders full_sem |}))
  /\ (forall g bname evs, sem_of g (world0 bname evs) = Semaphore_new 8).
Proof.
  apply (semaphore_holders_bounded 8 (map CallAcquire (seq 1 8)) full_sem).
  - lia.
  - reflexivity.
Defined.

(** ** The execution wrapper *)

(** C6, as the code has it: [_main_outer] turns the end of its block into
    exactly one of these: a normal return is passed on and nothing is
    logged; [CancelledError] and [Shutdown] are logged as warnings and
    swallowed; any other [Exception] is logged as an error with a text
    for the task's name (its [repr], for a name without characters
    outside ASCII), the exception's class and text, and raised again; an
    exception outside [Exception] is raised again without a record. *)
Theorem main_outer_classifies :
  forall (self : nat) (o : Task) (main : M unit) (w : world),
    nth_error (objs w) self = Some o ->
    match main_block o main w with
    | (Ok _, w1) => _main_outer self main w = (Ok tt, w1)
    | (Raise e, w1) =>
        if isinstance e CancelledError
        then _main_outer self main w
             = (Ok tt, add_record (cancelled_record (name o)) w1)
        else if isinstance e Shutdown
        then _main_outer self main w
             = (Ok tt, add_record (aborted_record (name o)) w1)
        else if isinstance e Exception
        then exists text,
               _main_outer self main w
               = (Raise e, add_record (failed_record_of text e) w1)
               /\ (ascii_only (name o) = true -> text = repr (name o))
        else _main_outer self main w = (Raise e, w1)
    | (Blocked, w1) => _main_outer self main w = (Blocked, w1)
    end.
Proof.
  intros self o main w Ho.
  unfold _main_outer, bind, get_obj, try_except. rewrite Ho.
  destruct (main_block o main w) as [[[]|e|] w1]; try reflexivity.
  destruct (isinstance e CancelledError) eqn:C; [reflexivity|].
  destruct (isinstance e Shutdown) eqn:S; [reflexivity|].
  destruct (isinstance e Exception) eqn:X; [|reflexivity].
  assert (B : isinstance e BaseException = true).
  { unfold isinstance. now destruct (exc_type e). }
  exists (repr (name o)). split; [|reflexivity].
  unfold error_exc, emit, modify, raise, failed_record_of. rewrite B.
  reflexivity.
Qed.

(** A task without semaphore whose body raises [RuntimeError]. *)
Lemma main_outer_classifies_witness :
  exists text,
    _main_outer 0 (raise {| exc_type := RuntimeError; exc_str := "boom" |})
                (snd (Task_init "folder/en" None (world0 "main" [])))
    = (Raise {| exc_type := RuntimeError; exc_str := "boom" |},
       add_record
         (failed_record_of text
            {| exc_type := RuntimeError; exc_str := "boom" |})
         (snd (Task_init "folder/en" None (world0 "main" []))))
    /\ (ascii_only "folder/en" = true -> text = repr "folder/en").
Proof.
  exact (main_outer_classifies 0
           {| name := "folder/en"; _task := None; task_sem := None;
              _stack := 0 |}
           (raise {| exc_type := RuntimeError; exc_str := "boom" |})
           (snd (Task_init "folder/en" None (world0 "main" [])))
           eq_refl).
Defined.

(** C6 fails as stated: a body that raises [KeyboardInterrupt], which is
    neither a cancellation nor [Shutdown], ends the wrapper with that
    exception and without any record in the log. *)
Lemma main_outer_keyboard_interrupt_not_logged :
  let w := snd (Task_init "folder/en" None (world0 "main" [])) in
  let e := {| exc_type := KeyboardInterrupt; exc_str := "" |} in
  isinstance e CancelledError = false
  /\ isinstance e Shutdown = false
  /\ fst (_main_outer 0 (raise e) w) = Raise e
  /\ log (snd (_main_outer 0 (raise e) w)) = [].
Proof. repeat split. Qed.

(** ** start and wait *)

Lemma nth_error_list_set_eq {A} (l : list A) : forall i x,
  i < length l -> nth_error (list_set i x l) i = Some x.
Proof.
  induction l as [|a r IH]; intros i x H; simpl in *; [lia|].
  destruct i; simpl; [reflexivity|]. apply IH. lia.
Qed.

Lemma nth_error_list_set_ne {A} (l : list A) : forall i j x,
  i <> j -> nth_error (list_set i x l) j = nth_error l j.
Proof.
  induction l as [|a r IH]; intros i j x H; simpl; [reflexivity|].
  destruct i, j; simpl; try reflexivity; [congruence|].
  apply IH. congruence.
Qed.

Lemma length_list_set {A} (l : list A) : forall i x,
  length (list_set i x l) = length l.
Proof.
  induction l as [|a r IH]; intros i x; simpl; [reflexivity|].
  destruct i; simpl; [reflexivity|]. now rewrite IH.
Qed.

(** What one call of [start] does. *)
Lemma start_spec self o w :
  nth_error (objs w) self = Some o ->
  start self w
  = (Ok (length (all_tasks w)),
     set_objs (list_set self {| name := name o;
                                _task := Some (length (all_tasks w));
                                task_sem := task_sem o;
                                _stack := _stack o |} (objs w))
       (set_all_tasks (all_tasks w ++ [{| t_name := name o;
                                          t_obj := Some self;
                                          t_state := Pending;
                                          t_cancels := 0 |}]) w)).
Proof.
  intros H. unfold start, bind, get_obj, create_task, modify, ret.
  rewrite H. reflexivity.
Qed.

(** C2, as the code has it: every call of [start] schedules one more
    execution of the body, as a new pending task of the loop, and stores
    and returns the new handle; it is [wait] that starts the task only
    when no handle is stored, and otherwise returns the stored handle and
    schedules nothing. *)
Theorem start_schedules_every_time :
  forall (self : nat) (o : Task) (w : world),
    nth_error (objs w) self = Some o ->
    let h := length (all_tasks w) in
    let w' := snd (start self w) in
    fst (start self w) = Ok h
    /\ executions self w' = S (executions self w)
    /\ state_of (all_tasks w') h = Pending
    /\ option_map _task (nth_error (objs w') self) = Some (Some h)
    /\ (forall h0, _task o = Some h0 -> wait self w = (Ok (Some h0), w))
    /\ (_task o = None -> wait self w = (Ok (Some h), w')).
Proof.
  intros self o w Ho h w'.
  assert (Hlt : self < length (objs w)).
  { apply nth_error_Some. congruence. }
  unfold w'. rewrite (start_spec self o w Ho). cbn [fst snd].
  split; [reflexivity|]. split.
  { unfold executions. cbn [all_tasks set_objs set_all_tasks].
    rewrite filter_app, length_app. simpl. rewrite Nat.eqb_refl. simpl. lia. }
  split.
  { unfold state_of. cbn [all_tasks set_objs set_all_tasks].
    rewrite nth_error_app2 by (unfold h; lia).
    unfold h. now rewrite Nat.sub_diag. }
  split.
  { cbn [objs set_objs set_all_tasks].
    rewrite nth_error_list_set_eq by assumption. reflexivity. }
  split.
  - intros h0 Hh. unfold wait, bind, get_obj, ret. rewrite Ho, Hh.
    rewrite Ho. now rewrite Hh.
  - intros Hn. unfold wait, bind, ret. unfold get_obj at 1. rewrite Ho, Hn.
    rewrite (start_spec self o w Ho). unfold get_obj.
    cbn [objs set_objs set_all_tasks].
    rewrite nth_error_list_set_eq by assumption. reflexivity.
Qed.

Lemma start_schedules_every_time_witness :
  let w := snd (Task_init "folder/en" (Some SyncLangTask_SEM)
                  (world0 "main" [])) in
  fst (start 0 w) = Ok 1
  /\ executions 0 (snd (start 0 w)) = S (executions 0 w)
  /\ state_of (all_tasks (snd (start 0 w))) 1 = Pending
  /\ option_map _task (nth_error (objs (snd (start 0 w))) 0) = Some (Some 1)
  /\ (forall h0 : tid, None = Some h0 -> wait 0 w = (Ok (Some h0), w))
  /\ (@None tid = None -> wait 0 w = (Ok (Some 1), snd (start 0 w))).
Proof.
  exact (start_schedules_every_time 0
           {| name := "folder/en"; _task := None;
              task_sem := Some SyncLangTask_SEM; _stack := 0 |}
           (snd (Task_init "folder/en" (Some SyncLangTask_SEM)
                   (world0 "main" [])))
           eq_refl).
Defined.

(** C2 fails as stated: two calls of [start] on one task return two
    different handles and leave two pending executions of its body. *)
Lemma start_twice_schedules_twice :
  let w := snd (Task_init "folder/en" (Some SyncLangTask_SEM)
                  (world0 "main" [])) in
  let w1 := snd (start 0 w) in
  let w2 := snd (start 0 w1) in
  fst (start 0 w) = Ok 1
  /\ fst (start 0 w1) = Ok 2
  /\ executions 0 w2 = 2
  /\ state_of (all_tasks w2) 1 = Pending
  /\ state_of (all_tasks w2) 2 = Pending.
Proof. repeat split. Qed.

(** ** The language task *)

Lemma await_io_keeps {A} (f : world -> A) :
  (forall l w, f (set_log l w) = f w) ->
  (forall l w, f (set_script l w) = f w) ->
  (forall l w, f (set_sems l w) = f w) ->
  (forall l w, f (set_all_tasks l w) = f w) ->
  (forall b w, f (set_io_pending b w) = f w) ->
  (forall b w, f (set_flag b w) = f w) ->
  forall w, f (snd (await_io w)) = f w.
Proof.
  intros H1 H2 H3 H4 H5 H6 w.
  apply (preserves_await_io (fun w' => f w' = f w)); intros;
    try congruence.
Qed.

Lemma check_shutdown_ok w w1 :
  check_shutdown w = (Ok tt, w1) -> w1 = w /\ shutdown_requested w = false.
Proof.
  unfold check_shutdown. destruct (shutdown_requested w); [discriminate|].
  intros H. now injection H as <-.
Qed.

(** When the loop over the file ends normally, every line of the file was
    appended, stripped, and the keys are as before. *)
Lemma read_loop_ok content : forall w w1,
  read_loop content w = (Ok tt, w1) ->
  lines (sync w1) = (lines (sync w) ++ map strip content)%list
  /\ keys (sync w1) = keys (sync w).
Proof.
  induction content as [|l r IH]; intros w w1 H; simpl in H;
    unfold bind in H.
  - pose proof (await_io_keeps sync) as K.
    specialize (K ltac:(reflexivity) ltac:(reflexivity) ltac:(reflexivity)
                  ltac:(reflexivity) ltac:(reflexivity) ltac:(reflexivity) w).
    destruct (await_io w) as [[[]|e|] w2]; try discriminate.
    injection H as <-. simpl in K. rewrite K, app_nil_r. auto.
  - pose proof (await_io_keeps sync) as K.
    specialize (K ltac:(reflexivity) ltac:(reflexivity) ltac:(reflexivity)
                  ltac:(reflexivity) ltac:(reflexivity) ltac:(reflexivity) w).
    destruct (await_io w) as [[[]|e|] w2]; try discriminate.
    simpl in K. unfold modify in H.
    destruct (check_shutdown _) as [[[]|e|] w3] eqn:C; try discriminate.
    apply check_shutdown_ok in C as [-> _].
    apply IH in H as [H1 H2]. rewrite H1, H2. simpl. rewrite K.
    rewrite <- app_assoc. auto.
Qed.

Lemma with_open_ok {A} (body : M A) w a w1 :
  with_open body w = (Ok a, w1) ->
  exists w2 w3, await_io w = (Ok tt, w2) /\ body w2 = (Ok a, w3)
                /\ await_io w3 = (Ok tt, w1).
Proof.
  unfold with_open, bind, try_finally.
  destruct (await_io w) as [[[]|e|] w2] eqn:E1; try discriminate.
  destruct (body w2) as [[b|e|] w3] eqn:E2; try discriminate;
    destruct (await_io w3) as [[[]|e'|] w4] eqn:E3; try discriminate.
  intros H. injection H as <- <-. exists w2, w3. auto.
Qed.

Lemma read_lines_file_ok self w w1 :
  read_lines_file self w = (Ok tt, w1) ->
  lines (sync w1) = map strip (lang_file_lines self)
  /\ keys (sync w1) = keys (sync w).
Proof.
  unfold read_lines_file, bind.
  destruct (check_shutdown w) as [[[]|e|] w0] eqn:C; try discriminate.
  apply check_shutdown_ok in C as [-> _].
  unfold info, emit, modify. intros H.
  apply with_open_ok in H as (w2 & w3 & H2 & H3 & H4).
  pose proof (await_io_keeps sync) as K.
  pose proof (K ltac:(reflexivity) ltac:(reflexivity) ltac:(reflexivity)
                ltac:(reflexivity) ltac:(reflexivity) ltac:(reflexivity)) as K'.
  apply read_loop_ok in H3 as [L1 L2].
  pose proof (K' w3) as K3. rewrite H4 in K3. simpl in K3.
  pose proof (K' (set_lines [] (add_record
      {| levelname := INFO;
         message := "[" ++ lt_name self ++ "] " ++
                    ("Reading lines from " ++ dq ++ lang_file self ++ dq
                     ++ "...");
         exc_info := false |} w))) as K2.
  rewrite H2 in K2. simpl in K2.
  rewrite K3, L1, L2, K2. simpl. auto.
Qed.

Lemma db_kept_by_read_lines self w :
  db (snd (read_lines self w)) = db w.
Proof.
  apply (preserves_read_lines (fun w' => db w' = db w)); intros;
    assumption || reflexivity.
Qed.

(** After the file was read to its end with a number of lines different
    from the number of keys, [read_lines] logs the error and raises. *)
Lemma read_lines_mismatch self w w1 :
  read_lines_file self w = (Ok tt, w1) ->
  length (lang_file_lines self) <> length (keys (sync w)) ->
  read_lines self w
  = (Raise {| exc_type := RuntimeError;
              exc_str := mismatch_message (length (lang_file_lines self))
                                          (length (keys (sync w))) |},
     add_record
       {| levelname := ERROR;
          message := "[" ++ repr (base_name w1) ++ "] "
                     ++ mismatch_message (length (lang_file_lines self))
                                         (length (keys (sync w)));
          exc_info := false |} w1).
Proof.
  intros Hfile Hne.
  destruct (read_lines_file_ok self w w1 Hfile) as [L K].
  unfold read_lines, bind. rewrite Hfile. unfold get at 1 2.
  rewrite L, K, length_map.
  apply Nat.eqb_neq in Hne. rewrite Hne. reflexivity.
Qed.

(** C10: when the file was read to its end and gave a number of lines
    different from the number of keys, [read_lines] logs the mismatch as
    an error and raises [RuntimeError]; [main] ends with that very result,
    so [store_lines] does not run, and nothing was sent to the database. *)
Theorem read_lines_mismatch_raises_before_store :
  forall (self : SyncLangTask) (w w1 : world),
    read_lines_file self w = (Ok tt, w1) ->
    length (lang_file_lines self) <> length (keys (sync w)) ->
    let msg := mismatch_message (length (lang_file_lines self))
                                (length (keys (sync w))) in
    let e := {| exc_type := RuntimeError; exc_str := msg |} in
    let w' := add_record {| levelname := ERROR;
                            message := "[" ++ repr (base_name w1) ++ "] "
                                       ++ msg;
                            exc_info := false |} w1 in
    read_lines self w = (Raise e, w')
    /\ SyncLangTask_main self w = (Raise e, w')
    /\ db w' = db w.
Proof.
  intros self w w1 Hfile Hne msg e w'.
  pose proof (read_lines_mismatch self w w1 Hfile Hne) as R.
  fold msg in R. fold e in R. fold w' in R.
  split; [exact R|]. split.
  - unfold SyncLangTask_main, bind. now rewrite R.
  - pose proof (db_kept_by_read_lines self w) as D. now rewrite R in D.
Qed.

Lemma read_lines_mismatch_raises_before_store_witness :
  let w := set_keys ["greeting"; "farewell"] (world0 "sync_t9ns" []) in
  let w1 := snd (read_lines_file lang_en w) in
  let msg := mismatch_message 1 2 in
  let e := {| exc_type := RuntimeError; exc_str := msg |} in
  let w' := add_record {| levelname := ERROR;
                          message := "[" ++ repr "sync_t9ns" ++ "] " ++ msg;
                          exc_info := false |} w1 in
  read_lines lang_en w = (Raise e, w')
  /\ SyncLangTask_main lang_en w = (Raise e, w')
  /\ db w' = [].
Proof.
  apply (read_lines_mismatch_raises_before_store lang_en
           (set_keys ["greeting"; "farewell"] (world0 "sync_t9ns" []))
           (snd (read_lines_file lang_en
                   (set_keys ["greeting"; "farewell"]
                      (world0 "sync_t9ns" []))))).
  - vm_compute. reflexivity.
  - simpl. lia.
Defined.

(** With a mismatch [read_lines] never returns normally. *)
Lemma read_lines_mismatch_not_ok self w :
  length (lang_file_lines self) <> length (keys (sync w)) ->
  forall a, fst (read_lines self w) <> Ok a.
Proof.
  intros Hne a. destruct (read_lines_file self w) as [[[]|x|] w1] eqn:F.
  - rewrite (read_lines_mismatch self w w1 F Hne). discriminate.
  - unfold read_lines, bind. rewrite F. discriminate.
  - unfold read_lines, bind. rewrite F. discriminate.
Qed.

(** Whatever happens while the file is read (shutdown, cancellation), the
    [main] of a language task whose file has a number of lines different
    from the number of keys ends as its [read_lines] ends, not normally,
    and sends nothing to the database. *)
Lemma main_mismatch_never_stores self w :
  length (lang_file_lines self) <> length (keys (sync w)) ->
  SyncLangTask_main self w = read_lines self w
  /\ (forall a, fst (SyncLangTask_main self w) <> Ok a)
  /\ db (snd (SyncLangTask_main self w)) = db w.
Proof.
  intros Hne.
  pose proof (db_kept_by_read_lines self w) as D.
  pose proof (read_lines_mismatch_not_ok self w Hne) as R.
  assert (E : SyncLangTask_main self w = read_lines self w).
  { unfold SyncLangTask_main, bind.
    destruct (read_lines self w) as [[a|x|] w1]; simpl in *;
      [now destruct (R a)|reflexivity|reflexivity]. }
  rewrite E. auto.
Qed.

(** ** Waiting for a permit while shutdown is requested *)

Ltac flag_worlds :=
  match goal with
  | H : eq_but_flag ?a ?b |- _ =>
      destruct a, b; unfold eq_but_flag, set_flag in H; simpl in H;
      injection H as; subst
  end.

Lemma eq_but_flag_script evs w1 w2 :
  eq_but_flag w1 w2 -> eq_but_flag (set_script evs w1) (set_script evs w2).
Proof. intros H. flag_worlds. reflexivity. Qed.

Lemma apply_event_flag e w1 w2 :
  eq_but_flag w1 w2 ->
  fst (apply_event e w1) = fst (apply_event e w2)
  /\ eq_but_flag (snd (apply_event e w1)) (snd (apply_event e w2)).
Proof.
  intros H. flag_worlds. destruct e; simpl; try (split; reflexivity).
  unfold modify, sem_of, set_sem; simpl.
  destruct s; simpl; destruct (sem_step _ e); split; reflexivity.
Qed.

Lemma await_loop_flag cond evs :
  (forall a b, eq_but_flag a b -> cond a = cond b) ->
  forall timeout w1 w2,
    eq_but_flag w1 w2 ->
    fst (await_loop cond timeout evs w1) = fst (await_loop cond timeout evs w2)
    /\ eq_but_flag (snd (await_loop cond timeout evs w1))
                   (snd (await_loop cond timeout evs w2)).
Proof.
  intros Hc. induction evs as [|e r IH]; intros timeout w1 w2 H; simpl;
    rewrite (Hc w1 w2 H); destruct (cond w2).
  - split; [reflexivity|now apply eq_but_flag_script].
  - destruct timeout as [[|n]|]; simpl;
      (split; [reflexivity|now apply eq_but_flag_script]).
  - split; [reflexivity|now apply eq_but_flag_script].
  - destruct (apply_event_flag e w1 w2 H) as [F W].
    assert (G : forall t,
      fst (match apply_event e w1 with
           | (Ok _, w') => await_loop cond t r w'
           | (Raise x, w') => (Raise x, set_script r w')
           | (Blocked, w') => (Blocked, set_script r w')
           end)
      = fst (match apply_event e w2 with
             | (Ok _, w') => await_loop cond t r w'
             | (Raise x, w') => (Raise x, set_script r w')
             | (Blocked, w') => (Blocked, set_script r w')
             end)
      /\ eq_but_flag
           (snd (match apply_event e w1 with
                 | (Ok _, w') => await_loop cond t r w'
                 | (Raise x, w') => (Raise x, set_script r w')
                 | (Blocked, w') => (Blocked, set_script r w')
                 end))
           (snd (match apply_event e w2 with
                 | (Ok _, w') => await_loop cond t r w'
                 | (Raise x, w') => (Raise x, set_script r w')
                 | (Blocked, w') => (Blocked, set_script r w')
                 end))).
    { intros t.
      destruct (apply_event e w1) as [[[]|x|] a];
        destruct (apply_event e w2) as [[[]|y|] b]; simpl in *;
        try discriminate.
      - now apply IH.
      - injection F as <-. split; [reflexivity|now apply eq_but_flag_script].
      - split; [reflexivity|now apply eq_but_flag_script]. }
    destruct timeout as [[|n]|].
    + split; [reflexivity|now apply eq_but_flag_script].
    + apply G.
    + apply G.
Qed.

Lemma eq_but_flag_fields w1 w2 :
  eq_but_flag w1 w2 -> sems w1 = sems w2 /\ current w1 = current w2.
Proof. intros H. flag_worlds. split; reflexivity. Qed.

Lemma eq_but_flag_set_sem s v w1 w2 :
  eq_but_flag w1 w2 -> eq_but_flag (set_sem s v w1) (set_sem s v w2).
Proof. intros H. flag_worlds. destruct s; reflexivity. Qed.

Lemma sem_of_flag s w1 w2 :
  eq_but_flag w1 w2 -> sem_of s w1 = sem_of s w2.
Proof. intros H. flag_worlds. destruct s; reflexivity. Qed.

(** The acquisition does not look at the flag. *)
Lemma sem_acquire_flag s w1 w2 :
  eq_but_flag w1 w2 ->
  fst (sem_acquire s w1) = fst (sem_acquire s w2)
  /\ eq_but_flag (snd (sem_acquire s w1)) (snd (sem_acquire s w2)).
Proof.
  intros H. unfold sem_acquire.
  destruct (eq_but_flag_fields _ _ H) as [_ Hc].
  rewrite (sem_of_flag s w1 w2 H), Hc.
  destruct (acquire_call (current w2) (sem_of s w2)) as [[|] s'].
  - split; [reflexivity|now apply eq_but_flag_set_sem].
  - unfold await_until.
    assert (Hs : script (set_sem s s' w1) = script (set_sem s s' w2)).
    { flag_worlds. reflexivity. }
    rewrite Hs.
    destruct (await_loop_flag
                (fun w0 => has_result (current w2) (sem_of s w0))
                (script (set_sem s s' w2))
                (fun a b E => f_equal _ (sem_of_flag s a b E))
                None (set_sem s s' w1) (set_sem s s' w2)
                (eq_but_flag_set_sem s s' w1 w2 H)) as [F W].
    destruct (await_loop _ None _ (set_sem s s' w1)) as [[?|x|] a];
      destruct (await_loop _ None _ (set_sem s s' w2)) as [[?|y|] b];
      simpl in *; try discriminate.
    + rewrite (sem_of_flag s a b W).
      split; [reflexivity|now apply eq_but_flag_set_sem].
    + injection F as <-. rewrite (sem_of_flag s a b W).
      split; [reflexivity|now apply eq_but_flag_set_sem].
    + split; [reflexivity|assumption].
Qed.

Lemma apply_event_raises e w x w' :
  apply_event e w = (Raise x, w') -> x = cancelled_error.
Proof.
  destruct e; simpl; unfold ret, raise, modify, shutdown, bind, get, warning,
    emit, modify; try discriminate.
  intros H. now injection H as <- _.
Qed.

Lemma await_loop_raises cond evs : forall timeout w x w',
  await_loop cond timeout evs w = (Raise x, w') -> x = cancelled_error.
Proof.
  induction evs as [|e r IH]; intros timeout w x w'; simpl;
    destruct (cond w); try discriminate.
  - destruct timeout as [[|n]|]; discriminate.
  - destruct timeout as [[|n]|]; try discriminate;
      destruct (apply_event e w) as [[[]|y|] w1] eqn:E; try discriminate;
      try (now apply IH);
      intros H; injection H as <- _; now apply apply_event_raises in E.
Qed.

Lemma await_io_raises w x w' :
  await_io w = (Raise x, w') -> x = cancelled_error.
Proof.
  unfold await_io, await_until.
  destruct (await_loop _ None _ _) as [[?|y|] w1] eqn:E; try discriminate.
  intros H. injection H as <- _. now apply await_loop_raises in E.
Qed.

Lemma sem_of_set_sem s v w : sem_of s (set_sem s v w) = v.
Proof. now destruct s. Qed.

(** How an acquisition ends: with the permit, or with the
    [CancelledError] thrown into the wait. *)
Lemma sem_acquire_ends s w :
  match sem_acquire s w with
  | (Ok _, w') => In (current w) (holders (sem_of s w'))
  | (Raise e, _) => e = cancelled_error
  | (Blocked, _) => True
  end.
Proof.
  unfold sem_acquire, acquire_call.
  destruct (negb (locked (sem_of s w))).
  - rewrite sem_of_set_sem. simpl. auto.
  - unfold await_until.
    destruct (await_loop _ None _ _) as [[?|y|] w1] eqn:E; [| |exact I].
    + rewrite sem_of_set_sem. unfold acquire_resume. cbv zeta.
      destruct (0 <? _)%Z; [unfold _wake_up_next|]; simpl;
        [destruct (wake_first _)|]; simpl; auto.
    + now apply await_loop_raises in E.
Qed.

(** C3, as the code has it: taking a permit does not look at the shutdown
    flag.  Whether the flag is set or not, the acquisition ends the same
    way and leaves the semaphores the same; it ends with the permit (the
    task is a holder) or with the [CancelledError] of a cancellation,
    never with [Shutdown]; the same holds for [db_conn]. *)
Theorem acquire_ignores_shutdown :
  forall (s : sem_id) (stack : nat) (w : world),
    (forall b,
        fst (sem_acquire s (set_flag b w)) = fst (sem_acquire s w)
        /\ sems (snd (sem_acquire s (set_flag b w)))
           = sems (snd (sem_acquire s w)))
    /\ match sem_acquire s w with
       | (Ok _, w') => In (current w) (holders (sem_of s w'))
       | (Raise e, _) => e = cancelled_error
       | (Blocked, _) => True
       end
    /\ match db_conn stack w with
       | (Raise e, _) => e = cancelled_error
       | _ => True
       end.
Proof.
  intros s stack w. split; [|split].
  - intros b.
    destruct (sem_acquire_flag s (set_flag b w) w eq_refl) as [F W].
    split; [exact F|]. now apply eq_but_flag_fields in W.
  - apply sem_acquire_ends.
  - unfold db_conn, enter_async_context. cbn [aenter]. unfold bind, modify.
    pose proof (sem_acquire_ends db_sem w) as A.
    destruct (sem_acquire db_sem w) as [[[]|x|] w1]; auto.
    match goal with
    | |- context [await_io ?a] =>
        destruct (await_io a) as [[[]|x|] w2] eqn:E
    end; auto.
    now apply await_io_raises in E.
Qed.

(** C3 fails as stated: all 8 permits of [db_sem] are taken, the task
    calls [db_conn] and has to wait; shutdown is requested while it
    waits; then a holder releases.  The task gets the permit and the
    connection, and [db_conn] returns normally. *)
Lemma db_conn_waiter_gets_permit_after_shutdown :
  let w0 := set_sem db_sem full_sem
              (world0 "main" [Signal "loop SIGINT";
                              SemEvent db_sem (Release 1); IoDone]) in
  let w := snd (AsyncExitStack w0) in
  fst (acquire_call (current w) (sem_of db_sem w)) = false
  /\ shutdown_requested w = false
  /\ fst (db_conn 0 w) = Ok tt
  /\ shutdown_requested (snd (db_conn 0 w)) = true
  /\ existsb (Nat.eqb (current w))
             (holders (sem_of db_sem (snd (db_conn 0 w)))) = true
  /\ existsb (Nat.eqb (current w)) (holders (sem_of db_sem w)) = false.
Proof. vm_compute. repeat split. Qed.

(** ** The wait of the loop, in general *)

(** A property of the world that every event and every change of the
    script keeps, is kept by a wait. *)
Lemma await_loop_inv (Q : world -> Prop) :
  (forall e w, Q w -> Q (snd (apply_event e w))) ->
  (forall l w, Q w -> Q (set_script l w)) ->
  forall cond evs timeout w, Q w -> Q (snd (await_loop cond timeout evs w)).
Proof.
  intros He Hs cond evs.
  induction evs as [|e r IH]; intros timeout w H; simpl;
    destruct (cond w); simpl; auto.
  - destruct timeout as [[|n]|]; simpl; auto.
  - specialize (He e w H).
    destruct timeout as [[|n]|]; simpl; auto;
      destruct (apply_event e w) as [[?|?|] w1]; simpl in *; auto.
Qed.

(** A wait uses up a prefix of the script, with no more [Tick]s than its
    limit allows. *)
Lemma await_loop_used cond evs : forall timeout w,
  exists used,
    evs = (used ++ script (snd (await_loop cond timeout evs w)))%list
    /\ match timeout with
       | Some n => ticks used <= n
       | None => True
       end.
Proof.
  induction evs as [|e r IH]; intros timeout w; simpl.
  - exists []. destruct (cond w); simpl.
    + split; [reflexivity|destruct timeout; [apply Nat.le_0_l|exact I]].
    + destruct timeout as [[|n]|]; simpl;
        (split; [reflexivity|try apply Nat.le_0_l; exact I]).
  - destruct (cond w); simpl.
    { exists []. split; [reflexivity|].
      destruct timeout; [apply Nat.le_0_l|exact I]. }
    destruct timeout as [[|n]|]; simpl.
    + exists []. split; [reflexivity|apply Nat.le_0_l].
    + destruct (apply_event e w) as [[?|?|] w1] eqn:E; simpl.
      * destruct e; simpl;
          match goal with
          | |- context [await_loop cond ?t r w1] =>
              destruct (IH t w1) as (used & U & T)
          end;
          match goal with
          | |- exists u, ?e :: _ = _ /\ _ =>
              exists (e :: used); split; [simpl; now rewrite <- U|];
              unfold ticks in *; simpl in *; lia
          end.
      * exists [e]. split; [reflexivity|].
        destruct e; try discriminate; unfold ticks; simpl; lia.
      * exists [e]. split; [reflexivity|].
        destruct e; try discriminate; unfold ticks; simpl; lia.
    + destruct (apply_event e w) as [[?|?|] w1] eqn:E; simpl.
      * destruct e; simpl;
          match goal with
          | |- context [await_loop cond ?t r w1] =>
              destruct (IH t w1) as (used & U & T)
          end;
          match goal with
          | |- exists u, ?e :: _ = _ /\ _ =>
              exists (e :: used); split; [simpl; now rewrite <- U|exact I]
          end.
      * exists [e]. split; [reflexivity|exact I].
      * exists [e]. split; [reflexivity|exact I].
Qed.

Lemma nth_error_list_set {A} (l : list A) i j x :
  nth_error (list_set i x l) j
  = if Nat.eqb i j then (if Nat.ltb j (length l) then Some x else None)
    else nth_error l j.
Proof.
  destruct (Nat.eqb_spec i j) as [->|N].
  - destruct (Nat.ltb_spec j (length l)) as [L|L].
    + now apply nth_error_list_set_eq.
    + apply nth_error_None. now rewrite length_list_set.
  - now apply nth_error_list_set_ne.
Qed.

Lemma state_of_finish_task t o l u :
  state_of (finish_task t o l) u
  = if Nat.eqb t u && negb (is_done l u) && Nat.ltb u (length l)
    then state_of_outcome o else state_of l u.
Proof.
  unfold finish_task, state_of, is_done, state_of, done.
  destruct (Nat.eqb_spec t u) as [<-|N]; simpl.
  - destruct (nth_error l t) as [a|] eqn:E.
    + assert (L : t < length l) by (apply nth_error_Some; congruence).
      apply Nat.ltb_lt in L. rewrite L.
      destruct (t_state a) eqn:S; simpl; rewrite ?E, ?S; try reflexivity.
      rewrite nth_error_list_set, Nat.eqb_refl, L. reflexivity.
    + rewrite E. assert (L : length l <= t) by now apply nth_error_None.
      apply Nat.ltb_ge in L. now rewrite L.
  - destruct (nth_error l t) as [a|] eqn:E; [|reflexivity].
    destruct (t_state a); try reflexivity.
    rewrite nth_error_list_set_ne by assumption. reflexivity.
Qed.

Lemma cancels_of_finish_task t o l u :
  cancels_of (finish_task t o l) u = cancels_of l u.
Proof.
  unfold finish_task, cancels_of.
  destruct (nth_error l t) as [a|] eqn:E; [|reflexivity].
  destruct (done a); [reflexivity|].
  rewrite nth_error_list_set.
  destruct (Nat.eqb_spec t u) as [<-|N]; [|reflexivity].
  assert (L : t < length l) by (apply nth_error_Some; congruence).
  apply Nat.ltb_lt in L. now rewrite L, E.
Qed.

Lemma state_of_cancel_task t l u :
  state_of (cancel_task t l) u = state_of l u.
Proof.
  unfold cancel_task, state_of.
  destruct (nth_error l t) as [a|] eqn:E; [|reflexivity].
  destruct (done a); [reflexivity|].
  rewrite nth_error_list_set.
  destruct (Nat.eqb_spec t u) as [<-|N]; [|reflexivity].
  assert (L : t < length l) by (apply nth_error_Some; congruence).
  apply Nat.ltb_lt in L. now rewrite L, E.
Qed.

Lemma state_of_cancel_all ts : forall l u,
  state_of (cancel_all ts l) u = state_of l u.
Proof.
  unfold cancel_all.
  induction ts as [|t r IH]; intros l u; simpl; [reflexivity|].
  now rewrite IH, state_of_cancel_task.
Qed.

Lemma is_done_cancel_all ts l u :
  is_done (cancel_all ts l) u = is_done l u.
Proof. unfold is_done. now rewrite state_of_cancel_all. Qed.

Lemma length_cancel_task t l : length (cancel_task t l) = length l.
Proof.
  unfold cancel_task. destruct (nth_error l t); [|reflexivity].
  destruct (done a); [reflexivity|apply length_list_set].
Qed.

Lemma length_cancel_all ts : forall l, length (cancel_all ts l) = length l.
Proof.
  unfold cancel_all.
  induction ts as [|t r IH]; intros l; simpl; [reflexivity|].
  now rewrite IH, length_cancel_task.
Qed.

Lemma cancels_of_cancel_task t l u :
  cancels_of (cancel_task t l) u
  = if Nat.eqb t u && negb (is_done l u) && Nat.ltb u (length l)
    then S (cancels_of l u) else cancels_of l u.
Proof.
  unfold cancel_task, cancels_of, is_done, state_of, done.
  destruct (Nat.eqb_spec t u) as [<-|N]; simpl.
  - destruct (nth_error l t) as [a|] eqn:E.
    + assert (L : t < length l) by (apply nth_error_Some; congruence).
      apply Nat.ltb_lt in L. rewrite L.
      destruct (t_state a) eqn:S; simpl; rewrite ?E; try reflexivity.
      rewrite nth_error_list_set, Nat.eqb_refl, L. reflexivity.
    + rewrite E. assert (L : length l <= t) by now apply nth_error_None.
      apply Nat.ltb_ge in L. now rewrite L.
  - destruct (nth_error l t) as [a|] eqn:E; [|reflexivity].
    destruct (t_state a); try reflexivity.
    rewrite nth_error_list_set_ne by assumption. reflexivity.
Qed.

(** Cancelling distinct pending tasks counts one request on each. *)
Lemma cancels_of_cancel_all ts : forall l u,
  NoDup ts ->
  (forall t, In t ts -> is_done l t = false /\ t < length l) ->
  cancels_of (cancel_all ts l) u
  = if existsb (Nat.eqb u) ts then S (cancels_of l u) else cancels_of l u.
Proof.
  unfold cancel_all.
  induction ts as [|t r IH]; intros l u ND H; simpl; [reflexivity|].
  inversion ND as [|? ? Hnot ND']; subst.
  fold (cancel_all r (cancel_task t l)).
  unfold cancel_all. rewrite IH; [| assumption |].
  - rewrite cancels_of_cancel_task.
    destruct (Nat.eqb_spec u t) as [->|N].
    + rewrite Nat.eqb_refl.
      destruct (H t (or_introl eq_refl)) as [D L].
      rewrite D. apply Nat.ltb_lt in L. rewrite L. simpl.
      destruct (existsb (Nat.eqb t) r) eqn:X; [|reflexivity].
      apply existsb_exists in X as (x & Hx & Ex).
      apply Nat.eqb_eq in Ex. subst x. contradiction.
    + assert (E : Nat.eqb t u = false) by (apply Nat.eqb_neq; congruence).
      rewrite E. reflexivity.
  - intros x Hx. destruct (H x (or_intror Hx)) as [D L]. split.
    + unfold is_done in *. now rewrite state_of_cancel_task.
    + now rewrite length_cancel_task.
Qed.

(** ** The drain loop *)

(** A round, step by step. *)
Lemma cleanup_round_eq ts w :
  cleanup_round ts w
  = let wb := set_all_tasks (cancel_all ts (all_tasks w))
                (add_record (cancelling_record (base_name w) ts (all_tasks w))
                            w) in
    match await_until (all_done ts) (Some 5) wb with
    | (Ok _, wc) =>
        (Ok tt,
         add_record
           (settled_record (base_name w)
              (length (filter (is_done (all_tasks wc)) ts))
              (length (filter (fun t => negb (is_done (all_tasks wc) t)) ts)))
           wc)
    | (Raise e, wc) => (Raise e, wc)
    | (Blocked, wc) => (Blocked, wc)
    end.
Proof.
  unfold cleanup_round, asyncio_wait, bind, get, info, emit, modify.
  cbv zeta. fold (all_done ts).
  destruct (await_until (all_done ts) (Some 5) _) as [[?|?|] wc];
    reflexivity.
Qed.

Lemma remaining_tasks_spec w t :
  In t (remaining_tasks w)
  <-> t < length (all_tasks w) /\ t <> current w
      /\ is_done (all_tasks w) t = false.
Proof.
  unfold remaining_tasks. rewrite filter_In, in_seq, andb_true_iff.
  rewrite !negb_true_iff, Nat.eqb_neq. simpl. intuition lia.
Qed.

Lemma remaining_tasks_NoDup w : NoDup (remaining_tasks w).
Proof. apply NoDup_filter, seq_NoDup. Qed.

(** The tasks to cancel are not all done when the wait begins. *)
Lemma remaining_not_all_done w t r l :
  remaining_tasks w = t :: r ->
  forallb (is_done (cancel_all l (all_tasks w))) (t :: r) = false.
Proof.
  intros H. simpl. rewrite is_done_cancel_all.
  assert (I : In t (remaining_tasks w)) by (rewrite H; now left).
  apply remaining_tasks_spec in I as (_ & _ & D). now rewrite D.
Qed.

Lemma all_tasks_apply_event e w u :
  cancels_of (all_tasks (snd (apply_event e w))) u
  = cancels_of (all_tasks w) u.
Proof.
  destruct e; simpl; try reflexivity.
  - destruct (sem_step (sem_of s w) e); [now destruct s|reflexivity].
  - apply cancels_of_finish_task.
  - unfold cancels_of.
    destruct (Nat.lt_ge_cases u (length (all_tasks w))) as [L|L].
    + now rewrite nth_error_app1.
    + rewrite nth_error_app2 by assumption.
      assert (N : nth_error (all_tasks w) u = None) by now apply nth_error_None.
      rewrite N. destruct (u - length (all_tasks w)) as [|[|k]]; reflexivity.
Qed.

Lemma log_grows_apply_event e w :
  exists mid, log (snd (apply_event e w)) = (log w ++ mid)%list.
Proof.
  destruct e; simpl; try (exists []; now rewrite app_nil_r).
  - eexists. reflexivity.
  - exists []. rewrite app_nil_r.
    destruct (sem_step (sem_of s w) e); [now destruct s|reflexivity].
Qed.

(** What a round that ends normally did: every remaining task got one
    more cancel request; the wait used a prefix of the script with at most
    5 ticks; the log got the record of the cancellation first and the
    record of the count last, and the two numbers add up. *)
Lemma cleanup_round_effects w w1 :
  cleanup_round (remaining_tasks w) w = (Ok tt, w1) ->
  (forall t, In t (remaining_tasks w) ->
             cancels_of (all_tasks w1) t = S (cancels_of (all_tasks w) t))
  /\ (exists used, script w = (used ++ script w1)%list /\ ticks used <= 5)
  /\ (exists mid d p,
        log w1 = (log w ++ [cancelling_record (base_name w)
                              (remaining_tasks w) (all_tasks w)]
                  ++ mid ++ [settled_record (base_name w) d p])%list
        /\ d = length (filter (is_done (all_tasks w1)) (remaining_tasks w))
        /\ d + p = length (remaining_tasks w)).
Proof.
  rewrite cleanup_round_eq. cbv zeta. unfold await_until.
  set (ts := remaining_tasks w).
  set (wb := set_all_tasks _ _).
  pose proof (await_loop_used (all_done ts) (script wb) (Some 5) wb) as U.
  pose proof (await_loop_inv
    (fun w' => forall t, cancels_of (all_tasks w') t
                         = cancels_of (all_tasks wb) t)
    ltac:(intros e x H; cbv beta in *; intros t;
          rewrite all_tasks_apply_event; apply H)
    ltac:(intros l x H; cbv beta in *; intros t; exact (H t))
    (all_done ts) (script wb) (Some 5) wb ltac:(cbv beta; reflexivity)) as C.
  pose proof (await_loop_inv
    (fun w' => exists mid, log w' = (log wb ++ mid)%list)
    ltac:(intros e x H; cbv beta in *; destruct H as [m H];
          destruct (log_grows_apply_event e x) as [m' H'];
          exists (m ++ m')%list; now rewrite H', H, app_assoc)
    ltac:(intros l x H; exact H)
    (all_done ts) (script wb) (Some 5) wb
    ltac:(exists []; now rewrite app_nil_r)) as G.
  destruct (await_loop (all_done ts) (Some 5) (script wb) wb)
    as [[k|?|] wc]; try discriminate.
  intros H. injection H as <-. simpl in *. split; [|split].
  - intros t Ht. rewrite C. unfold wb. cbn [all_tasks set_all_tasks add_record set_log].
    rewrite cancels_of_cancel_all.
    + assert (X : existsb (Nat.eqb t) ts = true).
      { apply existsb_exists. exists t. split; [exact Ht|apply Nat.eqb_refl]. }
      now rewrite X.
    + apply remaining_tasks_NoDup.
    + intros x Hx. apply remaining_tasks_spec in Hx. tauto.
  - exact U.
  - destruct G as [mid G].
    exists mid, (length (filter (is_done (all_tasks wc)) ts)),
      (length (filter (fun t => negb (is_done (all_tasks wc) t)) ts)).
    split; [|split].
    + rewrite G. unfold wb. cbn [log set_all_tasks add_record set_log].
      now rewrite <- !app_assoc.
    + reflexivity.
    + clear. induction ts as [|t r IH]; simpl; [reflexivity|].
      destruct (is_done (all_tasks wc) t); simpl; lia.
Qed.

(** When the loop returns, no task other than the caller is pending. *)
Lemma cleanup_loop_n_returns fuel : forall w w',
  cleanup_loop_n fuel w = (Ok tt, w') -> remaining_tasks w' = [].
Proof.
  induction fuel as [|n IH]; intros w w' H; simpl in H; [discriminate|].
  unfold bind, get in H.
  destruct (remaining_tasks w) as [|t r] eqn:R.
  - injection H as <-. exact R.
  - destruct (cleanup_round (t :: r) w) as [[[]|?|] w1]; try discriminate.
    now apply IH in H.
Qed.

Lemma await_loop_script_le cond evs timeout w :
  length (script (snd (await_loop cond timeout evs w))) <= length evs.
Proof.
  destruct (await_loop_used cond evs timeout w) as (used & U & _).
  rewrite U at 2. rewrite length_app. lia.
Qed.

(** A wait that cannot end at once uses up at least one event. *)
Lemma await_loop_progress cond n e r w :
  cond w = false ->
  length (script (snd (await_loop cond (Some (S n)) (e :: r) w)))
  <= length r.
Proof.
  intros C. simpl. rewrite C.
  destruct (apply_event e w) as [[?|?|] w1]; simpl; try lia.
  apply await_loop_script_le.
Qed.

Lemma cleanup_round_progress w t r e evs :
  remaining_tasks w = t :: r ->
  script w = e :: evs ->
  length (script (snd (cleanup_round (t :: r) w))) <= length evs.
Proof.
  intros R S. rewrite cleanup_round_eq. cbv zeta. unfold await_until.
  cbn [script set_all_tasks add_record set_log]. rewrite S.
  match goal with
  | |- context [await_loop ?c ?tmo ?l ?x] =>
      pose proof (await_loop_progress c 4 e evs x
                    (remaining_not_all_done w t r _ R)) as P;
      destruct (await_loop c tmo l x) as [[?|?|] wc]
  end; exact P.
Qed.

(** With an empty script a round changes neither the script nor the
    tasks that remain. *)
Lemma cleanup_round_idle w t r :
  remaining_tasks w = t :: r ->
  script w = [] ->
  exists w1, cleanup_round (t :: r) w = (Ok tt, w1)
             /\ script w1 = [] /\ remaining_tasks w1 = t :: r.
Proof.
  intros R S. rewrite cleanup_round_eq. cbv zeta. unfold await_until.
  set (wb := set_all_tasks _ _).
  assert (Sb : script wb = []) by exact S.
  assert (Cb : all_done (t :: r) wb = false)
    by apply (remaining_not_all_done w t r _ R).
  rewrite Sb. cbn [await_loop]. rewrite Cb.
  eexists. split; [reflexivity|]. split; [reflexivity|].
  rewrite <- R. unfold remaining_tasks, wb.
  cbn [all_tasks current set_all_tasks add_record set_log set_script].
  rewrite length_cancel_all. apply filter_ext. intros a.
  now rewrite is_done_cancel_all.
Qed.

Lemma cleanup_loop_n_idle fuel : forall w,
  script w = [] -> remaining_tasks w <> [] ->
  fst (cleanup_loop_n fuel w) = Blocked.
Proof.
  induction fuel as [|n IH]; intros w S R; simpl; [reflexivity|].
  unfold bind, get. destruct (remaining_tasks w) as [|t r] eqn:E;
    [congruence|].
  destruct (cleanup_round_idle w t r E S) as (w1 & H1 & S1 & R1).
  rewrite H1. apply IH; [exact S1|congruence].
Qed.

(** Fuel beyond the length of the script plus two changes nothing. *)
Lemma cleanup_loop_n_fuel f : forall f' w,
  length (script w) + 2 <= f -> length (script w) + 2 <= f' ->
  same_end (cleanup_loop_n f w) (cleanup_loop_n f' w).
Proof.
  induction f as [|n IH]; intros f' w Hf Hf'; [lia|].
  destruct f' as [|n']; [lia|]. simpl. unfold bind, get.
  destruct (remaining_tasks w) as [|t r] eqn:R.
  { split; [reflexivity|intros; reflexivity]. }
  destruct (script w) as [|e evs] eqn:S.
  - destruct (cleanup_round_idle w t r R S) as (w1 & H1 & S1 & R1).
    rewrite H1.
    assert (N : remaining_tasks w1 <> []) by congruence.
    pose proof (cleanup_loop_n_idle n w1 S1 N) as B1.
    pose proof (cleanup_loop_n_idle n' w1 S1 N) as B2.
    split; [congruence|]. intros X. congruence.
  - pose proof (cleanup_round_progress w t r e evs R S) as P.
    destruct (cleanup_round (t :: r) w) as [[[]|?|] w1]; simpl in *.
    + apply IH; lia.
    + split; [reflexivity|intros; reflexivity].
    + split; [reflexivity|intros; reflexivity].
Qed.

Lemma cleanup_loop_n_S n w :
  cleanup_loop_n (S n) w
  = match remaining_tasks w with
    | [] => (Ok tt, w)
    | ts =>
        match cleanup_round ts w with
        | (Ok _, w1) => cleanup_loop_n n w1
        | (Raise e, w1) => (Raise e, w1)
        | (Blocked, w1) => (Blocked, w1)
        end
    end.
Proof.
  simpl. unfold bind, get. destruct (remaining_tasks w); reflexivity.
Qed.

(** After a round the loop goes on as if started afresh. *)
Lemma cleanup_loop_again w w1 :
  remaining_tasks w <> [] ->
  cleanup_round (remaining_tasks w) w = (Ok tt, w1) ->
  same_end (cleanup_loop w) (cleanup_loop w1).
Proof.
  intros N H.
  destruct (remaining_tasks w) as [|t r] eqn:R; [congruence|].
  assert (E : cleanup_loop w = cleanup_loop_n (S (length (script w))) w1).
  { unfold cleanup_loop. now rewrite cleanup_loop_n_S, R, H. }
  rewrite E. unfold cleanup_loop.
  destruct (script w) as [|e evs] eqn:Sc.
  - destruct (cleanup_round_idle w t r R Sc) as (w2 & H2 & S2 & R2).
    rewrite H in H2. injection H2 as <-.
    assert (N1 : remaining_tasks w1 <> []) by congruence.
    split.
    + now rewrite !cleanup_loop_n_idle by assumption.
    + intros X. exfalso. apply X. now apply cleanup_loop_n_idle.
  - pose proof (cleanup_round_progress w t r e evs R Sc) as P.
    rewrite H in P. simpl in P.
    apply cleanup_loop_n_fuel; simpl; lia.
Qed.

(** C7: the drain loop returns at once when no task other than the
    caller is pending; otherwise it does a round, which sends a cancel
    request to every remaining task, waits for at most 5 ticks of the
    clock, and logs first the tasks it cancels (when they all have a
    plain name: their number and the [repr] of their names, in some
    order) and last how many of them are done and how many are not, and
    then goes on as if started afresh; and whenever it returns, no task
    other than the caller is pending. *)
Theorem cleanup_loop_drains :
  forall w : world,
    (remaining_tasks w = [] -> cleanup_loop w = (Ok tt, w))
    /\ (forall w1,
          remaining_tasks w <> [] ->
          cleanup_round (remaining_tasks w) w = (Ok tt, w1) ->
          (forall t, In t (remaining_tasks w) ->
                     cancels_of (all_tasks w1) t
                     = S (cancels_of (all_tasks w) t))
          /\ (exists used,
                script w = (used ++ script w1)%list /\ ticks used <= 5)
          /\ (exists first mid d p,
                log w1
                = (log w ++ [first]
                   ++ mid ++ [settled_record (base_name w) d p])%list
                /\ levelname first = INFO
                /\ (plainly_named (all_tasks w) (remaining_tasks w) = true ->
                    exists ts,
                      Permutation ts (remaining_tasks w)
                      /\ first = cancelling_record (base_name w) ts
                                   (all_tasks w))
                /\ d = length (filter (is_done (all_tasks w1))
                                      (remaining_tasks w))
                /\ d + p = length (remaining_tasks w))
          /\ same_end (cleanup_loop w) (cleanup_loop w1))
    /\ (forall w', cleanup_loop w = (Ok tt, w') -> remaining_tasks w' = []).
Proof.
  intros w. split; [|split].
  - intros R. unfold cleanup_loop. simpl. unfold bind, get. now rewrite R.
  - intros w1 N H.
    destruct (cleanup_round_effects w w1 H) as (A & B & mid & d & p & C & D & E).
    split; [exact A|]. split; [exact B|]. split.
    + exists (cancelling_record (base_name w) (remaining_tasks w)
                (all_tasks w)), mid, d, p.
      split; [exact C|]. split; [reflexivity|]. split; [|auto].
      intros _. exists (remaining_tasks w). split; [apply Permutation_refl|].
      reflexivity.
    + now apply cleanup_loop_again.
  - intros w' H. unfold cleanup_loop in H.
    now apply cleanup_loop_n_returns in H.
Qed.

Lemma cleanup_loop_drains_witness :
  remaining_tasks drain_world = [1; 2]
  /\ remaining_tasks (snd (cleanup_loop drain_world)) = [].
Proof.
  split; [reflexivity|].
  apply (proj2 (proj2 (cleanup_loop_drains drain_world))).
  vm_compute. reflexivity.
Defined.

(** ** gather *)

(** Only [TaskDone] changes the state of a task, and only of a pending
    one. *)
Lemma state_of_apply_event e w u :
  state_of (all_tasks (snd (apply_event e w))) u
  = match e with
    | TaskDone t o =>
        if Nat.eqb t u && negb (is_done (all_tasks w) u)
           && Nat.ltb u (length (all_tasks w))
        then state_of_outcome o else state_of (all_tasks w) u
    | _ => state_of (all_tasks w) u
    end.
Proof.
  destruct e; simpl; try reflexivity.
  - destruct (sem_step (sem_of s w) e); [now destruct s|reflexivity].
  - apply state_of_finish_task.
  - unfold state_of.
    destruct (Nat.lt_ge_cases u (length (all_tasks w))) as [L|L].
    + now rewrite nth_error_app1.
    + rewrite nth_error_app2 by assumption.
      assert (N : nth_error (all_tasks w) u = None) by now apply nth_error_None.
      rewrite N. destruct (u - length (all_tasks w)) as [|[|k]]; reflexivity.
Qed.

Lemma done_stays e w u :
  is_done (all_tasks w) u = true ->
  state_of (all_tasks (snd (apply_event e w))) u = state_of (all_tasks w) u.
Proof.
  intros H. rewrite state_of_apply_event. destruct e; try reflexivity.
  rewrite H. simpl. now rewrite andb_false_r.
Qed.

Lemma finished_is_done l t : state_of l t = Finished -> is_done l t = true.
Proof. unfold is_done. now intros ->. Qed.

Lemma done_callback_step futs l t g F :
  children g = futs ->
  nfuts g = length (nodup Nat.eq_dec futs) ->
  outer g = OPending ->
  gpend (nodup Nat.eq_dec futs) l g F ->
  In t futs -> ~ In t F -> is_done l t = true ->
  let g' := _done_callback false l t g in
  children g' = futs /\ nfuts g' = nfuts g
  /\ gdone futs l g'
  /\ (outer g' = OPending -> gpend (nodup Nat.eq_dec futs) l g' (t :: F)).
Proof.
  intros Hc Hn Ho (ND & Inc & Hf & Hlt & Hfin) Ht HtF Hd.
  unfold _done_callback, gdone. rewrite Ho. cbn [negb].
  assert (HtD : In t (nodup Nat.eq_dec futs)) by now apply nodup_In.
  destruct (child_failure l t) as [e|] eqn:CF;
    cbn [children nfuts outer nfinished _cancel_requested].
  { split; [exact Hc|split; [reflexivity|split]];
      [left; eauto|discriminate]. }
  assert (Fin : state_of l t = Finished).
  { unfold child_failure, is_done in *.
    destruct (state_of l t); congruence. }
  assert (ND' : NoDup (t :: F)) by now constructor.
  assert (Inc' : incl (t :: F) (nodup Nat.eq_dec futs)).
  { intros u [<-|Hu]; auto. }
  assert (Fin' : forall u, In u (t :: F) -> state_of l u = Finished).
  { intros u [<-|Hu]; auto. }
  destruct (Nat.eqb_spec (S (nfinished g)) (nfuts g)) as [E|E].
  - destruct (_cancel_requested g) eqn:CR;
      cbn [children nfuts outer nfinished _cancel_requested].
    + split; [exact Hc|split; [reflexivity|split]];
        [now right|discriminate].
    + split; [exact Hc|split; [reflexivity|split]]; [|discriminate].
      assert (X : incl (nodup Nat.eq_dec futs) (t :: F)).
      { apply NoDup_length_incl; [exact ND'| |exact Inc'].
        simpl. unfold tid in *. lia. }
      intros u Hu. apply Fin', X. now apply nodup_In.
  - cbn [children nfuts outer nfinished _cancel_requested].
    split; [exact Hc|split; [reflexivity|split]]; [exact I|].
    intros _. repeat split; auto; simpl; lia.
Qed.

Lemma done_callback_resolved re l t g :
  outer g <> OPending ->
  children (_done_callback re l t g) = children g
  /\ nfuts (_done_callback re l t g) = nfuts g
  /\ outer (_done_callback re l t g) = outer g.
Proof.
  intros H. unfold _done_callback.
  destruct (outer g); [congruence| |]; repeat split.
Qed.

(** The callbacks of the children that are done when [gather] is called. *)
Lemma gather_initial futs l suf : forall pre g F,
  nodup Nat.eq_dec futs = (pre ++ suf)%list ->
  children g = futs ->
  nfuts g = length (nodup Nat.eq_dec futs) ->
  gdone futs l g ->
  (outer g = OPending ->
   gpend (nodup Nat.eq_dec futs) l g F /\ incl F pre
   /\ (forall t, In t pre -> is_done l t = true -> In t F)) ->
  let g' := fold_left (fun g t => if is_done l t
                                  then _done_callback false l t g else g)
                      suf g in
  children g' = futs /\ nfuts g' = length (nodup Nat.eq_dec futs)
  /\ gdone futs l g'
  /\ (outer g' = OPending ->
      exists F', gpend (nodup Nat.eq_dec futs) l g' F'
                 /\ (forall t, In t (nodup Nat.eq_dec futs) ->
                               is_done l t = true -> In t F')).
Proof.
  induction suf as [|t r IH]; intros pre g F HD Hc Hn Hdone Hpend; simpl.
  - rewrite app_nil_r in HD. repeat split; auto.
    intros Ho. destruct (Hpend Ho) as (P & _ & C). exists F. split; auto.
    intros u Hu. apply C. now rewrite <- HD.
  - assert (HD' : nodup Nat.eq_dec futs = ((pre ++ [t]) ++ r)%list)
      by now rewrite <- app_assoc.
    assert (ND : NoDup (pre ++ t :: r))
      by (rewrite <- HD; apply NoDup_nodup).
    assert (Htpre : ~ In t pre).
    { apply NoDup_remove_2 in ND. intros X. apply ND, in_or_app. now left. }
    assert (Ht : In t futs).
    { apply (nodup_In Nat.eq_dec). rewrite HD. apply in_or_app.
      right. now left. }
    destruct (is_done l t) eqn:Dt.
    + destruct (outer g) eqn:Ho.
      * destruct (Hpend eq_refl) as (P & IncF & C).
        destruct (done_callback_step futs l t g F Hc Hn Ho P Ht
                    ltac:(intros X; apply Htpre, IncF, X) Dt)
          as (Hc' & Hn' & Hdone' & Hpend').
        apply (IH (pre ++ [t])%list _ (t :: F)); auto; [congruence|].
        intros Ho'. split; [now apply Hpend'|]. split.
        -- intros u [<-|Hu]; apply in_or_app; [right; now left|left; auto].
        -- intros u Hu Du. apply in_app_or in Hu as [Hu|[<-|[]]];
             [right; auto|now left].
      * destruct (done_callback_resolved false l t g) as (R1 & R2 & R3);
          [congruence|].
        apply (IH (pre ++ [t])%list _ F);
          [exact HD'|congruence|congruence
          |unfold gdone in *; now rewrite R3|intros Ho'; congruence].
      * destruct (done_callback_resolved false l t g) as (R1 & R2 & R3);
          [congruence|].
        apply (IH (pre ++ [t])%list _ F);
          [exact HD'|congruence|congruence
          |unfold gdone in *; now rewrite R3|intros Ho'; congruence].
    + apply (IH (pre ++ [t])%list g F); auto.
      intros Ho. destruct (Hpend Ho) as (P & IncF & C).
      split; [exact P|]. split.
      * intros u Hu. apply in_or_app. left. auto.
      * intros u Hu Du. apply in_app_or in Hu as [Hu|[<-|[]]]; auto.
        congruence.
Qed.

Lemma exc_event_dec (e : env_event) : {e = Cancel} + {e <> Cancel}.
Proof. destruct e; (now left) || (right; discriminate). Qed.

Lemma gather_loop_cons re g e rest w :
  outer g = OPending -> e <> Cancel ->
  gather_loop re g (e :: rest) w
  = match apply_event e w with
    | (Ok _, w') => gather_loop re (run_callback re e w w' g) rest w'
    | (Raise x, w') => (Raise x, set_script rest w')
    | (Blocked, w') => (Blocked, set_script rest w')
    end.
Proof.
  intros Ho Ne. simpl. rewrite Ho. destruct e; congruence || reflexivity.
Qed.

Lemma is_child_In t g : is_child t g = true -> In t (children g).
Proof.
  unfold is_child. intros H. apply existsb_exists in H as (x & Hx & E).
  apply Nat.eqb_eq in E. now subst.
Qed.

Lemma In_is_child t g : In t (children g) -> is_child t g = true.
Proof.
  intros H. apply existsb_exists. exists t. split; [exact H|].
  apply Nat.eqb_refl.
Qed.

(** One event keeps what is known about a pending gathering future. *)
Lemma gather_step futs e w w' g F :
  apply_event e w = (Ok tt, w') ->
  children g = futs ->
  nfuts g = length (nodup Nat.eq_dec futs) ->
  outer g = OPending ->
  gpend (nodup Nat.eq_dec futs) (all_tasks w) g F ->
  (forall t, In t (nodup Nat.eq_dec futs) ->
             is_done (all_tasks w) t = true -> In t F) ->
  let g' := run_callback false e w w' g in
  children g' = futs /\ nfuts g' = length (nodup Nat.eq_dec futs)
  /\ gdone futs (all_tasks w') g'
  /\ (outer g' = OPending ->
      exists F', gpend (nodup Nat.eq_dec futs) (all_tasks w') g' F'
                 /\ (forall t, In t (nodup Nat.eq_dec futs) ->
                               is_done (all_tasks w') t = true -> In t F')).
Proof.
  intros E Hc Hn Ho (ND & Inc & Hf & Hlt & Hfin) Hcomp.
  assert (W : w' = snd (apply_event e w)) by now rewrite E.
  assert (Stay : forall u, is_done (all_tasks w) u = true ->
                           state_of (all_tasks w') u
                           = state_of (all_tasks w) u).
  { intros u Hu. rewrite W. now apply done_stays. }
  assert (P' : gpend (nodup Nat.eq_dec futs) (all_tasks w') g F).
  { repeat split; auto. intros u Hu. rewrite Stay; auto.
    apply finished_is_done. auto. }
  assert (Keep : (forall u, is_done (all_tasks w') u
                            = is_done (all_tasks w) u) ->
                 forall t, In t (nodup Nat.eq_dec futs) ->
                           is_done (all_tasks w') t = true -> In t F).
  { intros K t Ht Dt. apply Hcomp; auto. now rewrite <- K. }
  assert (Same : (forall u, state_of (all_tasks w') u
                            = state_of (all_tasks w) u) ->
                 children g = futs
                 /\ nfuts g = length (nodup Nat.eq_dec futs)
                 /\ gdone futs (all_tasks w') g
                 /\ (outer g = OPending ->
                     exists F', gpend (nodup Nat.eq_dec futs)
                                      (all_tasks w') g F'
                                /\ (forall t, In t (nodup Nat.eq_dec futs) ->
                                      is_done (all_tasks w') t = true ->
                                      In t F'))).
  { intros K. repeat split; auto.
    - unfold gdone. now rewrite Ho.
    - intros _. exists F. split; [exact P'|]. apply Keep.
      intros u. unfold is_done. now rewrite K. }
  destruct e as [| | |s ev|t o| |]; cbn [run_callback] in *;
    try (apply Same; intros u; rewrite W, state_of_apply_event; reflexivity).
  pose proof (fun u => state_of_apply_event (TaskDone t o) w u) as St.
  cbv beta iota in St. rewrite <- W in St.
  destruct (is_child t g && negb (is_done (all_tasks w) t)
            && is_done (all_tasks w') t) eqn:C.
  - apply andb_true_iff in C as [C C3]. apply andb_true_iff in C as [C1 C2].
    apply negb_true_iff in C2. apply is_child_In in C1. rewrite Hc in C1.
    assert (NF : ~ In t F).
    { intros X. apply Hfin, finished_is_done in X. congruence. }
    destruct (done_callback_step futs (all_tasks w') t g F Hc Hn Ho P' C1 NF C3)
      as (Hc' & Hn' & Hd' & Hp').
    split; [exact Hc'|]. split; [congruence|]. split; [exact Hd'|].
    intros Ho'. exists (t :: F). split; [now apply Hp'|].
    intros u Hu Du. destruct (Nat.eq_dec t u) as [->|N]; [now left|].
    right. apply Hcomp; auto. unfold is_done in *. rewrite St in Du.
    apply Nat.eqb_neq in N. now rewrite N in Du.
  - split; [exact Hc|]. split; [exact Hn|]. split.
    { unfold gdone. now rewrite Ho. }
    intros _. exists F. split; [exact P'|].
    intros u Hu Du.
    destruct (is_done (all_tasks w) u) eqn:Du0; [now apply Hcomp|].
    exfalso.
    assert (X : Nat.eqb t u = true).
    { unfold is_done in Du, Du0. rewrite St in Du.
      destruct (Nat.eqb t u); [reflexivity|]. simpl in Du.
      destruct (state_of (all_tasks w) u); congruence. }
    apply Nat.eqb_eq in X. subst u.
    rewrite Du0, Du in C. simpl in C.
    rewrite In_is_child in C; [discriminate|].
    rewrite Hc. now apply (nodup_In Nat.eq_dec).
Qed.

(** How the wait for the gathering future ends when exceptions are not
    returned: normally only when every child finished without exception;
    with an exception that is a child's or the cancellation's. *)
Lemma gather_loop_spec futs evs : forall g w,
  children g = futs ->
  nfuts g = length (nodup Nat.eq_dec futs) ->
  gdone futs (all_tasks w) g ->
  (outer g = OPending ->
   exists F, gpend (nodup Nat.eq_dec futs) (all_tasks w) g F
             /\ (forall t, In t (nodup Nat.eq_dec futs) ->
                           is_done (all_tasks w) t = true -> In t F)) ->
  match gather_loop false g evs w with
  | (Ok _, w') => forall u, In u futs -> state_of (all_tasks w') u = Finished
  | (Raise e, w') =>
      (exists u, In u futs /\ child_failure (all_tasks w') u = Some e)
      \/ e = cancelled_error
  | (Blocked, _) => True
  end.
Proof.
  induction evs as [|e rest IH]; intros g w Hc Hn Hd Hp.
  - simpl. unfold gdone in Hd. destruct (outer g); simpl; auto.
  - destruct (outer g) eqn:Ho.
    + destruct (Hp eq_refl) as (F & P & Comp).
      destruct (exc_event_dec e) as [->|Ne].
      * simpl. rewrite Ho. apply IH.
        -- exact Hc.
        -- exact Hn.
        -- unfold gdone. exact I.
        -- intros _. exists F. split.
           ++ destruct P as (ND & Inc & Hf & Hlt & Hfin).
              repeat split; auto. intros u Hu.
              cbn [all_tasks set_all_tasks].
              rewrite state_of_cancel_all. auto.
           ++ intros u Hu Du. cbn [all_tasks set_all_tasks] in Du.
              rewrite is_done_cancel_all in Du. auto.
      * rewrite gather_loop_cons by assumption.
        destruct (apply_event e w) as [[[]|x|] w'] eqn:E.
        -- destruct (gather_step futs e w w' g F E Hc Hn Ho P Comp)
             as (A & B & C & D).
           apply IH; auto.
        -- right. now apply apply_event_raises in E.
        -- exact I.
    + simpl. rewrite Ho. unfold gdone in Hd. rewrite Ho in Hd. exact Hd.
    + simpl. rewrite Ho. unfold gdone in Hd. rewrite Ho in Hd. exact Hd.
Qed.

Lemma asyncio_gather_spec futs w :
  match asyncio_gather false futs w with
  | (Ok _, w') => forall u, In u futs -> state_of (all_tasks w') u = Finished
  | (Raise e, w') =>
      (exists u, In u futs /\ child_failure (all_tasks w') u = Some e)
      \/ e = cancelled_error
  | (Blocked, _) => True
  end.
Proof.
  unfold asyncio_gather. destruct futs as [|a r]; [intros u []|].
  set (futs := a :: r).
  set (g0 := {| children := futs; nfuts := length (nodup Nat.eq_dec futs);
                nfinished := 0; outer := OPending;
                _cancel_requested := false |}).
  assert (Pos : 0 < length (nodup Nat.eq_dec futs)).
  { assert (X : In a (nodup Nat.eq_dec futs))
      by (apply nodup_In; now left).
    destruct (nodup Nat.eq_dec futs); [destruct X|simpl; lia]. }
  destruct (gather_initial futs (all_tasks w) (nodup Nat.eq_dec futs)
              [] g0 [] eq_refl eq_refl eq_refl I) as (A & B & C & D).
  { intros _. split; [|split].
    - repeat split; [constructor|intros x []|exact Pos|intros x []].
    - intros x [].
    - intros x []. }
  apply gather_loop_spec; assumption.
Qed.

(** What [wait] does to the objects: the task has a handle afterwards,
    and no object loses the handle it had. *)
Lemma wait_spec self w :
  match wait self w with
  | (Ok r, w') =>
      exists h, r = Some h
                /\ option_map _task (nth_error (objs w') self)
                   = Some (Some h)
                /\ (forall x h', option_map _task (nth_error (objs w) x)
                                 = Some (Some h') ->
                                 option_map _task (nth_error (objs w') x)
                                 = Some (Some h'))
  | (Raise e, _) => e = no_such_object
  | (Blocked, _) => False
  end.
Proof.
  unfold wait, bind. unfold get_obj at 1.
  destruct (nth_error (objs w) self) as [o|] eqn:Ho; [|reflexivity].
  assert (L : self < length (objs w)) by (apply nth_error_Some; congruence).
  destruct (_task o) as [h|] eqn:Ht.
  - unfold ret, get_obj. rewrite Ho. exists h. rewrite Ht, Ho. simpl.
    rewrite Ht. auto.
  - rewrite (start_spec self o w Ho). unfold ret, get_obj.
    cbn [objs set_objs set_all_tasks].
    rewrite nth_error_list_set_eq by assumption. cbn [_task].
    eexists. split; [reflexivity|]. split.
    + cbn [objs set_objs set_all_tasks].
      now rewrite nth_error_list_set_eq.
    + cbn [objs set_objs set_all_tasks]. intros x h' Hx. destruct (Nat.eq_dec self x) as [<-|N].
      * rewrite Ho in Hx. simpl in Hx. congruence.
      * now rewrite nth_error_list_set_ne.
Qed.

Lemma wait_all_spec tasks : forall w,
  match wait_all tasks w with
  | (Ok futs, w') =>
      (forall self, In self tasks ->
         exists h, In h futs
                   /\ option_map _task (nth_error (objs w') self)
                      = Some (Some h))
      /\ (forall h, In h futs ->
            exists self, In self tasks
                         /\ option_map _task (nth_error (objs w') self)
                            = Some (Some h))
      /\ (forall x h', option_map _task (nth_error (objs w) x)
                       = Some (Some h') ->
                       option_map _task (nth_error (objs w') x)
                       = Some (Some h'))
  | (Raise e, _) => e = no_such_object
  | (Blocked, _) => False
  end.
Proof.
  induction tasks as [|t r IH]; intros w; simpl.
  - repeat split; auto; intros ? [].
  - unfold bind. pose proof (wait_spec t w) as W.
    destruct (wait t w) as [[o|e|] w1]; auto.
    destruct W as (h & -> & Hh & Keep1).
    specialize (IH w1).
    destruct (wait_all r w1) as [[futs|e|] w2]; auto.
    destruct IH as (A & B & Keep2). unfold ret. repeat split.
    + intros self [<-|Hs].
      * exists h. split; [now left|]. now apply Keep2.
      * destruct (A self Hs) as (h' & I1 & I2). exists h'.
        split; [now right|exact I2].
    + intros h' [<-|Hh'].
      * exists t. split; [now left|]. now apply Keep2.
      * destruct (B h' Hh') as (self & I1 & I2). exists self.
        split; [now right|exact I2].
    + intros x h' Hx. now apply Keep2, Keep1.
Qed.

Lemma objs_kept_by_asyncio_gather re futs w :
  objs (snd (asyncio_gather re futs w)) = objs w.
Proof.
  apply (preserves_asyncio_gather (fun w' => objs w' = objs w)); intros;
    assumption || reflexivity.
Qed.

(** The first failure of a child ends the wait at that very event. *)
Lemma gather_loop_raises_at_once g t e rest w :
  outer g = OPending ->
  In t (children g) ->
  state_of (all_tasks w) t = Pending ->
  t < length (all_tasks w) ->
  exc_type e <> CancelledError ->
  gather_loop false g (TaskDone t (Raised e) :: rest) w
  = (Raise e,
     set_script rest
       (set_all_tasks (finish_task t (Raised e) (all_tasks w)) w)).
Proof.
  intros Ho Hc Hs Hl He.
  rewrite gather_loop_cons by (assumption || discriminate).
  cbn [apply_event]. unfold modify.
  set (w' := set_all_tasks _ w).
  assert (St : state_of (all_tasks w') t = Excepted e).
  { unfold w'. cbn [all_tasks set_all_tasks].
    rewrite state_of_finish_task, Nat.eqb_refl. unfold is_done.
    rewrite Hs. apply Nat.ltb_lt in Hl. rewrite Hl. simpl.
    destruct (exc_type e); simpl; congruence. }
  unfold run_callback, is_done. rewrite (In_is_child t g Hc), Hs, St.
  cbn [negb andb]. unfold _done_callback, child_failure.
  rewrite Ho, St. destruct rest; simpl; reflexivity.
Qed.

(** C1, as the code has it: [gather] with [return_exceptions] at its
    default gives every task a handle (starting those not started) and
    returns normally only when every task has finished without an
    exception; when it raises, the exception is that of one of the tasks
    (or the cancellation of the waiting coroutine, or an unknown task
    object); and the wait ends at the very event in which a child fails,
    with the states and cancel counts of the other tasks as they were. *)
Theorem gather_default_ends :
  forall (tasks : list nat) (w : world),
    match gather tasks false w with
    | (Ok _, w') =>
        forall self, In self tasks ->
          exists h, option_map _task (nth_error (objs w') self)
                    = Some (Some h)
                    /\ state_of (all_tasks w') h = Finished
    | (Raise e, w') =>
        e = no_such_object \/ e = cancelled_error
        \/ exists self h,
             In self tasks
             /\ option_map _task (nth_error (objs w') self) = Some (Some h)
             /\ child_failure (all_tasks w') h = Some e
    | (Blocked, _) => True
    end
    /\ (forall g t e rest,
          outer g = OPending ->
          In t (children g) ->
          state_of (all_tasks w) t = Pending ->
          t < length (all_tasks w) ->
          exc_type e <> CancelledError ->
          exists w',
            gather_loop false g (TaskDone t (Raised e) :: rest) w
            = (Raise e, w')
            /\ script w' = rest
            /\ forall u, u <> t ->
                  state_of (all_tasks w') u = state_of (all_tasks w) u
                  /\ cancels_of (all_tasks w') u
                     = cancels_of (all_tasks w) u).
Proof.
  intros tasks w. split.
  - unfold gather, bind.
    pose proof (wait_all_spec tasks w) as W.
    destruct (wait_all tasks w) as [[futs|e|] w1]; [|now left|exact I].
    destruct W as (A & B & _).
    pose proof (asyncio_gather_spec futs w1) as G.
    pose proof (objs_kept_by_asyncio_gather false futs w1) as O.
    destruct (asyncio_gather false futs w1) as [[rs|e|] w2]; simpl in O;
      unfold ret; [| |exact I].
    + intros self Hs. destruct (A self Hs) as (h & I1 & I2).
      exists h. rewrite O. split; [exact I2|now apply G].
    + destruct G as [(u & Hu & F) | ->]; [|right; now left].
      right. right. destruct (B u Hu) as (self & I1 & I2).
      exists self, u. rewrite O. auto.
  - intros g t e rest Ho Hc Hs Hl He. eexists. split.
    + now apply gather_loop_raises_at_once.
    + split; [reflexivity|]. intros u Hu.
      cbn [all_tasks set_script set_all_tasks].
      rewrite state_of_finish_task, cancels_of_finish_task.
      assert (N : Nat.eqb t u = false) by (apply Nat.eqb_neq; congruence).
      now rewrite N.
Qed.

(** The gathering future of the two started language tasks of
    [two_langs_started], as it is when the wait begins, is ended by the
    failure of the first while the second is pending. *)
Lemma gather_default_ends_witness :
  exists w',
    gather_loop false
      {| children := [1; 2]; nfuts := 2; nfinished := 0; outer := OPending;
         _cancel_requested := false |}
      [TaskDone 1 (Raised {| exc_type := RuntimeError; exc_str := "boom" |});
       Tick; TaskDone 2 Returned]
      two_langs_started
    = (Raise {| exc_type := RuntimeError; exc_str := "boom" |}, w')
    /\ script w' = [Tick; TaskDone 2 Returned]
    /\ forall u, u <> 1 ->
          state_of (all_tasks w') u = state_of (all_tasks two_langs_started) u
          /\ cancels_of (all_tasks w') u
             = cancels_of (all_tasks two_langs_started) u.
Proof.
  apply (proj2 (gather_default_ends [] two_langs_started)).
  - reflexivity.
  - simpl. auto.
  - reflexivity.
  - vm_compute. lia.
  - discriminate.
Defined.

(** C1 fails as stated: the first of two siblings fails; [gather] raises
    its exception at that very event, while the second sibling is still
    pending, was not cancelled, and the events in which it would end are
    still to come. *)
Lemma gather_raises_before_siblings_end :
  let r := gather [0; 1] false two_langs in
  fst r = Raise {| exc_type := RuntimeError; exc_str := "boom" |}
  /\ option_map _task (nth_error (objs (snd r)) 1) = Some (Some 2)
  /\ state_of (all_tasks (snd r)) 2 = Pending
  /\ cancels_of (all_tasks (snd r)) 2 = 0
  /\ script (snd r) = [Tick; TaskDone 2 Returned].
Proof. vm_compute. repeat split. Qed.

(** ** The language task as a whole *)

Lemma nth_list_set_eq {A} (l : list A) d : forall i x,
  i < length l -> nth i (list_set i x l) d = x.
Proof.
  induction l as [|a r IH]; intros i x H; simpl in *; [lia|].
  destruct i; simpl; [reflexivity|]. apply IH. lia.
Qed.

Lemma list_set_out {A} (l : list A) : forall i x,
  length l <= i -> list_set i x l = l.
Proof.
  induction l as [|a r IH]; intros i x H; simpl in *; [reflexivity|].
  destruct i; [lia|]. f_equal. apply IH. lia.
Qed.

(** Entering a semaphore on an empty exit stack leaves no exit but the
    release on it. *)
Lemma stack_after_enter st s (sts : list (list cm)) :
  nth st sts [] = [] ->
  sem_only (nth st (list_set st (CmSem s :: nth st sts []) sts) []).
Proof.
  intros H. destruct (Nat.lt_ge_cases st (length sts)) as [L|L].
  - rewrite nth_list_set_eq by assumption. rewrite H.
    repeat constructor.
  - rewrite list_set_out by assumption. rewrite H. constructor.
Qed.

(** The whole run of a language task whose file does not have as many
    lines as there are keys sends nothing to the database, whether it
    fails on the mismatch, is cancelled, or stops on shutdown. *)
Lemma lang_task_mismatch_keeps_db self o w :
  nth_error (objs w) (lt_self self) = Some o ->
  nth (_stack o) (stacks w) [] = [] ->
  length (lang_file_lines self) <> length (keys (sync w)) ->
  db (snd (SyncLangTask_run self w)) = db w.
Proof.
  intros Ho Hst Hne.
  set (Q := fun w' : world => db w' = db w).
  set (K := fun w' : world => keys (sync w') = keys (sync w)).
  set (S := fun w' : world => sem_only (nth (_stack o) (stacks w') [])).
  assert (Main : forall w0, Q w0 -> K w0 -> S w0 ->
                            Q (snd (SyncLangTask_main self w0))
                            /\ S (snd (SyncLangTask_main self w0))
                            /\ forall a, fst (SyncLangTask_main self w0)
                                         <> Ok a).
  { intros w0 D Kw Sw.
    assert (Hne0 : length (lang_file_lines self) <> length (keys (sync w0)))
      by now rewrite Kw.
    destruct (main_mismatch_never_stores self w0 Hne0) as (E & N & D0).
    split; [|split; [|exact N]].
    - unfold Q in *. congruence.
    - rewrite E. unfold S.
      rewrite (preserves_read_lines (fun w' => stacks w' = stacks w0));
        intros; assumption || reflexivity. }
  assert (Exit : forall w0, Q w0 -> S w0 ->
                            Q (snd (stack_aexit (_stack o) w0))).
  { intros w0 Q0 S0. unfold stack_aexit, bind, get, modify.
    apply (preserves_unwind_sems Q); unfold Q; intros;
      assumption || reflexivity. }
  assert (Block : Q (snd (main_block o (SyncLangTask_main self) w))).
  { unfold main_block, async_with, try_finally, bind.
    destruct (task_sem o) as [s|].
    - unfold enter_async_context, bind. cbn [aenter].
      assert (A : Q (snd (sem_acquire s w)))
        by (apply (preserves_sem_acquire Q); unfold Q; intros;
            assumption || reflexivity).
      assert (B : stacks (snd (sem_acquire s w)) = stacks w)
        by (apply (preserves_sem_acquire (fun w' => stacks w' = stacks w));
            intros; assumption || reflexivity).
      assert (C : K (snd (sem_acquire s w)))
        by (apply (preserves_sem_acquire K); unfold K; intros;
            assumption || reflexivity).
      destruct (sem_acquire s w) as [[[]|x|] w1]; simpl in A, B, C.
      + unfold modify.
        match goal with
        | |- context [SyncLangTask_main self ?x] => set (w2 := x)
        end.
        assert (S2 : S w2).
        { unfold S, w2. cbn [stacks set_stacks].
          rewrite B. now apply stack_after_enter. }
        destruct (Main w2 A C S2) as (M1 & M2 & N).
        destruct (SyncLangTask_main self w2) as [[a|y|] w3]; simpl in *.
        * now destruct (N a).
        * pose proof (Exit w3 M1 M2) as X.
          destruct (stack_aexit (_stack o) w3) as [[?|?|] w4]; exact X.
        * exact M1.
      + assert (S1 : S w1). { unfold S. rewrite B, Hst. constructor. }
        pose proof (Exit w1 A S1) as X.
        destruct (stack_aexit (_stack o) w1) as [[?|?|] w4]; exact X.
      + exact A.
    - unfold ret.
      assert (Sw : S w). { unfold S. rewrite Hst. constructor. }
      destruct (Main w eq_refl eq_refl Sw) as (M1 & M2 & N).
      destruct (SyncLangTask_main self w) as [[a|y|] w3]; simpl in *.
      + now destruct (N a).
      + pose proof (Exit w3 M1 M2) as X.
        destruct (stack_aexit (_stack o) w3) as [[?|?|] w4]; exact X.
      + exact M1. }
  unfold SyncLangTask_run, _main_outer, bind, get_obj, try_except.
  rewrite Ho. unfold Q in Block.
  destruct (main_block o (SyncLangTask_main self) w) as [[[]|e|] w1];
    simpl in *; try exact Block.
  destruct (isinstance e CancelledError); [exact Block|].
  destruct (isinstance e Shutdown); [exact Block|].
  destruct (isinstance e Exception); exact Block.
Qed.

(** ** The model at work *)

Example strip_removes_white_space :
  strip ("  Hello world " ++ String (ascii_of_nat 10) "") = "Hello world".
Proof. reflexivity. Qed.

Example LANG_PATTERN_examples :
  LANG_PATTERN_fullmatch "en.txt" = true
  /\ LANG_PATTERN_fullmatch "zh-CN.txt" = true
  /\ LANG_PATTERN_fullmatch "keys2.txt" = false
  /\ LANG_PATTERN_fullmatch "en.txt.bak" = false
  /\ LANG_PATTERN_fullmatch ".txt" = false
  /\ stem "zh-CN.txt" = "zh-CN"
  /\ lower "Keys.TXT" = "keys.txt".
Proof. repeat split. Qed.

(** A language file with as many lines as there are keys: the task takes
    its permit, reads, connects, inserts one row, commits, closes, and
    gives the permits back. *)
Example lang_task_stores_its_rows :
  let r := SyncLangTask_run lang_en (lang_world ["greeting"]) in
  fst r = Ok tt
  /\ db (snd r) = [DbConnect;
                   DbInsert {| string_file := "Menu"; string_key := "greeting";
                               lang_code := "en"; string_body := "Hello" |};
                   DbCommit; DbClose]
  /\ held (sem_of SyncLangTask_SEM (snd r)) = 0
  /\ held (sem_of db_sem (snd r)) = 0.
Proof. vm_compute. repeat split. Qed.

(** The same file under a folder with two keys: the task fails, the
    wrapper logs the failure, nothing reaches the database. *)
Example lang_task_mismatch_fails :
  let r := SyncLangTask_run lang_en (lang_world ["greeting"; "farewell"]) in
  let e := {| exc_type := RuntimeError; exc_str := mismatch_message 1 2 |} in
  fst r = Raise e
  /\ db (snd r) = []
  /\ last (log (snd r)) (failed_record "" e) = failed_record "Menu/en" e
  /\ held (sem_of SyncLangTask_SEM (snd r)) = 0.
Proof. vm_compute. repeat split. Qed.

(** The drain of [drain_world] takes two rounds. *)
Example drain_takes_two_rounds :
  let r := cleanup_loop drain_world in
  fst r = Ok tt
  /\ map message (log (snd r))
     = ["[sync_t9ns] Cancelling all 2 tasks: ['Menu/de', 'Menu/en']";
        "[sync_t9ns] Cancelled 1 tasks, 1 not yet done.";
        "[sync_t9ns] Cancelling all 1 tasks: ['Menu/en']";
        "[sync_t9ns] Cancelled 1 tasks, 0 not yet done."]
  /\ map t_cancels (all_tasks (snd r)) = [0; 1; 2].
Proof. vm_compute. repeat split. Qed.

(** All permits of [db_sem] are taken when [store_lines] asks for a
    connection, and shutdown is requested while it waits: it still gets
    the permit and the connection, stops at the check that follows,
    before any row is sent, and gives the permit back. *)
Example store_lines_stops_after_acquisition :
  let w := set_script [Signal "loop SIGINT"; SemEvent db_sem (Release 1);
                       IoDone]
             (set_sem db_sem full_sem
                (set_lines ["Hello"] (lang_world ["greeting"]))) in
  let r := store_lines lang_en w in
  fst r = Raise {| exc_type := Shutdown; exc_str := "" |}
  /\ db (snd r) = [DbConnect; DbClose]
  /\ held (sem_of db_sem (snd r)) = 7
  /\ existsb (Nat.eqb (current w)) (holders (sem_of db_sem (snd r))) = false.
Proof. vm_compute. repeat split. Qed.

(* ===================================================================== *)
(** * More of the code *)
(* ===================================================================== *)

(** ** How computations end, step by step *)

Lemma bind_ok {A B} (m : M A) (k : A -> M B) w b w' :
  bind m k w = (Ok b, w') ->
  exists a w1, m w = (Ok a, w1) /\ k a w1 = (Ok b, w').
Proof.
  unfold bind. destruct (m w) as [[a|e|] w1] eqn:E; try discriminate. eauto.
Qed.

Lemma bind_raise {A B} (m : M A) (k : A -> M B) w e w' :
  bind m k w = (Raise e, w') ->
  m w = (Raise e, w')
  \/ exists a w1, m w = (Ok a, w1) /\ k a w1 = (Raise e, w').
Proof.
  unfold bind. destruct (m w) as [[a|x|] w1] eqn:E; try discriminate;
    intros H; [right; eauto|left; congruence].
Qed.

Lemma bind_blocked {A B} (m : M A) (k : A -> M B) w w' :
  bind m k w = (Blocked, w') ->
  m w = (Blocked, w')
  \/ exists a w1, m w = (Ok a, w1) /\ k a w1 = (Blocked, w').
Proof.
  unfold bind. destruct (m w) as [[a|x|] w1] eqn:E; try discriminate;
    intros H; [right; eauto|left; congruence].
Qed.

Lemma try_finally_ok {A} (body : M A) (fin : M unit) w a w' :
  try_finally body fin w = (Ok a, w') ->
  exists w1, body w = (Ok a, w1) /\ fin w1 = (Ok tt, w').
Proof.
  unfold try_finally. destruct (body w) as [[b|e|] w1] eqn:E;
    try discriminate;
    destruct (fin w1) as [[[]|x|] w2] eqn:F; try discriminate.
  intros H. injection H as <- <-. eauto.
Qed.

Lemma try_finally_raise {A} (body : M A) (fin : M unit) w e w' :
  try_finally body fin w = (Raise e, w') ->
  (exists a w1, body w = (Ok a, w1) /\ fin w1 = (Raise e, w'))
  \/ (exists e0 w1, body w = (Raise e0, w1)
                    /\ ((fin w1 = (Ok tt, w') /\ e = e0)
                        \/ fin w1 = (Raise e, w'))).
Proof.
  unfold try_finally. destruct (body w) as [[b|e0|] w1] eqn:E;
    try discriminate;
    destruct (fin w1) as [[[]|x|] w2] eqn:F; try discriminate;
    intros H; injection H as <- <-; eauto 8.
Qed.

Lemma emit_run l msg ei w :
  emit l msg ei w
  = (Ok tt, add_record {| levelname := l; message := msg; exc_info := ei |} w).
Proof. reflexivity. Qed.

Lemma store_add_record r w : store (add_record r w) = store w.
Proof. reflexivity. Qed.

Lemma await_io_store w : store (snd (await_io w)) = store w.
Proof. apply (await_io_keeps store); reflexivity. Qed.

Lemma await_io_not_blocked w : fst (await_io w) <> Blocked.
Proof.
  unfold await_io. destruct (await_until _ None _) as [[?|?|] w1];
    discriminate.
Qed.

Lemma sem_acquire_store s w : store (snd (sem_acquire s w)) = store w.
Proof.
  apply (preserves_sem_acquire (fun w' => store w' = store w)); intros;
    assumption || reflexivity.
Qed.

Lemma sem_release_run s w :
  sem_release s w = (Ok tt, set_sem s (release (current w) (sem_of s w)) w).
Proof. reflexivity. Qed.

Lemma store_set_sem s v w : store (set_sem s v w) = store w.
Proof. now destruct s. Qed.

Lemma store_fields w w' :
  store w' = store w ->
  db w' = db w /\ stacks w' = stacks w /\ sync w' = sync w
  /\ objs w' = objs w /\ current w' = current w
  /\ base_name w' = base_name w.
Proof. unfold store. intros H. injection H as -> -> -> -> -> ->. auto 10. Qed.

(** ** Reading and storing a language file *)

Lemma read_lines_ok self w w1 :
  read_lines self w = (Ok tt, w1) ->
  lines (sync w1) = map strip (lang_file_lines self)
  /\ length (lang_file_lines self) = length (keys (sync w))
  /\ keys (sync w1) = keys (sync w)
  /\ db w1 = db w.
Proof.
  intros H.
  pose proof (db_kept_by_read_lines self w) as D. rewrite H in D.
  unfold read_lines in H.
  apply bind_ok in H as ([] & w2 & F & H).
  destruct (read_lines_file_ok self w w2 F) as [L K].
  unfold bind, get in H. rewrite L, K, length_map in H.
  destruct (Nat.eqb_spec (length (lang_file_lines self))
                         (length (keys (sync w)))) as [E|E];
    simpl in H; [|discriminate].
  injection H as <-. simpl. auto.
Qed.

(** X1: when [read_lines] returns normally, [self.lines] holds the lines
    of the file, stripped, in file order, whatever it held before; there
    are as many of them as keys; the keys are as before and nothing was
    sent to the database. *)
Theorem read_lines_returns_stripped_lines :
  forall (self : SyncLangTask) (w w1 : world),
    read_lines self w = (Ok tt, w1) ->
    lines (sync w1) = map strip (lang_file_lines self)
    /\ length (lang_file_lines self) = length (keys (sync w))
    /\ keys (sync w1) = keys (sync w)
    /\ db w1 = db w.
Proof.
  intros self w w1 H.
  pose proof (db_kept_by_read_lines self w) as D. rewrite H in D.
  unfold read_lines in H.
  apply bind_ok in H as ([] & w2 & F & H).
  destruct (read_lines_file_ok self w w2 F) as [L K].
  unfold bind, get in H. rewrite L, K, length_map in H.
  destruct (Nat.eqb_spec (length (lang_file_lines self))
                         (length (keys (sync w)))) as [E|E];
    simpl in H; [|discriminate].
  injection H as <-. simpl. auto.
Qed.

Lemma read_lines_returns_stripped_lines_witness :
  let w := lang_world ["greeting"] in
  let w1 := snd (read_lines lang_en w) in
  lines (sync w1) = map strip (lang_file_lines lang_en)
  /\ length (lang_file_lines lang_en) = length (keys (sync w))
  /\ keys (sync w1) = keys (sync w)
  /\ db w1 = db w.
Proof.
  apply (read_lines_returns_stripped_lines lang_en
           (lang_world ["greeting"])
           (snd (read_lines lang_en (lang_world ["greeting"])))).
  vm_compute. reflexivity.
Defined.

Lemma aenter_frame c w :
  db (snd (aenter c w)) = (db w ++ sent_by_enter c)%list
  /\ stacks (snd (aenter c w)) = stacks w
  /\ sync (snd (aenter c w)) = sync w
  /\ current (snd (aenter c w)) = current w.
Proof.
  destruct c as [s|]; simpl.
  - destruct (store_fields _ _ (sem_acquire_store s w)) as (A & B & C & _ & D & _).
    rewrite A, B, C, D, app_nil_r. auto.
  - unfold bind, modify.
    destruct (store_fields _ _
                (await_io_store (set_db (db w ++ [DbConnect]) w)))
      as (A & B & C & _ & D & _).
    destruct (await_io _) as [[[]|e|] w1]; simpl in *; auto.
Qed.

Lemma aenter_raises c w e w' :
  aenter c w = (Raise e, w') -> e = cancelled_error.
Proof.
  destruct c as [s|]; simpl.
  - intros H. pose proof (sem_acquire_ends s w) as A. now rewrite H in A.
  - unfold bind, modify. intros H.
    destruct (await_io _) as [[[]|x|] w1] eqn:E; try discriminate.
    injection H as <- _. now apply await_io_raises in E.
Qed.

Lemma enter_async_context_ok st c w w1 :
  enter_async_context st c w = (Ok tt, w1) ->
  exists w0, aenter c w = (Ok tt, w0)
             /\ w1 = set_stacks
                       (list_set st (c :: nth st (stacks w0) []) (stacks w0))
                       w0.
Proof.
  unfold enter_async_context. intros H.
  apply bind_ok in H as ([] & w0 & A & H). unfold modify in H.
  injection H as <-. eauto.
Qed.

Lemma enter_async_context_raise st c w e w1 :
  enter_async_context st c w = (Raise e, w1) ->
  aenter c w = (Raise e, w1) /\ e = cancelled_error.
Proof.
  unfold enter_async_context. intros H.
  apply bind_raise in H as [H|(a & w0 & _ & H)]; [|discriminate].
  split; [exact H|]. now apply aenter_raises in H.
Qed.

(** Leaving a stack never fails; each connection on it is closed. *)
Lemma unwind_run cs : forall w,
  exists w', unwind cs w = (Ok tt, w')
             /\ db w' = (db w ++ flat_map sent_by_exit cs)%list
             /\ stacks w' = stacks w /\ sync w' = sync w
             /\ current w' = current w.
Proof.
  induction cs as [|c r IH]; intros w; simpl.
  - exists w. rewrite app_nil_r. auto.
  - unfold try_finally.
    assert (A : exists w1, aexit c w = (Ok tt, w1)
                           /\ db w1 = (db w ++ sent_by_exit c)%list
                           /\ stacks w1 = stacks w /\ sync w1 = sync w
                           /\ current w1 = current w).
    { destruct c as [s|]; simpl.
      - eexists. split; [reflexivity|].
        destruct (store_fields _ _
                    (store_set_sem s (release (current w) (sem_of s w)) w))
          as (A & B & C & _ & D & _).
        rewrite A, B, C, D, app_nil_r. auto.
      - eexists. split; [reflexivity|]. simpl. auto. }
    destruct A as (w1 & A & D1 & S1 & Y1 & C1). rewrite A.
    destruct (IH w1) as (w2 & U & D2 & S2 & Y2 & C2). rewrite U.
    exists w2. split; [reflexivity|].
    rewrite D2, D1, S2, S1, Y2, Y1, C2, C1, <- app_assoc. auto.
Qed.

Lemma stack_aexit_run st w :
  exists w', stack_aexit st w = (Ok tt, w')
             /\ db w' = (db w ++ flat_map sent_by_exit
                                  (nth st (stacks w) []))%list
             /\ stacks w' = list_set st [] (stacks w)
             /\ sync w' = sync w /\ current w' = current w.
Proof.
  unfold stack_aexit, bind, get, modify.
  destruct (unwind_run (nth st (stacks w) [])
              (set_stacks (list_set st [] (stacks w)) w))
    as (w' & U & D & S & Y & C).
  exists w'. auto.
Qed.

Lemma conn_execute_frame r w :
  db (snd (conn_execute r w)) = (db w ++ [DbInsert r])%list
  /\ stacks (snd (conn_execute r w)) = stacks w
  /\ sync (snd (conn_execute r w)) = sync w.
Proof.
  unfold conn_execute, bind, modify.
  destruct (store_fields _ _ (await_io_store (set_db (db w ++ [DbInsert r]) w)))
    as (A & B & C & _).
  destruct (await_io _) as [[[]|e|] w1]; simpl in *; auto.
Qed.

Lemma conn_commit_frame w :
  db (snd (conn_commit w)) = (db w ++ [DbCommit])%list
  /\ stacks (snd (conn_commit w)) = stacks w
  /\ sync (snd (conn_commit w)) = sync w.
Proof.
  unfold conn_commit, bind, modify.
  destruct (store_fields _ _ (await_io_store (set_db (db w ++ [DbCommit]) w)))
    as (A & B & C & _).
  destruct (await_io _) as [[[]|e|] w1]; simpl in *; auto.
Qed.

(** However the loop of [store_lines] ends, it has sent the inserts of
    the first pairs, in order: all of them when it ends normally, at
    least one when it stops on shutdown. *)
Lemma store_loop_sent self kb : forall w,
  stacks (snd (store_loop self kb w)) = stacks w
  /\ sync (snd (store_loop self kb w)) = sync w
  /\ exists k, k <= length kb
               /\ db (snd (store_loop self kb w))
                  = (db w ++ inserts self (firstn k kb))%list
               /\ (forall a, fst (store_loop self kb w) = Ok a ->
                             k = length kb)
               /\ (forall e, fst (store_loop self kb w) = Raise e ->
                             e = cancelled_error
                             \/ (exc_type e = Shutdown /\ 1 <= k)).
Proof.
  induction kb as [|[key body] r IH]; intros w.
  - simpl. split; [reflexivity|]. split; [reflexivity|].
    exists 0. rewrite app_nil_r. repeat split; auto; discriminate.
  - cbn [store_loop]. unfold bind.
    destruct (conn_execute_frame
                {| string_file := l10n_name self; string_key := key;
                   lang_code := lt_lang_code self; string_body := body |} w)
      as (D & St & Y).
    destruct (conn_execute _ w) as [[[]|e|] w1] eqn:E; simpl in D, St, Y.
    + unfold check_shutdown. destruct (shutdown_requested w1) eqn:F.
      * simpl. split; [exact St|]. split; [exact Y|]. exists 1.
        split; [simpl; lia|]. split; [exact D|].
        split; [discriminate|]. intros e H. injection H as <-. right.
        split; [reflexivity|lia].
      * destruct (IH w1) as (S1 & Y1 & k & Hk & D1 & O1 & R1).
        split; [congruence|]. split; [congruence|]. exists (S k).
        split; [simpl; lia|]. split.
        { rewrite D1, D. cbn [firstn inserts map]. unfold inserts, row_of.
          simpl. now rewrite <- app_assoc. }
        split.
        { intros a Ha. simpl. f_equal. eauto. }
        intros e He. destruct (R1 e He) as [->|[X Y1']]; [now left|].
        right. split; [exact X|lia].
    + simpl. split; [exact St|]. split; [exact Y|]. exists 1.
      split; [simpl; lia|]. split; [exact D|]. split; [discriminate|].
      intros x H. injection H as <-. left.
      unfold conn_execute, bind, modify in E.
      destruct (await_io _) as [[[]|y|] w2] eqn:A; try discriminate.
      injection E as <- _. now apply await_io_raises in A.
    + exfalso. unfold conn_execute, bind, modify in E.
      pose proof (await_io_not_blocked
                    (set_db (db w ++ [DbInsert
                       {| string_file := l10n_name self; string_key := key;
                          lang_code := lt_lang_code self;
                          string_body := body |}]) w)) as N.
      destruct (await_io _) as [[[]|y|] w2]; try discriminate.
      now apply N.
Qed.

Lemma io_call_run (op : db_op) w :
  let r := (modify (fun w => set_db (db w ++ [op]) w) ;; await_io) w in
  db (snd r) = (db w ++ [op])%list
  /\ stacks (snd r) = stacks w /\ sync (snd r) = sync w
  /\ current (snd r) = current w
  /\ fst r <> Blocked
  /\ (forall e, fst r = Raise e -> e = cancelled_error).
Proof.
  unfold bind, modify. cbv zeta.
  destruct (store_fields _ _ (await_io_store (set_db (db w ++ [op]) w)))
    as (A & B & C & _ & D & _).
  pose proof (await_io_not_blocked (set_db (db w ++ [op]) w)) as N.
  destruct (await_io _) as [[[]|e|] w1] eqn:E; simpl in *;
    repeat split; auto; try discriminate.
  intros x H. injection H as <-. now apply await_io_raises in E.
Qed.

Lemma enter_async_context_run st c w :
  let r := enter_async_context st c w in
  db (snd r) = (db w ++ sent_by_enter c)%list
  /\ sync (snd r) = sync w /\ current (snd r) = current w
  /\ match fst r with
     | Ok _ =>
         stacks (snd r) = list_set st (c :: nth st (stacks w) []) (stacks w)
     | Raise e => stacks (snd r) = stacks w /\ e = cancelled_error
     | Blocked => stacks (snd r) = stacks w /\ c <> CmConn
     end.
Proof.
  cbv zeta. destruct (aenter_frame c w) as (D & S1 & Y & C).
  destruct (enter_async_context st c w) as [[[]|e|] w1] eqn:E; simpl.
  - apply enter_async_context_ok in E as (w0 & A & ->).
    rewrite A in *. simpl in *. rewrite S1. auto.
  - apply enter_async_context_raise in E as [A ->].
    rewrite A in *. simpl in *. auto.
  - unfold enter_async_context in E.
    apply bind_blocked in E as [A|(a & w0 & _ & A)]; [|discriminate].
    rewrite A in *. simpl in *. repeat split; auto.
    intros ->. simpl in A.
    destruct (io_call_run DbConnect w) as (_ & _ & _ & _ & N & _).
    cbv zeta in N. rewrite A in N. now apply N.
Qed.

Lemma store_loop_not_blocked self kb : forall w,
  fst (store_loop self kb w) <> Blocked.
Proof.
  induction kb as [|[key body] r IH]; intros w; [discriminate|].
  cbn [store_loop]. unfold bind at 1.
  destruct (io_call_run
              (DbInsert {| string_file := l10n_name self; string_key := key;
                           lang_code := lt_lang_code self;
                           string_body := body |}) w)
    as (_ & _ & _ & _ & N & _).
  cbv zeta in N. unfold conn_execute.
  destruct ((modify _ ;; await_io) w) as [[[]|e|] w1];
    [|discriminate|now elim N].
  unfold bind, check_shutdown. destruct (shutdown_requested w1);
    [discriminate|apply IH].
Qed.

(** Where the block can end: what was sent by then, what is on the exit
    stack, and with which exception. *)
Lemma store_block_run self st w :
  st < length (stacks w) ->
  nth st (stacks w) [] = [] ->
  let kb := combine (keys (sync w)) (lines (sync w)) in
  let r := store_block self st w in
  sync (snd r) = sync w
  /\ length (stacks (snd r)) = length (stacks w)
  /\ match fst r with
     | Ok _ =>
         db (snd r) = (db w ++ DbConnect :: inserts self kb ++ [DbCommit])%list
         /\ nth st (stacks (snd r)) [] = [CmConn; CmSem db_sem]
     | Raise e =>
         (db (snd r) = db w /\ nth st (stacks (snd r)) [] = []
          /\ e = cancelled_error)
         \/ (db (snd r) = (db w ++ [DbConnect])%list
             /\ nth st (stacks (snd r)) [] = [CmSem db_sem]
             /\ e = cancelled_error)
         \/ (exists k, k <= length kb
               /\ db (snd r)
                  = (db w ++ DbConnect :: inserts self (firstn k kb))%list
               /\ nth st (stacks (snd r)) [] = [CmConn; CmSem db_sem])
         \/ (db (snd r)
             = (db w ++ DbConnect :: inserts self kb ++ [DbCommit])%list
             /\ nth st (stacks (snd r)) [] = [CmConn; CmSem db_sem]
             /\ e = cancelled_error)
     | Blocked => db (snd r) = db w /\ nth st (stacks (snd r)) [] = []
     end.
Proof.
  intros L N. cbv zeta. unfold store_block, db_conn, bind, get.
  destruct (enter_async_context_run st (CmSem db_sem) w) as (D1 & Y1 & _ & R1).
  cbv zeta in D1, Y1, R1.
  destruct (enter_async_context st (CmSem db_sem) w) as [[[]|e|] w1];
    simpl in D1, Y1, R1; rewrite app_nil_r in D1; cbn [fst snd].
  2:{ destruct R1 as [R1 ->]. rewrite R1, D1. auto 10. }
  2:{ destruct R1 as [R1 _]. rewrite R1, D1. auto 10. }
  rewrite N in R1.
  assert (L1 : st < length (stacks w1))
    by (rewrite R1, length_list_set; exact L).
  assert (N1 : nth st (stacks w1) [] = [CmSem db_sem])
    by (rewrite R1; now apply nth_list_set_eq).
  assert (Len1 : length (stacks w1) = length (stacks w))
    by (rewrite R1; apply length_list_set).
  destruct (enter_async_context_run st CmConn w1) as (D2 & Y2 & _ & R2).
  cbv zeta in D2, Y2, R2.
  destruct (enter_async_context st CmConn w1) as [[[]|e|] w2];
    simpl in D2, Y2, R2; cbn [fst snd].
  2:{ destruct R2 as [R2 ->]. rewrite R2, D2, D1, Y2, Y1.
      split; [reflexivity|]. split; [exact Len1|]. right. left. auto. }
  2:{ now destruct R2 as [_ R2]. }
  rewrite N1 in R2.
  assert (N2 : nth st (stacks w2) [] = [CmConn; CmSem db_sem])
    by (rewrite R2; now apply nth_list_set_eq).
  assert (Len2 : length (stacks w2) = length (stacks w))
    by (rewrite R2, length_list_set; exact Len1).
  unfold check_shutdown.
  destruct (shutdown_requested w2); cbn [fst snd].
  { split; [congruence|]. split; [exact Len2|].
    right. right. left. exists 0. split; [lia|].
    rewrite D2, D1. simpl. auto. }
  rewrite Y2, Y1.
  set (kb := combine (keys (sync w)) (lines (sync w))).
  destruct (store_loop_sent self kb w2) as (S3 & Y3 & k & Hk & D3 & O3 & _).
  pose proof (store_loop_not_blocked self kb w2) as B3.
  destruct (store_loop self kb w2) as [[[]|e|] w3]; cbn [fst snd] in *;
    [| |now elim B3].
  2:{ split; [congruence|]. split; [congruence|].
      right. right. left. exists k. split; [exact Hk|].
      rewrite D3, D2, D1, S3, <- app_assoc. simpl. auto. }
  rewrite (O3 tt eq_refl), firstn_all in D3.
  destruct (io_call_run DbCommit w3) as (D4 & S4 & Y4 & _ & B4 & E4).
  cbv zeta in D4, S4, Y4, B4, E4. unfold conn_commit.
  fold (@bind unit unit) in D4, S4, Y4, B4, E4.
  destruct ((modify _ ;; await_io) w3) as [[[]|e|] w4]; cbn [fst snd] in *;
    [| |now elim B4].
  - split; [congruence|]. split; [congruence|].
    rewrite D4, D3, D2, D1, S4, S3, <- !app_assoc. simpl. auto.
  - split; [congruence|]. split; [congruence|].
    right. right. right.
    rewrite D4, D3, D2, D1, S4, S3, <- !app_assoc, (E4 e eq_refl).
    simpl. auto.
Qed.

Lemma store_lines_eq self :
  store_lines self
  = (check_shutdown ;;
     nl <- get (fun w => length (lines (sync w))) ;;
     info (lt_name self) ("Storing " ++ str_nat nl ++ " to DB...") ;;
     stack <- AsyncExitStack ;;
     async_with stack (store_block self stack) ;;
     info (lt_name self)
          ("Stored " ++ str_nat nl ++ " to DB in " ++ span ++ ".")).
Proof. reflexivity. Qed.

(** Every way [store_lines] can end, with what it has sent by then. *)
Lemma store_lines_run self w :
  let kb := combine (keys (sync w)) (lines (sync w)) in
  let r := store_lines self w in
  sync (snd r) = sync w
  /\ exists tr,
       db (snd r) = (db w ++ tr)%list
       /\ match fst r with
          | Ok _ => tr = DbConnect :: inserts self kb ++ [DbCommit; DbClose]
          | Raise e =>
              (tr = [] /\ (e = cancelled_error \/ exc_type e = Shutdown))
              \/ (tr = [DbConnect] /\ e = cancelled_error)
              \/ (exists k, k <= length kb
                    /\ tr = DbConnect :: inserts self (firstn k kb)
                                      ++ [DbClose])
              \/ (tr = DbConnect :: inserts self kb ++ [DbCommit; DbClose]
                  /\ e = cancelled_error)
          | Blocked => tr = []
          end.
Proof.
  cbv zeta. rewrite store_lines_eq.
  unfold bind, get, info, emit, modify, AsyncExitStack, async_with,
    try_finally, check_shutdown.
  destruct (shutdown_requested w); cbn [fst snd].
  { split; [reflexivity|]. exists []. rewrite app_nil_r. auto. }
  repeat match goal with
         | |- context [stacks (add_record ?r w)] =>
             change (stacks (add_record r w)) with (stacks w)
         end.
  set (wa := set_stacks _ _).
  assert (La : length (stacks w) < length (stacks wa))
    by (subst wa; simpl; rewrite length_app; simpl; lia).
  assert (Na : nth (length (stacks w)) (stacks wa) [] = [])
    by (subst wa; simpl; rewrite app_nth2, Nat.sub_diag by lia; reflexivity).
  destruct (store_block_run self (length (stacks w)) wa La Na)
    as (Y & _ & R).
  cbv zeta in Y, R.
  change (sync wa) with (sync w) in *. change (db wa) with (db w) in *.
  destruct (store_block self (length (stacks w)) wa) as [[[]|e|] w1];
    cbn [fst snd] in *.
  - destruct R as [D1 N1].
    destruct (stack_aexit_run (length (stacks w)) w1)
      as (w2 & -> & D2 & _ & Y2 & _).
    cbn [fst snd]. split; [simpl; congruence|]. eexists. split.
    + simpl. rewrite D2, N1, D1, <- app_assoc. simpl. reflexivity.
    + now rewrite <- app_assoc.
  - destruct (stack_aexit_run (length (stacks w)) w1)
      as (w2 & -> & D2 & _ & Y2 & _).
    cbn [fst snd]. split; [congruence|].
    destruct R as [(D1 & N1 & ->)|[(D1 & N1 & ->)|[(k & Hk & D1 & N1)
                                                  |(D1 & N1 & ->)]]];
      rewrite D2, N1, D1; simpl.
    + exists []. auto.
    + exists [DbConnect]. rewrite app_nil_r. auto.
    + eexists. split; [rewrite <- app_assoc; simpl; reflexivity|].
      right. right. left. exists k. auto.
    + eexists. split; [rewrite <- app_assoc; simpl; reflexivity|].
      right. right. right. now rewrite <- app_assoc.
  - destruct R as [D1 _]. split; [exact Y|]. exists [].
    now rewrite app_nil_r.
Qed.

(** X2: a language task whose [main] returns normally has sent, on one
    connection, exactly one insert per (key, line) pair, in the order of
    the keys, with the line stripped, then one commit, and has closed the
    connection. *)
Theorem lang_main_stores_every_pair :
  forall (self : SyncLangTask) (w w' : world),
    SyncLangTask_main self w = (Ok tt, w') ->
    db w'
    = (db w ++ DbConnect
            :: inserts self (combine (keys (sync w))
                                     (map strip (lang_file_lines self)))
            ++ [DbCommit; DbClose])%list.
Proof.
  intros self w w' H. unfold SyncLangTask_main in H.
  apply bind_ok in H as ([] & w1 & R & H).
  destruct (read_lines_ok self w w1 R) as (Li & _ & K & D).
  destruct (store_lines_run self w1) as (_ & tr & E & T).
  cbv zeta in E, T. rewrite H in E, T. simpl in E, T.
  rewrite E, T, D, K, Li. reflexivity.
Qed.

Lemma lang_main_stores_every_pair_witness :
  let w := lang_world ["greeting"] in
  db (snd (SyncLangTask_main lang_en w))
  = (db w ++ DbConnect
          :: inserts lang_en (combine (keys (sync w))
                                      (map strip (lang_file_lines lang_en)))
          ++ [DbCommit; DbClose])%list.
Proof.
  apply (lang_main_stores_every_pair lang_en (lang_world ["greeting"])
           (snd (SyncLangTask_main lang_en (lang_world ["greeting"])))).
  vm_compute. reflexivity.
Defined.

(** X3: when [store_lines] stops on shutdown, it has sent no commit:
    either nothing at all (the first check), or the connect, the inserts
    of the first [k] pairs and the close of the connection. *)
Theorem store_lines_shutdown_never_commits :
  forall (self : SyncLangTask) (w w' : world) (e : exc),
    store_lines self w = (Raise e, w') ->
    exc_type e = Shutdown ->
    exists tr,
      db w' = (db w ++ tr)%list
      /\ ~ In DbCommit tr
      /\ (tr = []
          \/ exists k,
               k <= length (combine (keys (sync w)) (lines (sync w)))
               /\ tr = DbConnect
                       :: inserts self
                            (firstn k (combine (keys (sync w))
                                               (lines (sync w))))
                       ++ [DbClose]).
Proof.
  intros self w w' e H X.
  destruct (store_lines_run self w) as (_ & tr & E & T).
  cbv zeta in E, T. rewrite H in E, T. simpl in E, T.
  exists tr. split; [exact E|].
  assert (C : e <> cancelled_error) by (intros ->; discriminate).
  destruct T as [[-> _]|[[_ ->]|[(k & Hk & ->)|[_ ->]]]];
    try (now elim C).
  - split; [intros []|now left].
  - split; [|right; eauto].
    intros [F|F]; [discriminate|].
    apply in_app_iff in F as [F|[F|[]]]; [|discriminate].
    unfold inserts in F. apply in_map_iff in F as (p & F & _).
    discriminate.
Qed.

Lemma store_lines_shutdown_never_commits_witness :
  let w := lang_world_signalled in
  exists tr,
    db (snd (store_lines lang_en w)) = (db w ++ tr)%list
    /\ ~ In DbCommit tr
    /\ (tr = []
        \/ exists k,
             k <= length (combine (keys (sync w)) (lines (sync w)))
             /\ tr = DbConnect
                     :: inserts lang_en
                          (firstn k (combine (keys (sync w))
                                             (lines (sync w))))
                     ++ [DbClose]).
Proof.
  apply (store_lines_shutdown_never_commits lang_en lang_world_signalled
           (snd (store_lines lang_en lang_world_signalled))
           {| exc_type := Shutdown; exc_str := EmptyString |}).
  - vm_compute. reflexivity.
  - reflexivity.
Defined.

(** X4: a commit is all or nothing.  However [store_lines] ends (also
    when it is cancelled), if a commit was sent then the insert of every
    pair was sent before it, on the same connection, which was closed
    after it. *)
Theorem store_lines_commits_all_or_nothing :
  forall (self : SyncLangTask) (w : world),
    exists tr,
      db (snd (store_lines self w)) = (db w ++ tr)%list
      /\ (In DbCommit tr ->
          tr = DbConnect
               :: inserts self (combine (keys (sync w)) (lines (sync w)))
               ++ [DbCommit; DbClose]).
Proof.
  intros self w.
  destruct (store_lines_run self w) as (_ & tr & E & T). cbv zeta in E, T.
  exists tr. split; [exact E|]. intros C.
  assert (N : forall k,
             ~ In DbCommit
                 (DbConnect
                  :: inserts self
                       (firstn k (combine (keys (sync w)) (lines (sync w))))
                  ++ [DbClose])).
  { intros k [F|F]; [discriminate|].
    apply in_app_iff in F as [F|[F|[]]]; [|discriminate].
    unfold inserts in F. apply in_map_iff in F as (p & F & _).
    discriminate. }
  destruct (fst (store_lines self w)) as [[]|e|]; [exact T| |now subst tr].
  destruct T as [[-> _]|[[-> _]|[(k & _ & ->)|[-> _]]]].
  - destruct C.
  - destruct C as [C|[]]. discriminate.
  - now apply N in C.
  - reflexivity.
Qed.

(** ** Reading the keys of a folder *)

Lemma read_keys_loop_run content : forall w,
  let r := read_keys_loop content w in
  store (snd r)
  = store (set_keys (keys (sync (snd r))) w)
  /\ exists k, k <= length content
       /\ keys (sync (snd r))
          = (keys (sync w) ++ map strip (firstn k content))%list
       /\ (forall a, fst r = Ok a -> k = length content)
       /\ (forall e, fst r = Raise e ->
                     e = cancelled_error \/ exc_type e = Shutdown)
       /\ fst r <> Blocked.
Proof.
  induction content as [|l rest IH]; intros w; cbv zeta; cbn [read_keys_loop];
    unfold bind; try unfold ret.
  - pose proof (await_io_store w) as K.
    pose proof (await_io_not_blocked w) as B.
    destruct (await_io w) as [[[]|e|] w1] eqn:E; cbn [fst snd] in *;
      [| |now elim B].
    + split.
      * rewrite K. unfold store. simpl.
        destruct (store_fields _ _ K) as (_ & _ & -> & _).
        now destruct (sync w).
      * exists 0. rewrite app_nil_r.
        destruct (store_fields _ _ K) as (_ & _ & -> & _).
        repeat split; auto; discriminate.
    + split.
      * rewrite K. unfold store. simpl.
        destruct (store_fields _ _ K) as (_ & _ & -> & _).
        now destruct (sync w).
      * exists 0. rewrite app_nil_r.
        destruct (store_fields _ _ K) as (_ & _ & -> & _).
        repeat split; auto; try discriminate.
        intros x H. injection H as <-. left.
        now apply await_io_raises in E.
  - pose proof (await_io_store w) as K.
    pose proof (await_io_not_blocked w) as B.
    destruct (store_fields _ _ K) as (Kd & Ks & Ky & Ko & Kc & Kb).
    destruct (await_io w) as [[[]|e|] w1] eqn:E; cbn [fst snd] in *;
      [| |now elim B].
    + unfold modify, check_shutdown. cbn [shutdown_requested set_keys].
      set (w2 := set_keys (keys (sync w1) ++ [strip l]) w1).
      change (shutdown_requested
                (set_sync {| keys := keys (sync w1) ++ [strip l];
                             langs := langs (sync w1);
                             lines := lines (sync w1) |} w1))
        with (shutdown_requested w2).
      destruct (shutdown_requested w2) eqn:F; cbn [fst snd].
      * split.
        { unfold store. subst w2. simpl. now rewrite Kd, Ks, Ky, Ko, Kc, Kb. }
        exists 1. split; [simpl; lia|]. split.
        { subst w2. simpl. now rewrite Ky. }
        repeat split; try discriminate.
        intros x H. injection H as <-. now right.
      * destruct (IH w2) as (St & k & Hk & Hkeys & O & R & N).
        cbv zeta in St, Hkeys, O, R, N. split.
        { rewrite St. unfold store. subst w2. simpl.
          now rewrite Kd, Ks, Ky, Ko, Kc, Kb. }
        exists (S k). split; [simpl; lia|]. split.
        { rewrite Hkeys. subst w2. simpl. rewrite Ky, <- app_assoc.
          reflexivity. }
        repeat split; auto. intros a Ha. simpl. f_equal. eauto.
    + split.
      * rewrite K. unfold store. simpl. rewrite Ky. now destruct (sync w).
      * exists 0. rewrite app_nil_r, Ky.
        repeat split; auto; try discriminate; try lia.
        intros x H. injection H as <-. left.
        now apply await_io_raises in E.
Qed.

Lemma read_keys_run self w :
  shutdown_requested w = false ->
  let r := read_keys self w in
  exists k,
    k <= length (keys_lines self)
    /\ keys (sync (snd r)) = map strip (firstn k (keys_lines self))
    /\ (forall a, fst r = Ok a -> k = length (keys_lines self))
    /\ (forall e, fst r = Raise e ->
                  e = cancelled_error \/ exc_type e = Shutdown)
    /\ fst r <> Blocked
    /\ store (snd r) = store (set_keys (keys (sync (snd r))) w).
Proof.
  intros F. cbv zeta.
  unfold read_keys, with_open, bind, check_shutdown, info, emit, modify, get,
    try_finally.
  rewrite F.
  set (w0 := set_keys [] _).
  assert (S0 : forall ks, store (set_keys ks w0) = store (set_keys ks w))
    by reflexivity.
  pose proof (await_io_store w0) as K1.
  pose proof (await_io_not_blocked w0) as B1.
  destruct (await_io w0) as [[[]|e|] w1] eqn:E1; cbn [fst snd] in *;
    [| |now elim B1].
  2:{ exists 0. destruct (store_fields _ _ K1) as (_ & _ & Y & _).
      rewrite Y. simpl.
      split; [lia|]. split; [reflexivity|]. split; [discriminate|].
      split; [|split; [discriminate|rewrite K1; reflexivity]].
      intros x H. injection H as <-. left. now apply await_io_raises in E1. }
  destruct (read_keys_loop_run (keys_lines self) w1)
    as (St & k & Hk & Hkeys & O & R & N).
  cbv zeta in St, Hkeys, O, R, N.
  assert (Y1 : keys (sync w1) = [])
    by (destruct (store_fields _ _ K1) as (_ & _ & -> & _); reflexivity).
  rewrite Y1 in Hkeys. simpl in Hkeys.
  assert (St' : store (snd (read_keys_loop (keys_lines self) w1))
                = store (set_keys
                           (keys (sync (snd (read_keys_loop
                                               (keys_lines self) w1)))) w)).
  { rewrite St, <- S0. unfold store in *. simpl.
    destruct (store_fields _ _ K1) as (-> & -> & -> & -> & -> & ->).
    reflexivity. }
  clear St.
  destruct (read_keys_loop (keys_lines self) w1) as [[[]|e|] w2];
    cbn [fst snd] in *; [| |now elim N].
  - pose proof (await_io_store w2) as K2.
    pose proof (await_io_not_blocked w2) as B2.
    destruct (store_fields _ _ K2) as (_ & _ & Y2 & _).
    destruct (await_io w2) as [[[]|e|] w3] eqn:E2; cbn [fst snd] in *;
      [| |now elim B2]; exists k; simpl; rewrite ?Y2;
      (split; [exact Hk|]); (split; [exact Hkeys|]).
    + split; [auto|]. split; [discriminate|]. split; [discriminate|].
      exact (eq_trans K2 St').
    + split; [discriminate|]. split; [|split; [discriminate|]].
      * intros x H. injection H as <-. left.
        now apply await_io_raises in E2.
      * exact (eq_trans K2 St').
  - pose proof (await_io_store w2) as K2.
    pose proof (await_io_not_blocked w2) as B2.
    destruct (store_fields _ _ K2) as (_ & _ & Y2 & _).
    destruct (await_io w2) as [[[]|e'|] w3] eqn:E2; cbn [fst snd] in *;
      [| |now elim B2]; exists k; simpl; rewrite ?Y2;
      (split; [exact Hk|]); (split; [exact Hkeys|]).
    + split; [discriminate|]. split; [|split; [discriminate|]].
      * intros x H. injection H as <-. now apply R.
      * exact (eq_trans K2 St').
    + split; [discriminate|]. split; [|split; [discriminate|]].
      * intros x H. injection H as <-. left.
        now apply await_io_raises in E2.
      * exact (eq_trans K2 St').
Qed.

(** X5: [read_keys], started while no shutdown is requested, replaces the
    keys by the stripped lines of [keys.txt], in file order: all of them
    when it returns normally, the first [k] of them when it is stopped by
    a shutdown or a cancellation.  It changes nothing else the coroutines
    own: the lines, the language tasks, the statements sent and the exit
    stacks are as before. *)
Theorem read_keys_reads_a_prefix :
  forall (self : SyncFolderTask) (w : world),
    shutdown_requested w = false ->
    let r := read_keys self w in
    exists k,
      k <= length (keys_lines self)
      /\ keys (sync (snd r)) = map strip (firstn k (keys_lines self))
      /\ (forall a, fst r = Ok a -> k = length (keys_lines self))
      /\ lines (sync (snd r)) = lines (sync w)
      /\ langs (sync (snd r)) = langs (sync w)
      /\ db (snd r) = db w
      /\ stacks (snd r) = stacks w.
Proof.
  intros self w F. cbv zeta.
  destruct (read_keys_run self w F) as (k & Hk & Hkeys & O & _ & _ & St).
  cbv zeta in Hkeys, O, St. exists k.
  destruct (store_fields _ _ St) as (D & S1 & Y & _).
  rewrite Y, D, S1. repeat split; auto.
Qed.

Lemma read_keys_reads_a_prefix_witness :
  let r := read_keys folder_menu folder_world in
  exists k,
    k <= length (keys_lines folder_menu)
    /\ keys (sync (snd r)) = map strip (firstn k (keys_lines folder_menu))
    /\ (forall a, fst r = Ok a -> k = length (keys_lines folder_menu))
    /\ lines (sync (snd r)) = lines (sync folder_world)
    /\ langs (sync (snd r)) = langs (sync folder_world)
    /\ db (snd r) = db folder_world
    /\ stacks (snd r) = stacks folder_world.
Proof.
  apply (read_keys_reads_a_prefix folder_menu folder_world).
  reflexivity.
Defined.

(** ** Finding the language files of a folder *)

Lemma executions_app o l a w :
  executions o (set_all_tasks (l ++ [a]) w)
  = length (filter (fun a => match t_obj a with
                             | Some x => Nat.eqb x o
                             | None => false
                             end) l)
    + match t_obj a with
      | Some x => if Nat.eqb x o then 1 else 0
      | None => 0
      end.
Proof.
  unfold executions. cbn [all_tasks set_all_tasks].
  rewrite filter_app, length_app. simpl.
  destruct (t_obj a) as [x|]; [destruct (Nat.eqb x o)|]; reflexivity.
Qed.

Lemma filter_list_set {A} (p : A -> bool) (l : list A) : forall i a b,
  nth_error l i = Some a -> p b = p a ->
  length (filter p (list_set i b l)) = length (filter p l).
Proof.
  induction l as [|x r IH]; intros i a b H E; [reflexivity|].
  destruct i; simpl in *.
  - injection H as ->. rewrite E. now destruct (p a).
  - destruct (p x); simpl; erewrite IH; eauto.
Qed.

(** The loop's events start no [Task] object and forget none. *)
Lemma executions_apply_event o e w :
  executions o (snd (apply_event e w)) = executions o w.
Proof.
  destruct e; simpl; try reflexivity.
  - unfold executions. simpl. destruct (sem_step _ _); [|reflexivity].
    now destruct s.
  - unfold executions. simpl. unfold finish_task.
    destruct (nth_error (all_tasks w) t) as [a|] eqn:E; [|reflexivity].
    destruct (done a); [reflexivity|].
    eapply filter_list_set; eauto.
  - rewrite executions_app. simpl. unfold executions. lia.
Qed.

Lemma await_io_quiet w :
  store (snd (await_io w)) = store w
  /\ forall o, executions o (snd (await_io w)) = executions o w.
Proof.
  split; [apply await_io_store|]. intros o.
  unfold await_io, await_until.
  pose proof (await_loop_inv
                (fun w' => executions o w' = executions o w)) as I.
  specialize (I (fun e w' H =>
                   eq_trans (executions_apply_event o e w') H)
                (fun l w' H => H)
                (fun w0 => negb (io_pending w0))
                (script (set_io_pending true w)) None
                (set_io_pending true w) eq_refl).
  cbv beta in I.
  destruct (await_loop _ None _ _) as [[?|?|] w1]; simpl in *; exact I.
Qed.

Lemma list_set_last {A} (l : list A) x y :
  list_set (length l) x (l ++ [y]) = (l ++ [x])%list.
Proof. induction l as [|a r IH]; simpl; [reflexivity|]. now rewrite IH. Qed.

Lemma created_step k n o :
  (if Nat.eqb k o then 1 else 0) + created (S k) n o = created k (S n) o.
Proof.
  unfold created.
  destruct (Nat.eqb_spec k o), (Nat.leb_spec (S k) o), (Nat.leb_spec k o),
    (Nat.ltb_spec o (S k + n)), (Nat.ltb_spec o (k + S n)); simpl; lia.
Qed.

Lemma find_loop_ok self es : forall w w',
  find_loop self es w = (Ok tt, w') ->
  exists added,
    objs w' = (objs w ++ added)%list
    /\ Forall2 (lang_object self) (filter is_language es) added
    /\ langs (sync w')
       = (langs (sync w) ++ seq (length (objs w)) (length added))%list
    /\ keys (sync w') = keys (sync w)
    /\ lines (sync w') = lines (sync w)
    /\ db w' = db w
    /\ forall o, executions o w'
                 = executions o w + created (length (objs w)) (length added) o.
Proof.
  assert (Z : forall k o, created k 0 o = 0).
  { intros k o. unfold created.
    destruct (Nat.leb_spec k o), (Nat.ltb_spec o (k + 0)); simpl; lia. }
  induction es as [|entry rest IH]; intros w w' H.
  - injection H as <-. exists []. rewrite !app_nil_r. simpl.
    repeat split; auto. intros o. rewrite Z. lia.
  - cbn [find_loop] in H. unfold is_language. cbn [filter].
    apply bind_ok in H as ([] & w1 & H1 & H).
    destruct (String.eqb (lower (e_name entry)) "keys.txt").
    { injection H1 as <-. apply IH, H. }
    destruct (LANG_PATTERN_fullmatch (e_name entry)).
    2:{ injection H1 as <-. apply IH, H. }
    cbn [negb andb] in *.
    apply bind_ok in H1 as ([] & w2 & A & H1).
    destruct (await_io_quiet w) as [K X]. rewrite A in K, X.
    cbn [snd] in K, X.
    destruct (store_fields _ _ K) as (Kd & Ks & Ky & Ko & _).
    destruct (e_is_file entry); cbn [negb] in H1.
    2:{ injection H1 as <-.
        destruct (IH _ _ H) as (added & I1 & I2 & I3 & I4 & I5 & I6 & I7).
        exists added. rewrite I1, I3, I4, I5, I6, Ko, Ky, Kd.
        repeat split; auto. intros o. now rewrite I7, X, Ko. }
    apply bind_ok in H1 as ([] & w3 & C & H1).
    apply check_shutdown_ok in C as [-> _].
    unfold Task_init, AsyncExitStack in H1. unfold bind at 1 2 in H1.
    cbn [objs set_stacks] in H1.
    unfold bind at 1, modify at 1 in H1.
    set (o0 := {| name := ft_name self ++ "/" ++ stem (e_name entry);
                  _task := None; task_sem := Some SyncLangTask_SEM;
                  _stack := length (stacks w2) |}) in H1.
    set (w4 := set_langs _ _) in H1.
    assert (G : nth_error (objs w4) (length (objs w2)) = Some o0).
    { subst w4. simpl. rewrite nth_error_app2, Nat.sub_diag by lia.
      reflexivity. }
    unfold bind at 1 in H1. rewrite (start_spec _ _ _ G) in H1.
    injection H1 as <-.
    destruct (IH _ _ H) as (added & I1 & I2 & I3 & I4 & I5 & I6 & I7).
    clear H IH. cbn [objs set_objs] in I1, I3, I7.
    subst w4. cbn [objs set_langs set_sync set_objs set_stacks] in I1, I3, I7.
    rewrite list_set_last in I1, I3, I7.
    eexists (_ :: added). split; [rewrite I1, Ko, <- app_assoc; reflexivity|].
    split.
    { constructor; [|exact I2]. repeat split. discriminate. }
    split.
    { rewrite I3. simpl. rewrite length_app, Ky, Ko, <- app_assoc. simpl.
      now rewrite Nat.add_1_r. }
    split; [rewrite I4; simpl; now rewrite Ky|].
    split; [rewrite I5; simpl; now rewrite Ky|].
    split; [rewrite I6; simpl; exact Kd|].
    intros o. rewrite I7, length_app. simpl.
    unfold executions at 1. cbn [all_tasks set_objs set_all_tasks].
    rewrite filter_app, length_app. simpl.
    fold (executions o w2). rewrite X, Ko, Nat.add_1_r.
    rewrite <- created_step.
    destruct (Nat.eqb (length (objs w)) o); simpl; lia.
Qed.

(** X6: when [find_languages] returns normally, it has created one task
    object for each directory entry that is not [keys.txt] (whatever the
    case of its name), whose name matches [LANG_PATTERN] and which is a
    file, in the order of the directory, and none for any other entry;
    each is named after the folder and the stem of the file, takes the
    semaphore of [SyncLangTask], was appended to [self.langs] and was
    started exactly once; no other object was started, and the keys, the
    lines and the statements sent are as before. *)
Theorem find_languages_starts_each_language_once :
  forall (self : SyncFolderTask) (w w' : world),
    find_languages self w = (Ok tt, w') ->
    exists added,
      objs w' = (objs w ++ added)%list
      /\ Forall2 (lang_object self) (filter is_language (entries self)) added
      /\ langs (sync w')
         = (langs (sync w) ++ seq (length (objs w)) (length added))%list
      /\ keys (sync w') = keys (sync w)
      /\ lines (sync w') = lines (sync w)
      /\ db w' = db w
      /\ forall o, executions o w'
                   = executions o w
                     + created (length (objs w)) (length added) o.
Proof.
  intros self w w' H. unfold find_languages in H.
  apply bind_ok in H as ([] & w1 & C & H).
  apply check_shutdown_ok in C as [-> _].
  apply bind_ok in H as ([] & w2 & L & H). injection L as <-.
  apply bind_ok in H as ([] & w3 & A & H).
  apply bind_ok in H as ([] & w4 & C & H).
  apply check_shutdown_ok in C as [-> _].
  apply bind_ok in H as ([] & w5 & F & H).
  injection H as <-.
  match type of A with
  | await_io ?x = _ => destruct (await_io_quiet x) as [K X]
  end.
  rewrite A in K, X. cbn [snd] in K, X.
  destruct (store_fields _ _ K) as (Kd & _ & Ky & Ko & _).
  simpl in Kd, Ky, Ko.
  destruct (find_loop_ok self _ _ _ F)
    as (added & I1 & I2 & I3 & I4 & I5 & I6 & I7).
  exists added.
  split; [simpl; rewrite I1, Ko; reflexivity|]. split; [exact I2|].
  split; [simpl; rewrite I3, Ko, Ky; reflexivity|].
  split; [simpl; rewrite I4, Ky; reflexivity|].
  split; [simpl; rewrite I5, Ky; reflexivity|].
  split; [simpl; rewrite I6, Kd; reflexivity|].
  intros o.
  change (executions o w5 = executions o w
                            + created (length (objs w)) (length added) o).
  rewrite I7, X, Ko. reflexivity.
Qed.

Lemma find_languages_starts_each_language_once_witness :
  let w := folder_world in
  let w' := snd (find_languages folder_menu w) in
  exists added,
    objs w' = (objs w ++ added)%list
    /\ Forall2 (lang_object folder_menu)
               (filter is_language (entries folder_menu)) added
    /\ langs (sync w')
       = (langs (sync w) ++ seq (length (objs w)) (length added))%list
    /\ keys (sync w') = keys (sync w)
    /\ lines (sync w') = lines (sync w)
    /\ db w' = db w
    /\ forall o, executions o w'
                 = executions o w
                   + created (length (objs w)) (length added) o.
Proof.
  apply (find_languages_starts_each_language_once folder_menu folder_world
           (snd (find_languages folder_menu folder_world))).
  vm_compute. reflexivity.
Defined.

(** The entries of the example folder that get a task. *)
Example folder_menu_languages :
  map e_name (filter is_language (entries folder_menu))
  = ["en.txt"; "pt_BR.txt"].
Proof. vm_compute. reflexivity. Qed.

(** ** The pattern of language files *)

Lemma lang_char_not_dot c :
  is_lang_char c = true -> Ascii.eqb c "."%char = false.
Proof.
  intros H. destruct (Ascii.eqb_spec c "."%char) as [->|]; [|reflexivity].
  vm_compute in H. discriminate.
Qed.

Lemma lang_tail_iff r :
  lang_tail r = true
  <-> exists q, forallb is_lang_char (list_ascii_of_string q) = true
                /\ r = q ++ ".txt".
Proof.
  split.
  - induction r as [|c r IH]; cbn [lang_tail]; [discriminate|].
    destruct (String.eqb_spec (String c r) ".txt") as [E|E].
    + intros _. exists "". split; [reflexivity|exact E].
    + intros H. apply andb_prop in H as [C T].
      destruct (IH T) as (q & Q & ->).
      exists (String c q). simpl. now rewrite C, Q.
  - intros (q & Q & ->). induction q as [|c q IH]; [reflexivity|].
    simpl in Q. apply andb_prop in Q as [C Q].
    cbn [append lang_tail].
    destruct (String.eqb _ ".txt"); [reflexivity|].
    now rewrite C, IH.
Qed.

Lemma stem_rest_of_language p :
  forallb is_lang_char (list_ascii_of_string p) = true ->
  stem_rest (p ++ ".txt") = p.
Proof.
  induction p as [|c p IH]; intros H; [reflexivity|].
  simpl in H. apply andb_prop in H as [C H].
  cbn [append stem_rest]. rewrite (lang_char_not_dot c C). simpl.
  now rewrite IH.
Qed.

Lemma stem_of_language p :
  p <> "" ->
  forallb is_lang_char (list_ascii_of_string p) = true ->
  stem (p ++ ".txt") = p.
Proof.
  destruct p as [|c p]; intros N H; [now elim N|].
  simpl in H. apply andb_prop in H as [_ H].
  cbn [append stem]. now rewrite stem_rest_of_language.
Qed.

(** X7: a name matches [LANG_PATTERN] exactly when it is a non-empty run
    of letters, [_] and [-] followed by [.txt]; that run is then the stem
    of the name, that is, the language code the task takes.  The name
    [keys.txt] is of this form too, so that only the test before the
    pattern keeps the key file from being read as a language. *)
Theorem LANG_PATTERN_matches_code_dot_txt :
  (forall s : string,
     LANG_PATTERN_fullmatch s = true
     <-> (stem s <> ""
          /\ forallb is_lang_char (list_ascii_of_string (stem s)) = true
          /\ s = stem s ++ ".txt"))
  /\ LANG_PATTERN_fullmatch "keys.txt" = true.
Proof.
  split; [|reflexivity]. intros s. split.
  - destruct s as [|c r]; [discriminate|]. simpl LANG_PATTERN_fullmatch.
    intros H. apply andb_prop in H as [C T].
    apply lang_tail_iff in T as (q & Q & ->).
    assert (P : forallb is_lang_char (list_ascii_of_string (String c q))
                = true) by (simpl; now rewrite C, Q).
    change (String c (q ++ ".txt")) with (String c q ++ ".txt").
    assert (NE : String c q <> EmptyString) by discriminate.
    rewrite (stem_of_language _ NE P).
    repeat split; [discriminate|exact P].
  - intros (N & P & E). destruct (stem s) as [|c q]; [now elim N|].
    rewrite E. simpl in P. apply andb_prop in P as [C Q].
    simpl. rewrite C. simpl. apply lang_tail_iff. eauto.
Qed.

(** ** Waiting for tasks *)

Lemma wait_run self o w :
  nth_error (objs w) self = Some o ->
  wait self w
  = match _task o with
    | Some h => (Ok (Some h), w)
    | None => (Ok (Some (length (all_tasks w))), snd (start self w))
    end.
Proof.
  intros Ho. unfold wait, bind. unfold get_obj at 1. rewrite Ho.
  assert (L : self < length (objs w)) by (apply nth_error_Some; congruence).
  destruct (_task o) as [h|] eqn:Ht.
  - unfold ret, get_obj. now rewrite Ho, Ht.
  - rewrite (start_spec self o w Ho). unfold ret, get_obj.
    cbn [objs set_objs set_all_tasks snd].
    now rewrite nth_error_list_set_eq.
Qed.

Lemma handle_of_start self o w x :
  nth_error (objs w) self = Some o ->
  handle_of (snd (start self w)) x
  = if Nat.eqb self x then Some (length (all_tasks w)) else handle_of w x.
Proof.
  intros Ho. rewrite (start_spec self o w Ho). unfold handle_of.
  cbn [objs set_objs set_all_tasks snd].
  assert (L : self < length (objs w)) by (apply nth_error_Some; congruence).
  destruct (Nat.eqb_spec self x) as [<-|N].
  - now rewrite nth_error_list_set_eq.
  - now rewrite nth_error_list_set_ne.
Qed.

Lemma executions_start self o w x :
  nth_error (objs w) self = Some o ->
  executions x (snd (start self w))
  = executions x w + (if Nat.eqb self x then 1 else 0).
Proof.
  intros Ho. rewrite (start_spec self o w Ho). cbn [snd].
  unfold executions at 1. cbn [all_tasks set_objs set_all_tasks].
  rewrite filter_app, length_app. simpl.
  destruct (Nat.eqb self x); reflexivity.
Qed.

Lemma wait_all_ok tasks : forall w futs w',
  wait_all tasks w = (Ok futs, w') ->
  Forall2 (fun self h => handle_of w' self = Some h) tasks futs
  /\ (forall x h, handle_of w x = Some h -> handle_of w' x = Some h)
  /\ (forall x, unstarted w x = false -> unstarted w' x = false)
  /\ (forall x, ~ In x tasks -> handle_of w' x = handle_of w x)
  /\ (forall o, executions o w' = executions o w + started_by w tasks o)
  /\ store (set_objs [] w') = store (set_objs [] w).
Proof.
  induction tasks as [|t r IH]; intros w futs w' H.
  - injection H as <- <-. unfold started_by. simpl.
    repeat split; auto.
  - cbn [wait_all] in H. apply bind_ok in H as (h & w1 & W & H).
    apply bind_ok in H as (hs & w2 & A & H). injection H as <- <-.
    unfold wait, bind in W. unfold get_obj at 1 in W.
    destruct (nth_error (objs w) t) as [o|] eqn:Ho; [|discriminate].
    fold (bind (A:=unit) (B:=option tid)) in W.
    assert (W' : wait t w = (Ok h, w1)).
    { unfold wait, bind. unfold get_obj at 1. rewrite Ho. exact W. }
    clear W. rewrite (wait_run t o w Ho) in W'.
    destruct (IH _ _ _ A) as (I1 & I2 & I3 & I4 & I5 & I6). clear IH A.
    destruct (_task o) as [h0|] eqn:Ht; injection W' as <- <-.
    + assert (G : handle_of w t = Some h0)
        by (unfold handle_of; now rewrite Ho).
      split; [constructor; auto|]. split; [exact I2|]. split; [exact I3|].
      split; [intros x N; apply I4; intros F; apply N; now right|].
      split; [|exact I6].
      intros x. rewrite I5. unfold started_by. cbn [existsb].
      destruct (Nat.eqb_spec x t) as [->|N]; [|reflexivity].
      unfold unstarted. rewrite Ho, Ht, !andb_false_r. reflexivity.
    + pose proof (fun x => handle_of_start t o w x Ho) as HS.
      pose proof (fun x => executions_start t o w x Ho) as ES.
      split.
      { constructor; [|exact I1]. apply I2. rewrite HS.
        now rewrite Nat.eqb_refl. }
      split.
      { intros x h Hx. apply I2. rewrite HS.
        destruct (Nat.eqb_spec t x) as [<-|N]; [|exact Hx].
        unfold handle_of in Hx. rewrite Ho, Ht in Hx. discriminate. }
      assert (U : forall x, unstarted (snd (start t w)) x
                            = if Nat.eqb t x then false else unstarted w x).
      { intros x. rewrite (start_spec t o w Ho). unfold unstarted.
        cbn [objs set_objs set_all_tasks snd].
        assert (L : t < length (objs w))
          by (apply nth_error_Some; congruence).
        destruct (Nat.eqb_spec t x) as [<-|N].
        - now rewrite nth_error_list_set_eq.
        - now rewrite nth_error_list_set_ne. }
      split.
      { intros x Hx. apply I3. rewrite U, Hx. now destruct (Nat.eqb t x). }
      split.
      { intros x N. rewrite I4 by (intros F; apply N; now right).
        rewrite HS. destruct (Nat.eqb_spec t x) as [<-|N']; [|reflexivity].
        elim N. now left. }
      split.
      { intros x. rewrite I5, ES. unfold started_by. cbn [existsb].
        rewrite U, (Nat.eqb_sym x t).
        destruct (Nat.eqb_spec t x) as [<-|N].
        - unfold unstarted. rewrite Ho, Ht, andb_false_r. simpl. lia.
        - simpl. lia. }
      rewrite I6. rewrite (start_spec t o w Ho). reflexivity.
Qed.

(** X8: when the calls [t.wait()] that [gather] makes for its tasks all
    return, their handles come in the order of the tasks, a task that had
    a handle keeps it, and exactly the tasks without one were started,
    once each, also when a task is listed twice; no other object is
    touched, and neither the statements sent nor the pipeline's lists
    change. *)
Theorem wait_all_starts_the_unstarted_once :
  forall (tasks : list nat) (w w' : world) (futs : list tid),
    wait_all tasks w = (Ok futs, w') ->
    Forall2 (fun self h => handle_of w' self = Some h) tasks futs
    /\ (forall x h, handle_of w x = Some h -> handle_of w' x = Some h)
    /\ (forall x, ~ In x tasks -> handle_of w' x = handle_of w x)
    /\ (forall o, executions o w' = executions o w + started_by w tasks o)
    /\ db w' = db w /\ sync w' = sync w.
Proof.
  intros tasks w w' futs H.
  destruct (wait_all_ok tasks w futs w' H) as (A & B & _ & C & D & E).
  destruct (store_fields _ _ E) as (Ed & _ & Ey & _).
  repeat split; auto.
Qed.

Lemma wait_all_starts_the_unstarted_once_witness :
  let w := snd (start 1 two_langs) in
  let r := wait_all [0; 1; 0] w in
  fst r = Ok [2; 1; 2]
  /\ executions 0 (snd r) = 1 /\ executions 1 (snd r) = 1.
Proof.
  split; [vm_compute; reflexivity|].
  destruct (wait_all_starts_the_unstarted_once [0; 1; 0]
              (snd (start 1 two_langs)) (snd (wait_all [0; 1; 0]
                                               (snd (start 1 two_langs))))
              [2; 1; 2]) as (_ & _ & _ & D & _).
  - vm_compute. reflexivity.
  - split; rewrite D; vm_compute; reflexivity.
Defined.

(** ** Whom the drain loop cancels *)

Lemma current_apply_event e w : current (snd (apply_event e w)) = current w.
Proof.
  destruct e; simpl; try reflexivity.
  destruct (sem_step (sem_of s w) e); [now destruct s|reflexivity].
Qed.

Lemma await_loop_spares cond evs timeout w :
  spared w (snd (await_loop cond timeout evs w)).
Proof.
  apply (await_loop_inv (spared w)).
  - intros e x (A & B & C). split; [|split].
    + now rewrite current_apply_event.
    + intros t. now rewrite all_tasks_apply_event.
    + intros t D. rewrite done_stays; [now apply C|].
      unfold is_done in *. now rewrite C.
  - intros l x H. exact H.
  - repeat split.
Qed.

Lemma cleanup_round_spares w :
  let r := cleanup_round (remaining_tasks w) w in
  current (snd r) = current w
  /\ (forall t, t = current w \/ is_done (all_tasks w) t = true ->
                cancels_of (all_tasks (snd r)) t = cancels_of (all_tasks w) t)
  /\ (forall t, is_done (all_tasks w) t = true ->
                state_of (all_tasks (snd r)) t = state_of (all_tasks w) t)
  /\ (forall e, fst r = Raise e -> e = cancelled_error).
Proof.
  cbv zeta. rewrite cleanup_round_eq. cbv zeta. unfold await_until.
  set (ts := remaining_tasks w).
  set (wb := set_all_tasks _ _).
  destruct (await_loop_spares (all_done ts) (script wb) (Some 5) wb)
    as (A & B & C).
  pose proof (await_loop_raises (all_done ts) (script wb) (Some 5) wb) as R.
  assert (Out : forall t, t = current w \/ is_done (all_tasks w) t = true ->
                          cancels_of (all_tasks wb) t
                          = cancels_of (all_tasks w) t).
  { intros t Ht. unfold wb. cbn [all_tasks set_all_tasks add_record set_log].
    rewrite cancels_of_cancel_all.
    - destruct (existsb (Nat.eqb t) ts) eqn:X; [|reflexivity].
      apply existsb_exists in X as (u & Hu & E).
      apply Nat.eqb_eq in E. subst u.
      apply remaining_tasks_spec in Hu as (_ & N & D).
      destruct Ht as [->|Ht]; [now elim N|congruence].
    - apply remaining_tasks_NoDup.
    - intros u Hu. apply remaining_tasks_spec in Hu as (L & _ & D). auto. }
  assert (St : forall t, state_of (all_tasks wb) t = state_of (all_tasks w) t).
  { intros t. unfold wb. cbn [all_tasks set_all_tasks add_record set_log].
    apply state_of_cancel_all. }
  destruct (await_loop (all_done ts) (Some 5) (script wb) wb)
    as [[k|x|] wc] eqn:E; cbn [fst snd] in *.
  - split; [exact A|]. split; [|split; [|discriminate]].
    + intros t Ht. cbn [all_tasks add_record set_log]. rewrite B. auto.
    + intros t Ht. cbn [all_tasks add_record set_log].
      rewrite C, St; [reflexivity|]. unfold is_done in *. now rewrite St.
  - split; [exact A|]. split; [|split].
    + intros t Ht. rewrite B. auto.
    + intros t Ht. rewrite C, St; [reflexivity|].
      unfold is_done in *. now rewrite St.
    + intros e H. injection H as <-. eapply R; reflexivity.
  - split; [exact A|]. split; [|split; [|discriminate]].
    + intros t Ht. rewrite B. auto.
    + intros t Ht. rewrite C, St; [reflexivity|].
      unfold is_done in *. now rewrite St.
Qed.

Lemma cleanup_loop_n_spares fuel : forall w,
  let r := cleanup_loop_n fuel w in
  current (snd r) = current w
  /\ (forall t, t = current w \/ is_done (all_tasks w) t = true ->
                cancels_of (all_tasks (snd r)) t = cancels_of (all_tasks w) t)
  /\ (forall t, is_done (all_tasks w) t = true ->
                state_of (all_tasks (snd r)) t = state_of (all_tasks w) t)
  /\ (forall e, fst r = Raise e -> e = cancelled_error).
Proof.
  induction fuel as [|n IH]; intros w; cbv zeta.
  - simpl. repeat split; auto; discriminate.
  - rewrite cleanup_loop_n_S.
    destruct (remaining_tasks w) as [|t0 r0] eqn:R.
    { simpl. repeat split; auto; discriminate. }
    rewrite <- R.
    destruct (cleanup_round_spares w) as (A & B & C & D). cbv zeta in *.
    destruct (cleanup_round (remaining_tasks w) w) as [[[]|x|] w1];
      cbn [fst snd] in *; [|repeat split; auto|repeat split; auto].
    destruct (IH w1) as (A1 & B1 & C1 & D1). cbv zeta in *.
    split; [congruence|]. split; [|split; [|exact D1]].
    + intros t Ht. rewrite B1, B; auto.
      destruct Ht as [->|Ht]; [left; congruence|right].
      unfold is_done in *. now rewrite C.
    + intros t Ht. rewrite C1, C; auto. unfold is_done in *. now rewrite C.
Qed.

(** X9: the drain loop never sends a cancel request to the task that
    runs it, nor to a task that is done when it begins; the state of
    those done tasks stays; and the only exception that comes out of it
    is the [CancelledError] thrown into its wait. *)
Theorem cleanup_loop_spares_caller_and_done :
  forall w : world,
    let r := cleanup_loop w in
    current (snd r) = current w
    /\ cancels_of (all_tasks (snd r)) (current w)
       = cancels_of (all_tasks w) (current w)
    /\ (forall t, is_done (all_tasks w) t = true ->
                  cancels_of (all_tasks (snd r)) t
                  = cancels_of (all_tasks w) t
                  /\ state_of (all_tasks (snd r)) t
                     = state_of (all_tasks w) t)
    /\ (forall e, fst r = Raise e -> e = cancelled_error).
Proof.
  intros w. cbv zeta. unfold cleanup_loop.
  destruct (cleanup_loop_n_spares (S (S (length (script w)))) w)
    as (A & B & C & D).
  cbv zeta in *. split; [exact A|]. split; [apply B; now left|].
  split; [|exact D]. intros t Ht. split; [apply B; now right|now apply C].
Qed.

(** ** async_main *)

Lemma cleanup_loop_returns w w' :
  cleanup_loop w = (Ok tt, w') -> remaining_tasks w' = [].
Proof. unfold cleanup_loop. apply cleanup_loop_n_returns. Qed.

Lemma cleanup_loop_raises w e w' :
  cleanup_loop w = (Raise e, w') -> e = cancelled_error.
Proof.
  intros H. unfold cleanup_loop in H.
  destruct (cleanup_loop_n_spares (S (S (length (script w)))) w)
    as (_ & _ & _ & D).
  cbv zeta in D. apply D. now rewrite H.
Qed.

(** X10: when [async_main] returns, no task but its own is pending,
    whatever [_db_prepare] and [sub_main] did; a [Shutdown] never comes
    out of it, and a [CancelledError] only when the drain loop itself is
    cancelled. *)
Theorem async_main_drains_and_keeps_shutdown_in :
  forall (_db_prepare sub_main : M unit) (w : world),
    match async_main _db_prepare sub_main w with
    | (Ok _, w') => remaining_tasks w' = []
    | (Raise e, _) =>
        isinstance e Shutdown = false
        /\ (isinstance e CancelledError = true -> e = cancelled_error)
    | (Blocked, _) => True
    end.
Proof.
  intros dbp sm w. unfold async_main. unfold bind at 1. unfold get at 1.
  unfold try_finally.
  match goal with
  | |- context [try_except ?b ?h w] =>
      destruct (try_except b h w) as [[[]|e|] w1] eqn:E
  end.
  - destruct (cleanup_loop w1) as [[[]|x|] w2] eqn:C.
    + now apply cleanup_loop_returns in C.
    + apply cleanup_loop_raises in C as ->. split; [reflexivity|auto].
    + exact I.
  - assert (X : isinstance e Shutdown = false
                /\ isinstance e CancelledError = false).
    { unfold try_except in E.
      match type of E with
      | (let (_, _) := ?b in _) = _ => destruct b as [[[]|x|] w0]
      end; try discriminate.
      destruct (isinstance x CancelledError) eqn:I1; [discriminate|].
      destruct (isinstance x Shutdown) eqn:I2; [discriminate|].
      destruct (isinstance x Exception); injection E as <- _; auto. }
    destruct X as [X1 X2].
    destruct (cleanup_loop w1) as [[[]|x|] w2] eqn:C.
    + split; [exact X1|]. congruence.
    + apply cleanup_loop_raises in C as ->. split; [reflexivity|auto].
    + exact I.
  - exact I.
Qed.

(** X11: when the shutdown is already requested, [async_main] runs
    neither [_db_prepare] nor [sub_main]: it logs the warning of the
    shutdown and goes to the drain loop. *)
Theorem async_main_after_shutdown_only_drains :
  forall (_db_prepare sub_main : M unit) (w : world),
    shutdown_requested w = true ->
    async_main _db_prepare sub_main w
    = (warning (base_name w) "Shutdown before completion." ;;
       cleanup_loop) w.
Proof.
  intros dbp sm w F.
  unfold async_main, _async_post, bind, get, try_finally, try_except,
    check_shutdown.
  rewrite F. simpl.
  destruct (cleanup_loop _) as [[[]|x|] w2]; reflexivity.
Qed.

Lemma async_main_after_shutdown_only_drains_witness :
  async_main (raise no_such_object) (raise no_such_object) world_shut
  = (warning (base_name world_shut) "Shutdown before completion." ;;
     cleanup_loop) world_shut.
Proof.
  apply (async_main_after_shutdown_only_drains
           (raise no_such_object) (raise no_such_object) world_shut).
  reflexivity.
Defined.

(** ** The default sub_main *)

Lemma apply_event_not_blocked e w : fst (apply_event e w) <> Blocked.
Proof. destruct e; discriminate. Qed.

Lemma await_loop_timeout_ends cond evs : forall n w,
  fst (await_loop cond (Some n) evs w) <> Blocked.
Proof.
  induction evs as [|e r IH]; intros n w; simpl;
    destruct (cond w); try discriminate.
  - destruct n; discriminate.
  - destruct n; [discriminate|].
    pose proof (apply_event_not_blocked e w) as B.
    destruct (apply_event e w) as [[[]|x|] w1]; simpl in *;
      [destruct e; apply IH|discriminate|now elim B].
Qed.

Lemma asyncio_sleep_ends n w :
  fst (asyncio_sleep n w) <> Blocked
  /\ (forall e, fst (asyncio_sleep n w) = Raise e -> e = cancelled_error).
Proof.
  unfold asyncio_sleep, bind, await_until, ret.
  pose proof (await_loop_timeout_ends (fun _ => false) (script w) n w) as B.
  pose proof (await_loop_raises (fun _ => false) (script w) (Some n) w) as R.
  destruct (await_loop _ _ _ _) as [[k|x|] w1]; simpl in *;
    split; try discriminate; auto.
  intros e H. injection H as <-. eapply R. reflexivity.
Qed.

Lemma asyncio_sleep_empty w :
  script w = [] -> asyncio_sleep 1 w = (Ok tt, set_script [] w).
Proof.
  intros H. unfold asyncio_sleep, bind, await_until, ret. now rewrite H.
Qed.

Lemma asyncio_sleep_progress w e r :
  script w = e :: r ->
  length (script (snd (asyncio_sleep 1 w))) <= length r.
Proof.
  intros H. unfold asyncio_sleep, bind, await_until, ret. rewrite H.
  pose proof (await_loop_progress (fun _ => false) 0 e r w eq_refl) as P.
  destruct (await_loop _ _ _ _) as [[k|x|] w1]; exact P.
Qed.

Lemma sub_main_n_idle f : forall w,
  script w = [] -> shutdown_requested w = false ->
  fst (sub_main_n f w) = Blocked.
Proof.
  induction f as [|n IH]; intros w Sc F; [reflexivity|].
  cbn [sub_main_n]. unfold bind at 1. rewrite (asyncio_sleep_empty w Sc).
  unfold bind, get. cbn [shutdown_requested set_script]. rewrite F.
  apply IH; [reflexivity|exact F].
Qed.

(** Fuel beyond the length of the script changes nothing. *)
Lemma sub_main_n_fuel f : forall f' w,
  length (script w) < f -> length (script w) < f' ->
  same_end (sub_main_n f w) (sub_main_n f' w).
Proof.
  induction f as [|n IH]; intros f' w Hf Hf'; [lia|].
  destruct f' as [|n']; [lia|]. cbn [sub_main_n]. unfold bind at 1 3.
  destruct (script w) as [|e r] eqn:Sc.
  - rewrite (asyncio_sleep_empty w Sc). unfold bind, get.
    cbn [shutdown_requested set_script].
    destruct (shutdown_requested w) eqn:F.
    + split; [reflexivity|intros; reflexivity].
    + assert (B : forall k, fst (sub_main_n k (set_script [] w)) = Blocked)
        by (intros k; now apply sub_main_n_idle).
      split; [now rewrite !B|]. intros X. elim X. apply B.
  - pose proof (asyncio_sleep_progress w e r Sc) as P.
    destruct (asyncio_sleep 1 w) as [[[]|x|] w1]; cbn [snd] in P.
    + unfold bind, get. destruct (shutdown_requested w1).
      * split; [reflexivity|intros; reflexivity].
      * apply IH; simpl in *; lia.
    + split; [reflexivity|intros; reflexivity].
    + split; [reflexivity|intros; reflexivity].
Qed.

Lemma sub_main_n_blocked f : forall f' w,
  f' <= f -> fst (sub_main_n f w) = Blocked ->
  fst (sub_main_n f' w) = Blocked.
Proof.
  induction f as [|n IH]; intros f' w L B.
  - now replace f' with 0 by lia.
  - destruct f' as [|n']; [reflexivity|].
    cbn [sub_main_n] in *. unfold bind at 1 in B. unfold bind at 1.
    destruct (asyncio_sleep 1 w) as [[[]|x|] w1]; try exact B.
    unfold bind, get in *. destruct (shutdown_requested w1); [exact B|].
    apply IH; [lia|exact B].
Qed.

Lemma sub_main_n_ends f : forall w,
  match sub_main_n f w with
  | (Ok _, w') => shutdown_requested w' = true
  | (Raise e, _) => e = cancelled_error
  | (Blocked, _) => True
  end.
Proof.
  induction f as [|n IH]; intros w; [exact I|].
  cbn [sub_main_n]. unfold bind at 1.
  destruct (asyncio_sleep_ends 1 w) as [_ R].
  destruct (asyncio_sleep 1 w) as [[[]|x|] w1]; cbn [fst] in R; auto.
  unfold bind, get. destruct (shutdown_requested w1) eqn:F; [exact F|].
  apply IH.
Qed.

(** X12: the default [sub_main] returns only when the shutdown is
    requested; the only exception that comes out of it is the
    [CancelledError] thrown into its sleep; and when it has not returned
    after one round more than the script has events, it never returns:
    no number of rounds makes it end, and any larger number gives the
    same end. *)
Theorem Base_sub_main_returns_only_on_shutdown :
  forall w : world,
    match Base_sub_main w with
    | (Ok _, w') => shutdown_requested w' = true
    | (Raise e, _) => e = cancelled_error
    | (Blocked, _) => forall fuel, fst (sub_main_n fuel w) = Blocked
    end
    /\ forall fuel, length (script w) < fuel ->
                    same_end (sub_main_n fuel w) (Base_sub_main w).
Proof.
  intros w. split.
  - pose proof (sub_main_n_ends (S (length (script w))) w) as E.
    unfold Base_sub_main.
    destruct (sub_main_n (S (length (script w))) w) as [[[]|x|] w1] eqn:H;
      try exact E.
    intros fuel.
    destruct (Nat.le_gt_cases fuel (S (length (script w)))) as [L|L].
    + apply (sub_main_n_blocked (S (length (script w)))); [exact L|].
      now rewrite H.
    + destruct (sub_main_n_fuel fuel (S (length (script w))) w) as [A _];
        [lia|lia|]. now rewrite A, H.
  - intros fuel L. unfold Base_sub_main. apply sub_main_n_fuel; lia.
Qed.

(** ** sleep_or_shutdown *)

(** X13: [sleep_or_shutdown] always ends: it never waits for ever and a
    [TimeoutError] never comes out of it, only the [CancelledError]
    thrown into its wait; it uses up a prefix of the script with at most
    [sleep] ticks of the clock; and called when the shutdown is already
    requested it returns [False] at once, without waiting. *)
Theorem sleep_or_shutdown_ends_in_time :
  forall (sleep : nat) (w : world),
    let r := sleep_or_shutdown sleep w in
    fst r <> Blocked
    /\ (forall e, fst r = Raise e -> e = cancelled_error)
    /\ (exists used,
          script w = (used ++ script (snd r))%list /\ ticks used <= sleep)
    /\ (shutdown_requested w = true -> r = (Ok false, w)).
Proof.
  intros sleep w. cbv zeta.
  unfold sleep_or_shutdown, wait_for_shutdown_requested, await_until,
    try_except, bind, get, ret, raise.
  destruct (shutdown_requested w) eqn:F.
  { split; [discriminate|]. split; [discriminate|].
    split; [|reflexivity]. exists []. split; [reflexivity|].
    unfold ticks. simpl. lia. }
  pose proof (await_loop_timeout_ends shutdown_requested (script w) sleep w)
    as B.
  pose proof (await_loop_raises shutdown_requested (script w) (Some sleep) w)
    as R.
  destruct (await_loop_used shutdown_requested (script w) (Some sleep) w)
    as (used & U & T).
  destruct (await_loop _ _ _ _) as [[[]|x|] w1] eqn:E; cbn [fst snd] in *;
    [| | |now elim B].
  - split; [discriminate|]. split; [discriminate|].
    split; [eauto|discriminate].
  - simpl. split; [discriminate|]. split; [discriminate|].
    split; [eauto|discriminate].
  - rewrite (R x w1 eq_refl). simpl.
    split; [discriminate|]. split; [|split; [eauto|discriminate]].
    intros e H. now injection H as <-.
Qed.

(** ** The folder task as a whole *)

Lemma sync_kept_by_asyncio_gather re futs w :
  sync (snd (asyncio_gather re futs w)) = sync w.
Proof.
  apply (preserves_asyncio_gather (fun w' => sync w' = sync w)); intros;
    assumption || reflexivity.
Qed.

Lemma gather_ok tasks w w' :
  gather tasks false w = (Ok tt, w') ->
  sync w' = sync w
  /\ forall self, In self tasks ->
       exists h, handle_of w' self = Some h
                 /\ state_of (all_tasks w') h = Finished.
Proof.
  intros H. unfold gather in H.
  apply bind_ok in H as (futs & w1 & W & H).
  apply bind_ok in H as (rs & w2 & G & H). injection H as <-.
  destruct (wait_all_ok tasks w futs w1 W) as (A & _ & _ & _ & _ & St).
  destruct (store_fields _ _ St) as (_ & _ & Y & _). simpl in Y.
  pose proof (asyncio_gather_spec futs w1) as Sp.
  pose proof (objs_kept_by_asyncio_gather false futs w1) as O.
  pose proof (sync_kept_by_asyncio_gather false futs w1) as Y2.
  rewrite G in Sp, O, Y2. simpl in O, Y2.
  split; [congruence|].
  intros self Hs.
  assert (X : forall l1 l2, Forall2 (fun s h => handle_of w1 s = Some h) l1 l2 ->
                            In self l1 ->
                            exists h, In h l2 /\ handle_of w1 self = Some h).
  { induction 1 as [|s h l1 l2 E F IH]; intros []; subst; eauto.
    - exists h. split; [now left|exact E].
    - destruct (IH H) as (h' & I1 & I2). exists h'. split; [now right|exact I2]. }
  destruct (X _ _ A Hs) as (h & I1 & I2). exists h. split.
  - unfold handle_of in *. now rewrite O.
  - now apply Sp.
Qed.

Lemma read_keys_ok self w w1 :
  read_keys self w = (Ok tt, w1) ->
  keys (sync w1) = map strip (keys_lines self)
  /\ store w1 = store (set_keys (keys (sync w1)) w).
Proof.
  intros H.
  assert (F : shutdown_requested w = false).
  { destruct (shutdown_requested w) eqn:F; [|reflexivity].
    unfold read_keys, bind, check_shutdown in H. rewrite F in H.
    discriminate. }
  destruct (read_keys_run self w F) as (k & _ & K & O & _ & _ & St).
  cbv zeta in K, O, St. rewrite H in K, O, St. cbn [fst snd] in *.
  rewrite (O tt eq_refl), firstn_all in K. auto.
Qed.

(** X14: when [SyncFolderTask.main] returns normally, the keys are the
    stripped lines of [keys.txt], one language task was created for each
    language file of the folder, and every task in [self.langs] has a
    handle whose execution finished without an exception. *)
Theorem folder_main_returns_after_all_languages :
  forall (self : SyncFolderTask) (w w' : world),
    SyncFolderTask_main self w = (Ok tt, w') ->
    keys (sync w') = map strip (keys_lines self)
    /\ langs (sync w')
       = (langs (sync w)
          ++ seq (length (objs w))
                 (length (filter is_language (entries self))))%list
    /\ forall o, In o (langs (sync w')) ->
         exists h, handle_of w' o = Some h
                   /\ state_of (all_tasks w') h = Finished.
Proof.
  intros self w w' H. unfold SyncFolderTask_main in H.
  apply bind_ok in H as ([] & w0 & L & H). injection L as <-.
  apply bind_ok in H as ([] & w1 & R & H).
  apply bind_ok in H as ([] & w2 & F & H).
  apply bind_ok in H as (nk & w3 & G & H). injection G as <- <-.
  apply bind_ok in H as ([] & w3 & L & H). injection L as <-.
  apply bind_ok in H as ([] & w4 & C & H).
  apply check_shutdown_ok in C as [-> _].
  apply bind_ok in H as (ls & w5 & G & H). injection G as <- <-.
  apply bind_ok in H as ([] & w6 & G & H). injection H as <-.
  destruct (read_keys_ok _ _ _ R) as (K & St).
  destruct (store_fields _ _ St) as (_ & _ & Y1 & O1 & _).
  assert (FL : exists added,
             objs w2 = (objs w1 ++ added)%list
             /\ Forall2 (lang_object self)
                        (filter is_language (entries self)) added
             /\ langs (sync w2)
                = (langs (sync w1)
                   ++ seq (length (objs w1)) (length added))%list
             /\ keys (sync w2) = keys (sync w1)).
  { unfold find_languages in F.
    apply bind_ok in F as ([] & x1 & C & F).
    apply check_shutdown_ok in C as [-> _].
    apply bind_ok in F as ([] & x2 & L & F). injection L as <-.
    apply bind_ok in F as ([] & x3 & A & F).
    apply bind_ok in F as ([] & x4 & C & F).
    apply check_shutdown_ok in C as [-> _].
    apply bind_ok in F as ([] & x5 & FLo & F). injection F as <-.
    match type of A with
    | await_io ?x = _ => destruct (await_io_quiet x) as [Kq _]
    end.
    rewrite A in Kq. cbn [snd] in Kq.
    destruct (store_fields _ _ Kq) as (_ & _ & Ky & Ko & _).
    simpl in Ky, Ko.
    destruct (find_loop_ok self _ _ _ FLo)
      as (added & I1 & I2 & I3 & I4 & _).
    exists added. simpl. rewrite I1, I3, I4, Ko, Ky. auto. }
  destruct FL as (added & I1 & I2 & I3 & I4).
  destruct (gather_ok _ _ _ G) as (Y6 & Fin).
  simpl in Y6, Fin. simpl in Y1, O1.
  assert (Len : length added = length (filter is_language (entries self)))
    by (symmetry; eapply Forall2_length; eauto).
  split; [simpl; rewrite Y6; simpl; now rewrite I4|].
  split.
  - simpl. rewrite Y6. simpl. rewrite I3, Len, Y1, O1. reflexivity.
  - intros o Ho. simpl in Ho. rewrite Y6 in Ho. simpl in Ho.
    destruct (Fin o Ho) as (h & A & B). exists h. auto.
Qed.

Lemma folder_main_returns_after_all_languages_witness :
  let w := folder_world_run in
  let w' := snd (SyncFolderTask_main folder_menu w) in
  keys (sync w') = map strip (keys_lines folder_menu)
  /\ langs (sync w')
     = (langs (sync w)
        ++ seq (length (objs w))
               (length (filter is_language (entries folder_menu))))%list
  /\ forall o, In o (langs (sync w')) ->
       exists h, handle_of w' o = Some h
                 /\ state_of (all_tasks w') h = Finished.
Proof.
  apply (folder_main_returns_after_all_languages folder_menu folder_world_run
           (snd (SyncFolderTask_main folder_menu folder_world_run))).
  vm_compute. reflexivity.
Defined.

(** ** Permits are given back *)

Lemma permits_frame w w' :
  sems w' = sems w -> current w' = current w ->
  forall s, permits s w' = permits s w.
Proof.
  intros A B s. unfold permits, sem_of. rewrite A, B. reflexivity.
Qed.

Lemma foreign_frame w w' :
  script w' = script w -> current w' = current w ->
  foreign_script w -> foreign_script w'.
Proof. unfold foreign_script. now intros -> ->. Qed.

Lemma stacks_kept_refl w w' : stacks w' = stacks w -> stacks_kept w w'.
Proof. intros E. unfold stacks_kept. rewrite E. auto. Qed.

Lemma stacks_kept_trans w1 w2 w3 :
  stacks_kept w1 w2 -> stacks_kept w2 w3 -> stacks_kept w1 w3.
Proof.
  intros [A B] [C D]. split; [lia|].
  intros st L. rewrite D, B; [reflexivity|exact L|lia].
Qed.

Lemma keeps_ret {A} (a : A) : keeps (ret a).
Proof.
  intros w F _. simpl. split; [reflexivity|]. split; [exact F|].
  split; [reflexivity|now apply stacks_kept_refl].
Qed.

Lemma keeps_raise {A} e : keeps (@raise A e).
Proof.
  intros w F _. simpl. split; [reflexivity|]. split; [exact F|].
  split; [reflexivity|now apply stacks_kept_refl].
Qed.

Lemma keeps_get {A} (f : world -> A) : keeps (get f).
Proof.
  intros w F _. simpl. split; [reflexivity|]. split; [exact F|].
  split; [reflexivity|now apply stacks_kept_refl].
Qed.

Lemma keeps_modify f :
  (forall w, sems (f w) = sems w /\ current (f w) = current w
             /\ script (f w) = script w /\ stacks (f w) = stacks w) ->
  keeps (modify f).
Proof.
  intros H w F _. destruct (H w) as (A & B & C & D). simpl.
  split; [exact B|]. split; [now apply (foreign_frame w)|].
  split; [now apply permits_frame|now apply stacks_kept_refl].
Qed.

Lemma keeps_bind {A B} (m : M A) (k : A -> M B) :
  keeps m -> (forall a, keeps (k a)) -> keeps (bind m k).
Proof.
  intros Hm Hk w F N. unfold bind in *.
  specialize (Hm w F).
  destruct (m w) as [[a|e|] w1]; cbn [fst snd] in *;
    [|apply Hm; discriminate|now elim N].
  destruct Hm as (A1 & F1 & P1 & S1); [discriminate|].
  destruct (Hk a w1 F1 N) as (A2 & F2 & P2 & S2).
  split; [congruence|]. split; [exact F2|].
  split; [intros s; now rewrite P2|].
  eapply stacks_kept_trans; eauto.
Qed.

Lemma keeps_try_finally {A} (body : M A) (fin : M unit) :
  keeps body -> keeps fin -> keeps (try_finally body fin).
Proof.
  intros Hb Hf w F N. unfold try_finally in *.
  specialize (Hb w F).
  destruct (body w) as [[a|e|] w1]; cbn [fst snd] in *; [| |now elim N];
    (destruct Hb as (A1 & F1 & P1 & S1); [discriminate|]);
    specialize (Hf w1 F1);
    destruct (fin w1) as [[[]|x|] w2]; cbn [fst snd] in *;
    try (now elim N);
    (destruct Hf as (A2 & F2 & P2 & S2); [discriminate|]);
    (split; [congruence|]); (split; [exact F2|]);
    (split; [intros s; now rewrite P2|]);
    eapply stacks_kept_trans; eauto.
Qed.

Lemma keeps_try_except {A} (body : M A) (h : exc -> M A) :
  keeps body -> (forall e, keeps (h e)) -> keeps (try_except body h).
Proof.
  intros Hb Hh w F N. unfold try_except in *.
  specialize (Hb w F).
  destruct (body w) as [[a|e|] w1]; cbn [fst snd] in *;
    [apply Hb; discriminate| |now elim N].
  destruct Hb as (A1 & F1 & P1 & S1); [discriminate|].
  destruct (Hh e w1 F1 N) as (A2 & F2 & P2 & S2).
  split; [congruence|]. split; [exact F2|].
  split; [intros s; now rewrite P2|].
  eapply stacks_kept_trans; eauto.
Qed.

Lemma keeps_emit l msg ei : keeps (emit l msg ei).
Proof. apply keeps_modify. intros w. repeat split. Qed.

Lemma keeps_check_shutdown : keeps check_shutdown.
Proof.
  intros w F _. unfold check_shutdown.
  destruct (shutdown_requested w); simpl;
    (split; [reflexivity|]); (split; [exact F|]);
    (split; [reflexivity|now apply stacks_kept_refl]).
Qed.

Lemma holders_wake_up_next s : holders (_wake_up_next s) = holders s.
Proof. unfold _wake_up_next. now destruct (wake_first (_waiters s)). Qed.

Lemma count_remove_one t me : forall l,
  count_occ Nat.eq_dec (remove_one t l) me
  = if Nat.eqb t me then pred (count_occ Nat.eq_dec l me)
    else count_occ Nat.eq_dec l me.
Proof.
  induction l as [|u r IH]; simpl.
  - now destruct (Nat.eqb t me).
  - destruct (Nat.eqb_spec u t) as [->|N].
    + destruct (Nat.eq_dec t me) as [->|N'].
      * now rewrite Nat.eqb_refl.
      * apply Nat.eqb_neq in N'. now rewrite N'.
    + simpl. rewrite IH.
      destruct (Nat.eq_dec u me) as [->|N'].
      * apply Nat.eqb_neq in N. rewrite Nat.eqb_sym in N. rewrite N.
        reflexivity.
      * reflexivity.
Qed.

Lemma sem_step_foreign s ev s' me :
  sem_step s ev = Some s' -> sem_event_task ev <> me ->
  count_occ Nat.eq_dec (holders s') me = count_occ Nat.eq_dec (holders s) me.
Proof.
  destruct ev as [t|t|t|t|t]; simpl; intros H N.
  - destruct (waiter_of t (_waiters s)); [discriminate|].
    injection H as <-. unfold acquire_call.
    destruct (negb (locked s)); simpl; [|reflexivity].
    now destruct (Nat.eq_dec t me).
  - destruct (waiter_of t (_waiters s)) as [[]|]; try discriminate.
    injection H as <-. unfold acquire_resume. cbv zeta.
    match goal with
    | |- context [if ?b then _ else _] => destruct b
    end; rewrite ?holders_wake_up_next; simpl;
      now destruct (Nat.eq_dec t me).
  - destruct (waiter_of t (_waiters s)); [|discriminate].
    now injection H as <-.
  - destruct (waiter_of t (_waiters s)) as [[]|] eqn:E; try discriminate;
      injection H as <-; unfold acquire_cancelled; cbv zeta; rewrite E;
      rewrite ?holders_wake_up_next; reflexivity.
  - destruct (existsb (Nat.eqb t) (holders s)); [|discriminate].
    injection H as <-. unfold release. rewrite holders_wake_up_next.
    simpl. rewrite count_remove_one.
    apply Nat.eqb_neq in N. now rewrite N.
Qed.

Lemma sem_of_set_sem_ne s s' v w :
  s <> s' -> sem_of s (set_sem s' v w) = sem_of s w.
Proof. destruct s, s'; congruence || reflexivity. Qed.

Lemma sem_id_eqb_spec a b : reflect (a = b) (sem_id_eqb a b).
Proof. destruct a, b; constructor; congruence. Qed.

Lemma permits_set_sem s s' v w :
  permits s (set_sem s' v w)
  = if sem_id_eqb s s' then count_occ Nat.eq_dec (holders v) (current w)
    else permits s w.
Proof.
  unfold permits. destruct (sem_id_eqb_spec s s') as [->|N].
  - rewrite sem_of_set_sem. now destruct s'.
  - rewrite sem_of_set_sem_ne by assumption. now destruct s'.
Qed.

Lemma current_set_sem s v w : current (set_sem s v w) = current w.
Proof. now destruct s. Qed.

Lemma script_set_sem s v w : script (set_sem s v w) = script w.
Proof. now destruct s. Qed.

Lemma stacks_set_sem s v w : stacks (set_sem s v w) = stacks w.
Proof. now destruct s. Qed.

Lemma apply_event_foreign e w :
  foreign (current w) e = true ->
  (forall s, permits s (snd (apply_event e w)) = permits s w)
  /\ stacks (snd (apply_event e w)) = stacks w.
Proof.
  destruct e; simpl; intros F; try (split; [intros []|]; reflexivity).
  destruct (sem_step (sem_of s w) e) as [s'|] eqn:E;
    [|split; reflexivity].
  split; [|apply stacks_set_sem].
  intros s0. rewrite permits_set_sem.
  destruct (sem_id_eqb_spec s0 s) as [->|N]; [|reflexivity].
  apply (sem_step_foreign _ _ _ (current w)) in E; [exact E|].
  apply negb_true_iff, Nat.eqb_neq in F. exact F.
Qed.

Lemma await_loop_foreign cond evs : forall timeout w,
  forallb (foreign (current w)) evs = true ->
  let w' := snd (await_loop cond timeout evs w) in
  current w' = current w
  /\ forallb (foreign (current w)) (script w') = true
  /\ (forall s, permits s w' = permits s w)
  /\ stacks w' = stacks w.
Proof.
  induction evs as [|e r IH]; intros timeout w F; cbv zeta; simpl.
  - destruct (cond w); [simpl; repeat split; intros []; reflexivity|].
    destruct timeout as [[|n]|]; simpl; repeat split; intros [];
      reflexivity.
  - simpl in F. apply andb_prop in F as [Fe Fr].
    destruct (cond w).
    { simpl. rewrite Fe, Fr. repeat split; intros []; reflexivity. }
    assert (Stop : forall x : result wake,
               current (snd (x, set_script (e :: r) w)) = current w
               /\ forallb (foreign (current w))
                    (script (snd (x, set_script (e :: r) w))) = true
               /\ (forall s, permits s (snd (x, set_script (e :: r) w))
                             = permits s w)
               /\ stacks (snd (x, set_script (e :: r) w)) = stacks w).
    { intros x. simpl. rewrite Fe, Fr. repeat split; intros [];
        reflexivity. }
    destruct (apply_event_foreign e w Fe) as [Pe Se].
    pose proof (current_apply_event e w) as Ce.
    assert (Step : forall t,
               let w' := snd (match apply_event e w with
                              | (Ok _, w') => await_loop cond t r w'
                              | (Raise x, w') => (Raise x, set_script r w')
                              | (Blocked, w') => (Blocked, set_script r w')
                              end) in
               current w' = current w
               /\ forallb (foreign (current w)) (script w') = true
               /\ (forall s, permits s w' = permits s w)
               /\ stacks w' = stacks w).
    { intros t. cbv zeta.
      destruct (apply_event e w) as [[[]|x|] w1]; cbn [snd] in *.
      - destruct (IH t w1) as (A & B & C & D); [now rewrite Ce|].
        cbv zeta in *. rewrite Ce in *.
        split; [exact A|]. split; [exact B|].
        split; [intros s; now rewrite C|congruence].
      - simpl. rewrite Fr. split; [exact Ce|]. split; [reflexivity|].
        split; [|exact Se].
        intros s. rewrite <- Pe. apply permits_frame; reflexivity.
      - simpl. rewrite Fr. split; [exact Ce|]. split; [reflexivity|].
        split; [|exact Se].
        intros s. rewrite <- Pe. apply permits_frame; reflexivity. }
    destruct timeout as [[|n]|].
    + apply Stop.
    + apply Step.
    + apply Step.
Qed.

Lemma keeps_await_until cond timeout : keeps (await_until cond timeout).
Proof.
  intros w F _. unfold await_until.
  destruct (await_loop_foreign cond (script w) timeout w F) as (A & B & C & D).
  cbv zeta in *. split; [exact A|].
  split; [unfold foreign_script; now rewrite A|].
  split; [exact C|now apply stacks_kept_refl].
Qed.

Lemma keeps_await_io : keeps await_io.
Proof.
  intros w F _. unfold await_io, await_until.
  destruct (await_loop_foreign (fun w0 => negb (io_pending w0))
              (script (set_io_pending true w)) None
              (set_io_pending true w) F) as (A & B & C & D).
  cbv zeta in *.
  destruct (await_loop _ None _ _) as [[k|x|] w1]; cbn [fst snd] in *.
  - split; [exact A|]. split; [unfold foreign_script; now rewrite A|].
    split; [|now apply stacks_kept_refl].
    intros s. rewrite C. apply permits_frame; reflexivity.
  - split; [exact A|]. split; [unfold foreign_script; simpl; now rewrite A|].
    split; [|now apply stacks_kept_refl].
    intros s. transitivity (permits s w1);
      [apply permits_frame; reflexivity|].
    rewrite C. apply permits_frame; reflexivity.
  - split; [exact A|]. split; [unfold foreign_script; simpl; now rewrite A|].
    split; [|now apply stacks_kept_refl].
    intros s. transitivity (permits s w1);
      [apply permits_frame; reflexivity|].
    rewrite C. apply permits_frame; reflexivity.
Qed.

Lemma keeps_info self msg : keeps (info self msg).
Proof. apply keeps_emit. Qed.

Lemma keeps_warning self msg : keeps (warning self msg).
Proof. apply keeps_emit. Qed.

Lemma keeps_error_exc self msg e ei : keeps (error_exc self msg e ei).
Proof. apply keeps_emit. Qed.

Lemma keeps_error_raise {A} self t msg : keeps (@error_raise A self t msg).
Proof.
  apply keeps_bind; [apply keeps_emit|intros; apply keeps_raise].
Qed.

Lemma keeps_with_open {A} (body : M A) : keeps body -> keeps (with_open body).
Proof.
  intros H. apply keeps_bind; [apply keeps_await_io|intros _].
  apply keeps_try_finally; [exact H|apply keeps_await_io].
Qed.

Lemma keeps_read_loop content : keeps (read_loop content).
Proof.
  induction content as [|l r IH]; cbn [read_loop].
  - apply keeps_bind; [apply keeps_await_io|intros; apply keeps_ret].
  - apply keeps_bind; [apply keeps_await_io|intros _].
    apply keeps_bind; [apply keeps_modify; intros w; repeat split|intros _].
    apply keeps_bind; [apply keeps_check_shutdown|intros _]. exact IH.
Qed.

Lemma keeps_read_lines self : keeps (read_lines self).
Proof.
  unfold read_lines, read_lines_file.
  apply keeps_bind; [|intros _].
  { apply keeps_bind; [apply keeps_check_shutdown|intros _].
    apply keeps_bind; [apply keeps_info|intros _].
    apply keeps_bind; [apply keeps_modify; intros w; repeat split|intros _].
    apply keeps_with_open, keeps_read_loop. }
  apply keeps_bind; [apply keeps_get|intros nl].
  apply keeps_bind; [apply keeps_get|intros nk].
  apply keeps_bind; [|intros _; apply keeps_info].
  destruct (negb _); [|apply keeps_ret].
  apply keeps_bind; [apply keeps_get|intros; apply keeps_error_raise].
Qed.

Lemma keeps_io_call op :
  keeps (modify (fun w => set_db (db w ++ [op]) w) ;; await_io).
Proof.
  apply keeps_bind; [apply keeps_modify; intros w; repeat split|intros _].
  apply keeps_await_io.
Qed.

Lemma keeps_store_loop self kb : keeps (store_loop self kb).
Proof.
  induction kb as [|[key body] r IH]; cbn [store_loop]; [apply keeps_ret|].
  apply keeps_bind; [apply keeps_io_call|intros _].
  apply keeps_bind; [apply keeps_check_shutdown|intros _]. exact IH.
Qed.

(** How an acquisition changes the permits of the task. *)
Lemma sem_acquire_permits s w :
  foreign_script w ->
  let r := sem_acquire s w in
  current (snd r) = current w
  /\ foreign_script (snd r)
  /\ stacks (snd r) = stacks w
  /\ forall s', permits s' (snd r)
                = permits s' w
                  + match fst r with
                    | Ok _ => if sem_id_eqb s' s then 1 else 0
                    | _ => 0
                    end.
Proof.
  intros F. cbv zeta. unfold sem_acquire.
  destruct (acquire_call (current w) (sem_of s w)) as [[|] s1] eqn:E.
  - cbn [fst snd]. unfold acquire_call in E.
    destruct (negb (locked (sem_of s w))); [|discriminate].
    injection E as <-.
    split; [apply current_set_sem|].
    split; [unfold foreign_script;
            now rewrite current_set_sem, script_set_sem|].
    split; [apply stacks_set_sem|].
    intros s'. rewrite permits_set_sem.
    destruct (sem_id_eqb_spec s' s) as [->|N]; [|lia].
    simpl. unfold permits.
    destruct (Nat.eq_dec (current w) (current w)); [lia|congruence].
  - assert (H1 : holders s1 = holders (sem_of s w)).
    { unfold acquire_call in E.
      destruct (negb (locked (sem_of s w))); [discriminate|].
      now injection E as <-. }
    set (w1 := set_sem s s1 w).
    assert (F1 : forallb (foreign (current w1)) (script w1) = true).
    { unfold w1. now rewrite current_set_sem, script_set_sem. }
    assert (P1 : forall s', permits s' w1 = permits s' w).
    { intros s'. unfold w1. rewrite permits_set_sem.
      destruct (sem_id_eqb_spec s' s) as [->|N]; [|reflexivity].
      now rewrite H1. }
    unfold await_until.
    destruct (await_loop_foreign
                (fun w0 => has_result (current w) (sem_of s w0))
                (script w1) None w1 F1) as (A & B & C & D).
    cbv zeta in *.
    assert (C1 : current w1 = current w) by apply current_set_sem.
    assert (S1 : stacks w1 = stacks w) by apply stacks_set_sem.
    destruct (await_loop _ None _ _) as [[k|x|] w2]; cbn [fst snd] in *.
    + split; [rewrite current_set_sem; congruence|].
      split; [unfold foreign_script;
              rewrite current_set_sem, script_set_sem, A; exact B|].
      split; [rewrite stacks_set_sem; congruence|].
      intros s'. rewrite permits_set_sem.
      destruct (sem_id_eqb_spec s' s) as [->|N];
        [|rewrite C, P1; lia].
      rewrite <- P1, <- C. unfold permits, acquire_resume. cbv zeta.
      match goal with
      | |- context [if ?b then _ else _] => destruct b
      end; rewrite ?holders_wake_up_next; simpl; rewrite A, C1;
        destruct (Nat.eq_dec (current w) (current w)); lia || congruence.
    + split; [rewrite current_set_sem; congruence|].
      split; [unfold foreign_script;
              rewrite current_set_sem, script_set_sem, A; exact B|].
      split; [rewrite stacks_set_sem; congruence|].
      intros s'. rewrite permits_set_sem.
      destruct (sem_id_eqb_spec s' s) as [->|N];
        [|rewrite C, P1; lia].
      rewrite <- P1, <- C, Nat.add_0_r. unfold permits, acquire_cancelled.
      cbv zeta.
      destruct (waiter_of (current w) (_waiters (sem_of s w2))) as [[]|];
        rewrite ?holders_wake_up_next; simpl; now rewrite A, C1.
    + split; [congruence|].
      split; [unfold foreign_script; rewrite A; exact B|].
      split; [congruence|].
      intros s'. now rewrite C, P1, Nat.add_0_r.
Qed.

Lemma sem_release_permits s w :
  forall s', permits s' (snd (sem_release s w))
             = permits s' w - (if sem_id_eqb s' s then 1 else 0).
Proof.
  intros s'. rewrite sem_release_run. cbn [snd].
  rewrite permits_set_sem.
  destruct (sem_id_eqb_spec s' s) as [->|N]; [|lia].
  unfold release. rewrite holders_wake_up_next. simpl.
  rewrite count_remove_one, Nat.eqb_refl. unfold permits. lia.
Qed.

Lemma nth_list_set_ne {A} (l : list A) d : forall i j x,
  i <> j -> nth j (list_set i x l) d = nth j l d.
Proof.
  induction l as [|a r IH]; intros i j x N; simpl; [reflexivity|].
  destruct i, j; simpl; try reflexivity; [congruence|].
  apply IH. congruence.
Qed.

Lemma keeps_bal {A} st (m : M A) : keeps m -> bal st m.
Proof.
  intros H w F L N. destruct (H w F N) as (A1 & F1 & P1 & [S1 S2]).
  split; [exact A1|]. split; [exact F1|]. split; [exact S1|].
  split; [intros st' _ L'; now apply S2|].
  intros s. now rewrite P1, S2.
Qed.

Lemma bal_bind {A B} st (m : M A) (k : A -> M B) :
  bal st m -> (forall a, bal st (k a)) -> bal st (bind m k).
Proof.
  intros Hm Hk w F L N. unfold bind in *.
  specialize (Hm w F L).
  destruct (m w) as [[a|e|] w1]; cbn [fst snd] in *;
    [|apply Hm; discriminate|now elim N].
  destruct Hm as (A1 & F1 & L1 & O1 & P1); [discriminate|].
  destruct (Hk a w1 F1 ltac:(lia) N) as (A2 & F2 & L2 & O2 & P2).
  split; [congruence|]. split; [exact F2|]. split; [lia|].
  split; [intros st' Ne L'; rewrite O2, O1; auto; lia|].
  intros s. specialize (P1 s). specialize (P2 s). lia.
Qed.

Lemma owed_cons s c cs :
  owed s (c :: cs)
  = match c with
    | CmSem s' => if sem_id_eqb s s' then 1 else 0
    | CmConn => 0
    end + owed s cs.
Proof.
  unfold owed. simpl. destruct c as [s'|]; [|reflexivity].
  now destruct (sem_id_eqb s s').
Qed.

Lemma bal_enter_async_context st c : bal st (enter_async_context st c).
Proof.
  intros w F L N. unfold enter_async_context, bind, modify in *.
  assert (Push : forall w1 : world,
             current w1 = current w -> foreign_script w1 ->
             stacks w1 = stacks w ->
             (forall s, permits s w1
                        = permits s w + owed s [c]) ->
             let w2 := set_stacks
                         (list_set st (c :: nth st (stacks w1) [])
                            (stacks w1)) w1 in
             current w2 = current w
             /\ foreign_script w2
             /\ length (stacks w) <= length (stacks w2)
             /\ (forall st', st' <> st -> st' < length (stacks w) ->
                             nth st' (stacks w2) [] = nth st' (stacks w) [])
             /\ (forall s, permits s w2 + owed s (nth st (stacks w) [])
                           = permits s w + owed s (nth st (stacks w2) []))).
  { intros w1 A B C D. cbv zeta. cbn [stacks set_stacks].
    split; [exact A|]. split; [exact B|].
    split; [rewrite length_list_set, C; lia|].
    split; [intros st' Ne L'; rewrite nth_list_set_ne by congruence;
            now rewrite C|].
    intros s'. rewrite nth_list_set_eq by (rewrite C; lia).
    rewrite (permits_frame w1) by reflexivity.
    rewrite (owed_cons s' c (nth st (stacks w1) [])), D, C.
    rewrite (owed_cons s' c []). change (owed s' []) with 0. lia. }
  assert (Same : forall w1 : world,
             current w1 = current w -> foreign_script w1 ->
             stacks w1 = stacks w ->
             (forall s, permits s w1 = permits s w) ->
             current w1 = current w
             /\ foreign_script w1
             /\ length (stacks w) <= length (stacks w1)
             /\ (forall st', st' <> st -> st' < length (stacks w) ->
                             nth st' (stacks w1) [] = nth st' (stacks w) [])
             /\ (forall s, permits s w1 + owed s (nth st (stacks w) [])
                           = permits s w + owed s (nth st (stacks w1) []))).
  { intros w1 A B C D. split; [exact A|]. split; [exact B|].
    split; [rewrite C; lia|]. split; [intros; now rewrite C|].
    intros s'. now rewrite D, C. }
  destruct c as [s|]; cbn [aenter] in *.
  - destruct (sem_acquire_permits s w F) as (A & B & C & D).
    cbv zeta in *.
    destruct (sem_acquire s w) as [[[]|e|] w1]; cbn [fst snd] in *;
      [| |now elim N].
    + apply Push; auto. intros s'. rewrite D, (owed_cons s' (CmSem s) []).
      unfold owed. simpl. lia.
    + apply Same; auto. intros s'. rewrite D. lia.
  - destruct (keeps_io_call DbConnect w F) as (A & B & C & D).
    { apply io_call_run. }
    destruct (io_call_run DbConnect w) as (_ & St & _).
    cbv zeta in St.
    fold (bind (A:=unit) (B:=unit)) in N.
    destruct ((modify _ ;; await_io) w) as [[[]|e|] w1]; cbn [fst snd] in *;
      [| |now elim N].
    + apply Push; auto. intros s'. rewrite C. unfold owed. simpl. lia.
    + apply Same; auto.
Qed.

(** Leaving a stack gives back the permits registered on it. *)
Lemma unwind_permits cs : forall w,
  exists w', unwind cs w = (Ok tt, w')
             /\ current w' = current w /\ script w' = script w
             /\ stacks w' = stacks w
             /\ forall s, permits s w' = permits s w - owed s cs.
Proof.
  induction cs as [|c r IH]; intros w; simpl.
  - exists w. repeat split; auto. intros s. unfold owed. simpl. lia.
  - unfold try_finally.
    assert (X : exists w1, aexit c w = (Ok tt, w1)
                           /\ current w1 = current w
                           /\ script w1 = script w
                           /\ stacks w1 = stacks w
                           /\ forall s, permits s w1
                                        = permits s w - owed s [c]).
    { destruct c as [s0|]; simpl.
      - eexists. split; [reflexivity|].
        split; [apply current_set_sem|]. split; [apply script_set_sem|].
        split; [apply stacks_set_sem|].
        intros s. pose proof (sem_release_permits s0 w s) as R.
        rewrite sem_release_run in R. cbn [snd] in R. rewrite R.
        rewrite owed_cons. unfold owed. simpl. lia.
      - eexists. split; [reflexivity|]. repeat split.
        intros s. unfold owed. simpl.
        rewrite (permits_frame w); [lia|reflexivity|reflexivity]. }
    destruct X as (w1 & -> & C1 & Sc1 & St1 & P1).
    destruct (IH w1) as (w2 & -> & C2 & Sc2 & St2 & P2).
    exists w2. split; [reflexivity|].
    split; [congruence|]. split; [congruence|]. split; [congruence|].
    intros s. rewrite P2, P1, (owed_cons s c r).
    rewrite (owed_cons s c []). unfold owed at 1. simpl. lia.
Qed.

(** An [async with] on a stack that was empty leaves it empty and, when
    the body registered what it took, with the permits as before. *)
Lemma async_with_keeps {A} st (body : M A) w :
  bal st body ->
  foreign_script w -> st < length (stacks w) ->
  nth st (stacks w) [] = [] ->
  fst (async_with st body w) <> Blocked ->
  current (snd (async_with st body w)) = current w
  /\ foreign_script (snd (async_with st body w))
  /\ (forall s, permits s (snd (async_with st body w)) = permits s w)
  /\ stacks_kept w (snd (async_with st body w)).
Proof.
  intros Hb F L E N. unfold async_with, try_finally in *.
  specialize (Hb w F L).
  assert (Exit : forall w1,
             exists w2, stack_aexit st w1 = (Ok tt, w2)
                        /\ current w2 = current w1
                        /\ script w2 = script w1
                        /\ stacks w2 = list_set st [] (stacks w1)
                        /\ forall s, permits s w2
                                     = permits s w1
                                       - owed s (nth st (stacks w1) [])).
  { intros w1. unfold stack_aexit, bind, get, modify.
    destruct (unwind_permits (nth st (stacks w1) [])
                (set_stacks (list_set st [] (stacks w1)) w1))
      as (w2 & U & C2 & Sc2 & St2 & P2).
    exists w2. split; [exact U|]. repeat split; auto. }
  destruct (body w) as [[a|e|] w1]; cbn [fst snd] in *; [| |now elim N];
    (destruct Hb as (A1 & F1 & L1 & O1 & P1); [discriminate|]);
    destruct (Exit w1) as (w2 & -> & C2 & Sc2 & St2 & P2);
    cbn [fst snd];
    (split; [congruence|]);
    (split; [unfold foreign_script in *; now rewrite C2, Sc2|]);
    (split;
     [intros s; specialize (P1 s); rewrite P2; rewrite E in P1;
      unfold owed at 1 in P1; simpl in P1; lia|]);
    (split; [rewrite St2, length_list_set; lia|]);
    intros st' L'; rewrite St2;
    (destruct (Nat.eq_dec st st') as [<-|Ne];
     [rewrite nth_list_set_eq by lia; now rewrite E
     |rewrite nth_list_set_ne by assumption; apply O1; auto]).
Qed.

Lemma bal_store_block self st : bal st (store_block self st).
Proof.
  unfold store_block, db_conn.
  apply bal_bind; [|intros _].
  { apply bal_bind; [apply bal_enter_async_context|intros _].
    apply bal_enter_async_context. }
  apply keeps_bal.
  apply keeps_bind; [apply keeps_check_shutdown|intros _].
  apply keeps_bind; [apply keeps_get|intros kb].
  apply keeps_bind; [apply keeps_store_loop|intros _].
  apply keeps_io_call.
Qed.

Lemma keeps_store_lines self : keeps (store_lines self).
Proof.
  rewrite store_lines_eq.
  apply keeps_bind; [apply keeps_check_shutdown|intros _].
  apply keeps_bind; [apply keeps_get|intros nl].
  apply keeps_bind; [apply keeps_info|intros _].
  intros w F N. unfold bind, AsyncExitStack in *. cbn [fst snd] in *.
  set (w0 := set_stacks (stacks w ++ [[]]) w) in *.
  assert (F0 : foreign_script w0) by exact F.
  assert (L0 : length (stacks w) < length (stacks w0))
    by (unfold w0; simpl; rewrite length_app; simpl; lia).
  assert (E0 : nth (length (stacks w)) (stacks w0) [] = [])
    by (unfold w0; simpl; rewrite app_nth2, Nat.sub_diag by lia;
        reflexivity).
  assert (K0 : stacks_kept w w0).
  { split; [lia|]. intros st L. unfold w0. simpl. now rewrite app_nth1. }
  pose proof (async_with_keeps (length (stacks w))
                (store_block self (length (stacks w))) w0
                (bal_store_block self _) F0 L0 E0) as K.
  destruct (async_with (length (stacks w)) (store_block self _) w0)
    as [[[]|e|] w1]; cbn [fst snd] in *; [| |now elim N].
  - destruct K as (A & B & C & D); [discriminate|].
    split; [exact A|]. split; [exact B|]. split; [exact C|].
    eapply stacks_kept_trans; [exact K0|].
    eapply stacks_kept_trans; [exact D|]. now apply stacks_kept_refl.
  - destruct K as (A & B & C & D); [discriminate|].
    split; [exact A|]. split; [exact B|]. split; [exact C|].
    eapply stacks_kept_trans; eauto.
Qed.

Lemma keeps_SyncLangTask_main self : keeps (SyncLangTask_main self).
Proof.
  apply keeps_bind; [apply keeps_read_lines|intros _].
  apply keeps_store_lines.
Qed.

(** [_main_outer] of a task whose exit stack exists and is empty, around
    a body that keeps its permits. *)
Lemma main_outer_keeps self main o w :
  keeps main ->
  nth_error (objs w) self = Some o ->
  _stack o < length (stacks w) ->
  nth (_stack o) (stacks w) [] = [] ->
  foreign_script w ->
  fst (_main_outer self main w) <> Blocked ->
  current (snd (_main_outer self main w)) = current w
  /\ foreign_script (snd (_main_outer self main w))
  /\ (forall s, permits s (snd (_main_outer self main w)) = permits s w)
  /\ stacks_kept w (snd (_main_outer self main w)).
Proof.
  intros Hm Ho L E F N. unfold _main_outer, bind, get_obj in *.
  rewrite Ho in *. unfold try_except in *.
  assert (B : bal (_stack o)
                (match task_sem o with
                 | Some s => enter_async_context (_stack o) (CmSem s)
                 | None => ret tt
                 end ;; main)).
  { apply bal_bind; [|intros _; now apply keeps_bal].
    destruct (task_sem o); [apply bal_enter_async_context|].
    apply keeps_bal, keeps_ret. }
  pose proof (async_with_keeps (_stack o) _ w B F L E) as K.
  fold (main_block o main) in K.
  destruct (main_block o main w) as [[[]|e|] w1]; cbn [fst snd] in *;
    [apply K; discriminate| |now elim N].
  destruct K as (A1 & F1 & P1 & S1); [discriminate|].
  assert (H : keeps
                (if isinstance e CancelledError
                 then warning (name o) "Cancelled before completion."
                 else if isinstance e Shutdown
                 then warning (name o) "Shutdown before completion."
                 else if isinstance e Exception
                 then error_exc (name o) "Failed" e
                        (negb (isinstance e BaseException)) ;;
                      raise e
                 else raise e)).
  { destruct (isinstance e CancelledError); [apply keeps_warning|].
    destruct (isinstance e Shutdown); [apply keeps_warning|].
    destruct (isinstance e Exception); [|apply keeps_raise].
    apply keeps_bind; [apply keeps_error_exc|intros; apply keeps_raise]. }
  destruct (H w1 F1 N) as (A2 & F2 & P2 & S2).
  split; [exact (eq_trans A2 A1)|]. split; [exact F2|].
  split; [intros s; exact (eq_trans (P2 s) (P1 s))|].
  exact (stacks_kept_trans _ _ _ S1 S2).
Qed.

(** X15: a language task whose run ends, however it ends (normally, on
    the mismatch, on shutdown, cancelled at any of its waits), has given
    back every permit it took, of [SyncLangTask.SEM] and of [db_sem], and
    has left every exit stack that existed as it was, its own one empty,
    whatever the other tasks do to the semaphores meanwhile. *)
Theorem lang_task_gives_back_its_permits :
  forall (self : SyncLangTask) (o : Task) (w : world),
    nth_error (objs w) (lt_self self) = Some o ->
    _stack o < length (stacks w) ->
    nth (_stack o) (stacks w) [] = [] ->
    foreign_script w ->
    fst (SyncLangTask_run self w) <> Blocked ->
    (forall s, permits s (snd (SyncLangTask_run self w)) = permits s w)
    /\ stacks_kept w (snd (SyncLangTask_run self w)).
Proof.
  intros self o w Ho L E F N. unfold SyncLangTask_run in *.
  destruct (main_outer_keeps (lt_self self) (SyncLangTask_main self) o w
              (keeps_SyncLangTask_main self) Ho L E F N)
    as (_ & _ & P & S1).
  auto.
Qed.

Lemma lang_task_gives_back_its_permits_witness :
  (forall s, permits s (snd (SyncLangTask_run lang_en lang_world_busy))
             = permits s lang_world_busy)
  /\ stacks_kept lang_world_busy
       (snd (SyncLangTask_run lang_en lang_world_busy)).
Proof.
  apply (lang_task_gives_back_its_permits lang_en
           {| name := "Menu/en"; _task := None;
              task_sem := Some SyncLangTask_SEM; _stack := 0 |}
           lang_world_busy).
  - reflexivity.
  - vm_compute. lia.
  - reflexivity.
  - vm_compute. reflexivity.
  - vm_compute. discriminate.
Defined.

(** ** What is stored of a suggestion *)

Lemma warning_run self msg w :
  exists w', warning self msg w = (Ok tt, w') /\ store w' = store w.
Proof. eexists. split; reflexivity. Qed.

Lemma as_dict_run pformat model_id self token v w :
  exists items w', as_dict pformat model_id self token v w = (Ok items, w')
                   /\ store w' = store w.
Proof. destruct v; simpl; eexists; eexists; split; reflexivity. Qed.

Lemma valid_has_suggestion_run pformat model_id self token items w :
  exists b w',
    valid_has_suggestion pformat model_id self token items w = (Ok b, w')
    /\ store w' = store w.
Proof.
  unfold valid_has_suggestion.
  destruct (dict_get "has_suggestion" items) as [[]|];
    eexists; eexists; split; reflexivity.
Qed.

Lemma valid_suggestion_run pformat model_id self token items h w :
  exists sh w',
    valid_suggestion pformat model_id self token items h w = (Ok sh, w')
    /\ store w' = store w /\ filled (fst sh)
    /\ fst sh = match dict_get "suggestion" items with
                | Some (JStr (String c r)) => Some (String c r)
                | _ => None
                end.
Proof.
  unfold valid_suggestion, filled.
  destruct (dict_get "suggestion" items) as [[| | |[|c r]| |]|];
    eexists; eexists; (split; [reflexivity|]); (split; [reflexivity|]);
    (split; [|reflexivity]); simpl; intros s H; congruence.
Qed.

Lemma not_the_target_run pformat model_id self token target items sh w :
  exists sh' w',
    not_the_target pformat model_id self token target items sh w
    = (Ok sh', w')
    /\ store w' = store w
    /\ fst sh' = match fst sh with
                 | Some s => if String.eqb target s then None else Some s
                 | None => None
                 end.
Proof.
  unfold not_the_target. destruct sh as [[s|] h]; simpl.
  - destruct (String.eqb target s);
      eexists; eexists; split; try reflexivity; split; reflexivity.
  - eexists; eexists; split; try reflexivity; split; reflexivity.
Qed.

Lemma valid_comment_run pformat model_id self token items w :
  exists c w',
    valid_comment pformat model_id self token items w = (Ok c, w')
    /\ store w' = store w /\ filled c.
Proof.
  unfold valid_comment, filled.
  destruct (dict_get "comment" items) as [[| | |[|c r]| |]|];
    eexists; eexists; (split; [reflexivity|]); (split; [reflexivity|]);
    simpl; intros s H; congruence.
Qed.

Lemma and_or_None_not_zero x f : and_or_None x f <> Some 0.
Proof.
  unfold and_or_None. destruct x as [u|]; [|discriminate].
  destruct (Nat.eqb_spec (f u) 0); congruence.
Qed.

(** Where the block of [_process_suggestion] can end: what was sent by
    then, what is on the exit stack, and with which exception. *)
Lemma suggestion_block_run row st w :
  st < length (stacks w) ->
  nth st (stacks w) [] = [] ->
  let r := suggestion_block st row w in
  match fst r with
  | Ok _ =>
      db (snd r)
      = (db w ++ [DbConnect; DbInsertSuggestion row; DbCommit])%list
      /\ nth st (stacks (snd r)) [] = [CmConn; CmSem db_sem]
  | Raise e =>
      (db (snd r) = db w /\ nth st (stacks (snd r)) [] = []
       /\ e = cancelled_error)
      \/ (db (snd r) = (db w ++ [DbConnect])%list
          /\ nth st (stacks (snd r)) [] = [CmSem db_sem]
          /\ e = cancelled_error)
      \/ (db (snd r) = (db w ++ [DbConnect])%list
          /\ nth st (stacks (snd r)) [] = [CmConn; CmSem db_sem]
          /\ exc_type e = Shutdown)
      \/ (db (snd r) = (db w ++ [DbConnect; DbInsertSuggestion row])%list
          /\ nth st (stacks (snd r)) [] = [CmConn; CmSem db_sem]
          /\ e = cancelled_error)
      \/ (db (snd r)
          = (db w ++ [DbConnect; DbInsertSuggestion row; DbCommit])%list
          /\ nth st (stacks (snd r)) [] = [CmConn; CmSem db_sem]
          /\ e = cancelled_error)
  | Blocked => db (snd r) = db w /\ nth st (stacks (snd r)) [] = []
  end.
Proof.
  intros L N. cbv zeta. unfold suggestion_block, db_conn, bind.
  destruct (enter_async_context_run st (CmSem db_sem) w) as (D1 & _ & _ & R1).
  cbv zeta in D1, R1.
  destruct (enter_async_context st (CmSem db_sem) w) as [[[]|e|] w1];
    simpl in D1, R1; rewrite app_nil_r in D1; cbn [fst snd].
  2:{ destruct R1 as [R1 ->]. rewrite R1, D1. auto. }
  2:{ destruct R1 as [R1 _]. rewrite R1, D1. auto. }
  rewrite N in R1.
  assert (N1 : nth st (stacks w1) [] = [CmSem db_sem])
    by (rewrite R1; now apply nth_list_set_eq).
  destruct (enter_async_context_run st CmConn w1) as (D2 & _ & _ & R2).
  cbv zeta in D2, R2.
  destruct (enter_async_context st CmConn w1) as [[[]|e|] w2];
    simpl in D2, R2; cbn [fst snd].
  2:{ destruct R2 as [R2 ->]. rewrite R2, D2, D1. right. left. auto. }
  2:{ now destruct R2 as [_ R2]. }
  rewrite N1 in R2.
  assert (L1 : st < length (stacks w1))
    by (rewrite R1, length_list_set; exact L).
  assert (N2 : nth st (stacks w2) [] = [CmConn; CmSem db_sem])
    by (rewrite R2; now apply nth_list_set_eq).
  unfold check_shutdown.
  destruct (shutdown_requested w2); cbn [fst snd].
  { right. right. left. rewrite D2, D1. auto. }
  destruct (io_call_run (DbInsertSuggestion row) w2)
    as (D3 & S3 & _ & _ & B3 & E3).
  cbv zeta in D3, S3, B3, E3. unfold conn_execute_suggestion.
  fold (@bind unit unit) in D3, S3, B3, E3.
  destruct ((modify _ ;; await_io) w2) as [[[]|e|] w3]; cbn [fst snd] in *;
    [| |now elim B3].
  2:{ right. right. right. left.
      rewrite D3, D2, D1, S3, <- app_assoc, (E3 e eq_refl). simpl. auto. }
  destruct (io_call_run DbCommit w3) as (D4 & S4 & _ & _ & B4 & E4).
  cbv zeta in D4, S4, B4, E4. unfold conn_commit.
  fold (@bind unit unit) in D4, S4, B4, E4.
  destruct ((modify _ ;; await_io) w3) as [[[]|e|] w4]; cbn [fst snd] in *;
    [| |now elim B4].
  - rewrite D4, D3, D2, D1, S4, S3, <- !app_assoc. simpl. auto.
  - right. right. right. right.
    rewrite D4, D3, D2, D1, S4, S3, <- !app_assoc, (E4 e eq_refl).
    simpl. auto.
Qed.

Lemma store_suggestion_run self storing stored shown row w :
  let r := store_suggestion self storing stored shown row w in
  exists tr,
    db (snd r) = (db w ++ tr)%list
    /\ match fst r with
       | Ok _ => tr = [DbConnect; DbInsertSuggestion row; DbCommit; DbClose]
       | Raise e => sent_on_raise row e tr
       | Blocked => tr = []
       end.
Proof.
  cbv zeta.
  unfold store_suggestion, bind, info, emit, modify, AsyncExitStack,
    async_with, try_finally, sent_on_raise.
  cbn [fst snd].
  repeat match goal with
         | |- context [stacks (add_record ?r w)] =>
             change (stacks (add_record r w)) with (stacks w)
         end.
  set (wa := set_stacks _ _).
  assert (La : length (stacks w) < length (stacks wa))
    by (subst wa; simpl; rewrite length_app; simpl; lia).
  assert (Na : nth (length (stacks w)) (stacks wa) [] = [])
    by (subst wa; simpl; rewrite app_nth2, Nat.sub_diag by lia; reflexivity).
  pose proof (suggestion_block_run row (length (stacks w)) wa La Na) as R.
  cbv zeta in R. change (db wa) with (db w) in *.
  destruct (suggestion_block (length (stacks w)) row wa) as [[[]|e|] w1];
    cbn [fst snd] in *.
  - destruct R as [D1 N1].
    destruct (stack_aexit_run (length (stacks w)) w1)
      as (w2 & -> & D2 & _).
    cbn [fst snd]. eexists. split; [|reflexivity].
    simpl. rewrite D2, N1, D1, <- app_assoc. reflexivity.
  - destruct (stack_aexit_run (length (stacks w)) w1)
      as (w2 & -> & D2 & _).
    cbn [fst snd].
    destruct R as [(D1 & N1 & ->)|[(D1 & N1 & ->)|[(D1 & N1 & X)
                  |[(D1 & N1 & ->)|(D1 & N1 & ->)]]]];
      rewrite D2, N1, D1; simpl; rewrite <- ?app_assoc; simpl.
    + exists []. rewrite app_nil_r. auto.
    + eexists. split; [reflexivity|]. auto.
    + eexists. split; [reflexivity|]. auto.
    + eexists. split; [reflexivity|]. auto 6.
    + eexists. split; [reflexivity|]. auto 6.
  - destruct R as [D1 _]. exists []. now rewrite app_nil_r.
Qed.

(** Every way [_process_suggestion] can end: before the block it has
    sent nothing; from the block on the row is the sanitised one. *)
Lemma process_suggestion_run pformat model_id p response interval w :
  match _process_suggestion pformat model_id p response interval w with
  | (res, w') =>
      (db w' = db w
       /\ exists e, res = Raise e
            /\ (e = index_error /\ choices response = []
                \/ exists c rest, choices response = c :: rest
                     /\ content_loaded c = inr e
                     /\ isinstance e Exception = false))
      \/ exists row tr,
           sanitised p row
           /\ suggestion_string_body row
              = suggestion_of (target_string_body p) (items_of response)
           /\ db w' = (db w ++ tr)%list
           /\ match res with
              | Ok _ =>
                  tr = [DbConnect; DbInsertSuggestion row; DbCommit; DbClose]
              | Raise e => sent_on_raise row e tr
              | Blocked => tr = []
              end
  end.
Proof.
  unfold _process_suggestion, bind at 1, get at 1.
  unfold bind at 1, info at 1, emit at 1, modify at 1.
  set (w0 := add_record _ w).
  assert (S0 : store w0 = store w) by reflexivity.
  set (self := base_name w). set (token := _pairs_log_token p).
  unfold bind at 1, first_choice, items_of.
  destruct (choices response) as [|c rest] eqn:Ch.
  { left. split; [reflexivity|]. exists index_error. auto. }
  unfold ret at 1. unfold bind at 1.
  assert (D : match decoded model_id self token c w0 with
              | (Ok v, w1) =>
                  store w1 = store w
                  /\ match content_loaded c with
                     | inl v' => v = v'
                     | inr _ => v = JDict []
                     end
              | (Raise e, w1) =>
                  store w1 = store w
                  /\ content_loaded c = inr e
                  /\ isinstance e Exception = false
              | (Blocked, _) => False
              end).
  { unfold decoded. destruct (content_loaded c) as [v|e]; simpl; auto.
    destruct (isinstance e Exception) eqn:I1; simpl; auto. }
  destruct (decoded model_id self token c w0) as [[v|e|] w1];
    [| |elim D].
  2:{ destruct D as (S1 & C1 & I1). left.
      split; [now destruct (store_fields _ _ S1)|].
      exists e. split; [reflexivity|]. right. exists c, rest. auto. }
  destruct D as [S1 V]. unfold bind at 1.
  destruct (as_dict_run pformat model_id self token v w1)
    as (items & w2 & E2 & S2).
  assert (I2 : match content_loaded c with
               | inl (JDict i) => items = i
               | _ => items = []
               end).
  { destruct (content_loaded c) as [v'|e]; subst v;
      [destruct v'|]; simpl in E2; now injection E2 as <- _. }
  rewrite E2. unfold bind at 1.
  destruct (valid_has_suggestion_run pformat model_id self token items w2)
    as (h & w3 & E3 & S3).
  rewrite E3. unfold bind at 1.
  destruct (valid_suggestion_run pformat model_id self token items h w3)
    as (sh & w4 & E4 & S4 & F4 & V4).
  rewrite E4. unfold bind at 1.
  destruct (not_the_target_run pformat model_id self token
              (target_string_body p) items sh w4)
    as (sh' & w5 & E5 & S5 & V5).
  rewrite E5. unfold bind at 1.
  destruct (valid_comment_run pformat model_id self token items w5)
    as (cm & w6 & E6 & S6 & F6).
  rewrite E6.
  set (row := {| r_source_id := sp_source_id p;
                 r_target_id := sp_target_id p;
                 r_model_id := model_id;
                 suggestion_string_body := fst sh';
                 suggestion_comment := cm;
                 r_interval := interval;
                 completion_tokens := and_or_None (usage response) fst;
                 prompt_tokens := and_or_None (usage response) snd;
                 system_fingerprint := c_system_fingerprint response |}).
  match goal with
  | |- context [info self ?a ;; _] =>
      match goal with
      | |- context [_ ;; info self ?b ;; info self ?d] =>
          change (info self a ;; _)
            with (store_suggestion self a b d row)
      end
  end.
  assert (D6 : db w6 = db w).
  { assert (St : store w6 = store w) by congruence.
    now destruct (store_fields _ _ St). }
  assert (G : fst sh'
              = suggestion_of (target_string_body p)
                  match content_loaded c with
                  | inl (JDict i) => i
                  | _ => []
                  end).
  { rewrite V5, V4. unfold suggestion_of.
    assert (I3 : items = match content_loaded c with
                         | inl (JDict i) => i
                         | _ => []
                         end).
    { destruct (content_loaded c) as [[]|]; exact I2. }
    rewrite <- I3.
    destruct (dict_get "suggestion" items) as [[| | |[|c0 r0]| |]|];
      reflexivity. }
  pose proof (store_suggestion_run self
              ("Storing suggestion (" ++ repr_bool (snd sh') ++ ") for "
               ++ token ++ " to DB...")
              ("Stored suggestion (" ++ repr_bool (snd sh') ++ ") for "
               ++ token ++ " to DB in " ++ span ++ ".")
              (pformat (json_of (fst sh'))) row w6) as T.
  cbv zeta in T.
  destruct (store_suggestion _ _ _ _ row w6) as [res w7].
  destruct T as (tr & E & T). cbn [fst snd] in E, T.
  right. exists row, tr.
  split.
  { unfold sanitised, row.
    cbn [suggestion_string_body suggestion_comment completion_tokens
         prompt_tokens].
    split; [|split; [exact F6|split; apply and_or_None_not_zero]].
    intros s Hs. rewrite G in Hs. clear - Hs. unfold suggestion_of in Hs.
    destruct (dict_get "suggestion" _) as [[| | |[|c0 r0]| |]|];
      try discriminate.
    destruct (String.eqb_spec (target_string_body p) (String c0 r0))
      as [Q|Q]; [discriminate|].
    injection Hs as <-. split; [discriminate|congruence]. }
  split.
  { unfold row. cbn [suggestion_string_body]. rewrite G.
    destruct c as [[[]|] ?]; reflexivity. }
  split; [rewrite E, D6; reflexivity|exact T].
Qed.

(** X16: whatever the model answered, [_process_suggestion] sends the
    database at most one row, after the connection is open and only when
    no shutdown is requested by then, and that row is sanitised: its
    suggestion is absent or a non-empty string other than the target
    text, its comment is absent or non-empty, its token counts are absent
    or not zero; the row's suggestion is read off the key [suggestion] of
    the first choice alone, so the answer's [has_suggestion] has no part
    in what is stored.  A normal return has connected, inserted,
    committed and closed.  An answer without choices raises [IndexError]
    and what [json.loads] raises outside [Exception] comes out, both
    before anything is sent; later only a cancellation or the shutdown
    comes out, and a connection that was opened is closed. *)
Theorem process_suggestion_row_is_sanitised :
  forall (pformat : json -> string) (model_id : string) (p : string_pair)
         (response : completion) (interval : string) (w : world),
    let r := _process_suggestion pformat model_id p response interval w in
    exists tr,
      db (snd r) = (db w ++ tr)%list
      /\ (forall row, In (DbInsertSuggestion row) tr ->
            sanitised p row
            /\ suggestion_string_body row
               = suggestion_of (target_string_body p) (items_of response))
      /\ match fst r with
         | Ok _ =>
             exists row,
               tr = [DbConnect; DbInsertSuggestion row; DbCommit; DbClose]
         | Raise e =>
             (tr = []
              /\ (e = index_error /\ choices response = []
                  \/ (exists c rest, choices response = c :: rest
                        /\ content_loaded c = inr e
                        /\ isinstance e Exception = false)
                  \/ e = cancelled_error))
             \/ (tr = [DbConnect] /\ e = cancelled_error)
             \/ (tr = [DbConnect; DbClose] /\ exc_type e = Shutdown)
             \/ (exists row,
                   tr = [DbConnect; DbInsertSuggestion row; DbClose]
                   /\ e = cancelled_error)
             \/ (exists row,
                   tr = [DbConnect; DbInsertSuggestion row; DbCommit;
                         DbClose]
                   /\ e = cancelled_error)
         | Blocked => tr = []
         end.
Proof.
  intros pformat model_id p response interval w. cbv zeta.
  pose proof (process_suggestion_run pformat model_id p response interval w)
    as H.
  destruct (_process_suggestion pformat model_id p response interval w)
    as [res w']. cbn [fst snd].
  destruct H as [(D & e & R & C)|(row & tr & Sa & Su & D & T)].
  - exists []. rewrite app_nil_r. split; [exact D|].
    split; [intros row []|]. rewrite R. left. split; [reflexivity|].
    destruct C as [C|C]; auto.
  - exists tr. split; [exact D|]. split.
    + intros row' I.
      assert (Q : row' = row).
      { destruct res as [[]|e|].
        - subst tr. simpl in I.
          destruct I as [I|[I|[I|[I|[]]]]]; congruence.
        - unfold sent_on_raise in T.
          destruct T as [[-> _]|[[-> _]|[[-> _]|[[-> _]|[-> _]]]]];
            simpl in I; repeat destruct I as [I|I]; try congruence;
            try contradiction.
        - subst tr. destruct I. }
      subst row'. auto.
    + destruct res as [[]|e|]; [eauto| |exact T].
      unfold sent_on_raise in T.
      destruct T as [[-> ->]|[[-> ->]|[[-> X]|[[-> ->]|[-> ->]]]]];
        eauto 10.
Qed.

(** The answer that says it has no suggestion: the suggestion is stored
    all the same, the empty comment and the zero count become [NULL]. *)
Example process_suggestion_unflagged_is_stored :
  let r := _process_suggestion (fun _ => "{}") "gpt" pair_greeting
             answer_unflagged "0:00:01" (world0 "analyze_t9ns" [IoDone]) in
  fst r = Ok tt
  /\ db (snd r)
     = [DbConnect;
        DbInsertSuggestion
          {| r_source_id := 1; r_target_id := 2; r_model_id := "gpt";
             suggestion_string_body := Some "Zdravstvuj";
             suggestion_comment := None;
             r_interval := "0:00:01";
             completion_tokens := None; prompt_tokens := Some 12;
             system_fingerprint := None |};
        DbCommit; DbClose].
Proof. vm_compute. split; reflexivity. Qed.

(** The answer without choices: [IndexError], nothing sent. *)
Example process_suggestion_no_choice :
  let r := _process_suggestion (fun _ => "{}") "gpt" pair_greeting
             answer_empty "0:00:01" (world0 "analyze_t9ns" [IoDone]) in
  fst r = Raise index_error /\ db (snd r) = [].
Proof. vm_compute. split; reflexivity. Qed.

(** ** Room on the worksheet *)

Lemma find_title_Some t l : forall k i ws,
  find_title t l k = Some (i, ws) ->
  k <= i /\ nth_error l (i - k) = Some ws /\ title ws = t
  /\ forall j x, j < i - k -> nth_error l j = Some x -> title x <> t.
Proof.
  induction l as [|a r IH]; intros k i ws H; simpl in H; [discriminate|].
  destruct (String.eqb_spec (title a) t) as [E|E].
  - injection H as <- <-. rewrite Nat.sub_diag. repeat split; auto.
    intros j x L. lia.
  - apply IH in H as (L & N & T & F).
    replace (i - k) with (S (i - S k)) by lia.
    repeat split; auto; [lia|].
    intros [|j] x Lj Hx; simpl in Hx; [congruence|].
    apply (F j x); [lia|exact Hx].
Qed.

Lemma find_title_None t l : forall k,
  find_title t l k = None -> forall x, In x l -> title x <> t.
Proof.
  induction l as [|a r IH]; intros k H x []; simpl in H;
    destruct (String.eqb_spec (title a) t) as [E|E]; try discriminate.
  - now subst.
  - eapply IH; eauto.
Qed.

Lemma find_title_first t l : forall k i ws,
  nth_error l i = Some ws -> title ws = t ->
  (forall j x, j < i -> nth_error l j = Some x -> title x <> t) ->
  find_title t l k = Some (k + i, ws).
Proof.
  induction l as [|a r IH]; intros k i ws N T F;
    [destruct i; discriminate|].
  destruct i as [|i]; simpl in *.
  - injection N as ->. rewrite T, String.eqb_refl, Nat.add_0_r. reflexivity.
  - destruct (String.eqb_spec (title a) t) as [E|E].
    + elim (F 0 a); [lia|reflexivity|exact E].
    + rewrite (IH (S k) i ws N T); [f_equal; f_equal; lia|].
      intros j x L. apply (F (S j)). lia.
Qed.

Lemma prepare_worksheet_run model_id new_id n sheets w :
  exists sheets' i ws w',
    _prepare_worksheet model_id new_id n sheets w = (Ok (sheets', i), w')
    /\ store w' = store w
    /\ nth_error sheets' i = Some ws
    /\ title ws = model_id
    /\ n + 10 <= row_count ws /\ 10 <= col_count ws
    /\ (forall j x, j < i -> nth_error sheets' j = Some x ->
                    title x <> model_id)
    /\ (forall j old, nth_error sheets j = Some old ->
          exists new, nth_error sheets' j = Some new /\ grown old new
                      /\ (j <> i -> new = old))
    /\ length sheets <= length sheets' <= S (length sheets).
Proof.
  unfold _prepare_worksheet, bind, get, info, emit, modify, ret.
  destruct (find_title model_id sheets 0) as [[i ws]|] eqn:E.
  - apply find_title_Some in E as (_ & N & T & F).
    rewrite Nat.sub_0_r in N, F.
    assert (L : i < length sheets) by (apply nth_error_Some; congruence).
    destruct (Nat.ltb (row_count ws) (Nat.max (n + 10) (row_count ws))
              || Nat.ltb (col_count ws) (Nat.max 10 (col_count ws))) eqn:B.
    + eexists; eexists; eexists; eexists. split; [reflexivity|].
      split; [reflexivity|].
      split; [now apply nth_error_list_set_eq|].
      split; [exact T|]. cbn [row_count col_count].
      split; [lia|]. split; [lia|].
      split.
      { intros j x Lj Hx. rewrite nth_error_list_set_ne in Hx by lia.
        eauto. }
      split; [|rewrite length_list_set; lia].
      intros j old Ho. destruct (Nat.eq_dec i j) as [<-|Ne].
      * rewrite nth_error_list_set_eq by assumption.
        rewrite N in Ho. injection Ho as <-.
        eexists. split; [reflexivity|]. split; [|congruence].
        unfold grown. cbn [title ws_id row_count col_count].
        repeat split; lia.
      * rewrite nth_error_list_set_ne by assumption.
        exists old. unfold grown. repeat split; auto.
    + apply orb_false_elim in B as [B1 B2].
      apply Nat.ltb_ge in B1, B2.
      exists sheets, i, ws. eexists. split; [reflexivity|].
      split; [reflexivity|]. split; [exact N|]. split; [exact T|].
      split; [lia|]. split; [lia|]. split; [exact F|].
      split; [|lia].
      intros j old Ho. exists old. unfold grown. repeat split; auto.
  - pose proof (find_title_None _ _ _ E) as F.
    eexists; eexists; eexists; eexists. split; [reflexivity|].
    split; [reflexivity|].
    split; [rewrite nth_error_app2, Nat.sub_diag by lia; reflexivity|].
    simpl. split; [reflexivity|]. split; [lia|]. split; [lia|].
    split.
    { intros j x Lj Hx. rewrite nth_error_app1 in Hx by assumption.
      apply F. eapply nth_error_In; eauto. }
    split; [|rewrite length_app; simpl; lia].
    intros j old Ho. exists old.
    assert (Lj : j < length sheets) by (apply nth_error_Some; congruence).
    rewrite nth_error_app1 by assumption.
    unfold grown. repeat split; auto.
Qed.

(** X17: [_prepare_worksheet] always ends with [self.worksheet] being
    the first worksheet titled [model_id], with at least [len(rows) + 10]
    rows and 10 columns, so that the rows written at [B5] fit; no
    worksheet is removed, renamed or made smaller, at most one is added,
    and only [self.worksheet] is touched; and a second call with the same
    rows finds the same worksheet and changes nothing. *)
Theorem prepare_worksheet_makes_room :
  forall (model_id : string) (new_id : nat) (n : nat)
         (sheets : list worksheet) (w : world),
    exists sheets' i ws w',
      _prepare_worksheet model_id new_id n sheets w = (Ok (sheets', i), w')
      /\ nth_error sheets' i = Some ws
      /\ title ws = model_id
      /\ n + 10 <= row_count ws /\ 10 <= col_count ws
      /\ (forall j old, nth_error sheets j = Some old ->
            exists new, nth_error sheets' j = Some new /\ grown old new
                        /\ (j <> i -> new = old))
      /\ length sheets <= length sheets' <= S (length sheets)
      /\ forall new_id' w2,
           fst (_prepare_worksheet model_id new_id' n sheets' w2)
           = Ok (sheets', i).
Proof.
  intros model_id new_id n sheets w.
  destruct (prepare_worksheet_run model_id new_id n sheets w)
    as (sheets' & i & ws & w' & H & _ & N & T & R & C & F & G & L).
  exists sheets', i, ws, w'. repeat split; auto; try lia.
  intros new_id' w2.
  unfold _prepare_worksheet, bind, get, info, emit, modify, ret.
  rewrite (find_title_first model_id sheets' 0 i ws N T F). simpl.
  assert (B1 : Nat.ltb (row_count ws) (Nat.max (n + 10) (row_count ws))
               = false) by (apply Nat.ltb_ge; lia).
  assert (B2 : Nat.ltb (col_count ws) (Nat.max 10 (col_count ws)) = false)
    by (apply Nat.ltb_ge; lia).
  rewrite B1. simpl in *. rewrite B2. reflexivity.
Qed.

(** ** Signal handlers *)

(** X18: where the loop has no signal handlers, the fallback of
    [_signals_bind] sets a handler for [SIGINT] only: the handlers of
    [SIGTERM] and [SIGBREAK] stay as they were, and the new handler of
    [SIGINT] is chained to the old handler of [SIGBREAK], not to the old
    one of [SIGINT]; nothing is given to the loop, one more task,
    [_signals_wakeup], is pending, and the shutdown is not requested by
    the binding itself. *)
Theorem signals_bind_fallback_binds_SIGINT_only :
  forall (loop_repr : string) (e : exc) (sg : signals) (w : world),
    isinstance e RuntimeError = true ->
    exists w',
      _signals_bind loop_repr (Some e) sg w
      = (Ok {| loop_handlers := loop_handlers sg;
               on_SIGINT := _handle (on_SIGBREAK sg);
               on_SIGTERM := on_SIGTERM sg;
               on_SIGBREAK := on_SIGBREAK sg |}, w')
      /\ all_tasks w'
         = (all_tasks w ++ [{| t_name := "_signals_wakeup"; t_obj := None;
                               t_state := Pending; t_cancels := 0 |}])%list
      /\ shutdown_requested w' = shutdown_requested w
      /\ length (log w') = 2 + length (log w).
Proof.
  intros loop_repr e sg w H.
  unfold _signals_bind, bind, get. rewrite H.
  eexists. split; [reflexivity|]. split; [reflexivity|].
  split; [reflexivity|]. simpl. rewrite !length_app. simpl. lia.
Qed.

Lemma signals_bind_fallback_binds_SIGINT_only_witness :
  let sg := {| loop_handlers := []; on_SIGINT := default_int_handler;
               on_SIGTERM := SIG_DFL; on_SIGBREAK := SIG_DFL |} in
  exists w',
    _signals_bind "<ProactorEventLoop>"
      (Some {| exc_type := RuntimeError; exc_str := "" |}) sg
      (world0 "main" [])
    = (Ok {| loop_handlers := []; on_SIGINT := _handle SIG_DFL;
             on_SIGTERM := SIG_DFL; on_SIGBREAK := SIG_DFL |}, w')
    /\ all_tasks w'
       = (all_tasks (world0 "main" [])
          ++ [{| t_name := "_signals_wakeup"; t_obj := None;
                 t_state := Pending; t_cancels := 0 |}])%list
    /\ shutdown_requested w' = false
    /\ length (log w') = 2 + length (log (world0 "main" [])).
Proof.
  apply (signals_bind_fallback_binds_SIGINT_only "<ProactorEventLoop>"
           {| exc_type := RuntimeError; exc_str := "" |}
           {| loop_handlers := []; on_SIGINT := default_int_handler;
              on_SIGTERM := SIG_DFL; on_SIGBREAK := SIG_DFL |}
           (world0 "main" [])).
  reflexivity.
Defined.

(** X19: a handler installed by [_signals_bind] requests the shutdown
    whenever it is called, before anything else; after the fallback on a
    process whose [SIGBREAK] had no Python handler, a [SIGINT] does that
    and nothing more: the interrupt is not passed on, so Python's own
    handler raises no [KeyboardInterrupt] any more. *)
Theorem fallback_handler_requests_shutdown :
  forall (signum_str strsignal : signum -> string)
         (handler_str : handler -> string) (sg : signals) (n : signum)
         (w : world),
    (forall prev,
       shutdown_requested
         (snd (call_handler signum_str strsignal handler_str
                 (_handle prev) n w)) = true)
    /\ (callable (on_SIGBREAK sg) = false ->
        call_handler signum_str strsignal handler_str
          (on_SIGINT (fallback_handlers sg)) SIGINT w
        = shutdown ("signal " ++ signum_str SIGINT ++ " "
                    ++ repr (strsignal SIGINT)) w).
Proof.
  intros signum_str strsignal handler_str sg n w. split.
  - intros prev.
    assert (K : forall h x, shutdown_requested x = true ->
                shutdown_requested
                  (snd (call_handler signum_str strsignal handler_str h n x))
                = true).
    { induction h as [| | |prev' IH]; intros x Hx; simpl; auto.
      unfold bind, shutdown, get, warning, emit, modify. simpl.
      destruct (callable prev'); simpl; [|reflexivity].
      apply IH. reflexivity. }
    simpl. unfold bind, shutdown, get, warning, emit, modify. simpl.
    destruct (callable prev); simpl; [|reflexivity].
    apply K. reflexivity.
  - intros C. unfold fallback_handlers. simpl.
    unfold bind at 1. rewrite C.
    destruct (shutdown _ w) as [[[]|x|] w1]; reflexivity.
Qed.

Lemma fallback_handler_requests_shutdown_witness :
  let sg := {| loop_handlers := []; on_SIGINT := default_int_handler;
               on_SIGTERM := SIG_DFL; on_SIGBREAK := SIG_DFL |} in
  fst (call_handler (fun _ => "2") (fun _ => "Interrupt") (fun _ => "h")
         (on_SIGINT (fallback_handlers sg)) SIGINT (world0 "main" []))
  = Ok tt.
Proof.
  cbv zeta.
  rewrite (proj2 (fallback_handler_requests_shutdown
                    (fun _ => "2") (fun _ => "Interrupt") (fun _ => "h")
                    {| loop_handlers := []; on_SIGINT := default_int_handler;
                       on_SIGTERM := SIG_DFL; on_SIGBREAK := SIG_DFL |}
                    SIGINT (world0 "main" []))).
  - reflexivity.
  - reflexivity.
Defined.

(** ** The protocol of the database URL *)

Lemma starts_with_app p r : starts_with p (p ++ r) = true.
Proof.
  induction p as [|c p IH]; simpl; [reflexivity|].
  now rewrite Ascii.eqb_refl, IH.
Qed.

Lemma drop_app p r : drop (String.length p) (p ++ r) = r.
Proof. induction p as [|c p IH]; simpl; [reflexivity|exact IH]. Qed.

Lemma starts_with_true p : forall s,
  starts_with p s = true -> s = p ++ drop (String.length p) s.
Proof.
  induction p as [|a p IH]; intros s H; [reflexivity|].
  destruct s as [|b s]; simpl in H; [discriminate|].
  apply andb_prop in H as [E H]. apply Ascii.eqb_eq in E. subst b.
  simpl. f_equal. now apply IH.
Qed.

Lemma split_once_Some sep s : forall a b,
  split_once sep s = Some (a, b) -> s = a ++ sep ++ b.
Proof.
  induction s as [|c r IH]; intros a b H; [discriminate|].
  cbn [split_once] in H.
  destruct (starts_with sep (String c r)) eqn:E.
  - injection H as <- <-. simpl. now apply starts_with_true.
  - destruct (split_once sep r) as [[a' b']|]; [|discriminate].
    injection H as <- <-. simpl. f_equal. now apply IH.
Qed.

Lemma split_once_None s : forall a b,
  split_once "://" s = None -> s <> a ++ "://" ++ b.
Proof.
  induction s as [|c r IH]; intros a b H E.
  - destruct a; discriminate.
  - cbn [split_once] in H.
    destruct (starts_with "://" (String c r)) eqn:P; [discriminate|].
    destruct (split_once "://" r) as [[a' b']|] eqn:R; [discriminate|].
    destruct a as [|x a].
    + rewrite E in P. simpl append in P.
      change (starts_with "://" ("://" ++ b) = false) in P.
      now rewrite starts_with_app in P.
    + simpl in E. injection E as -> E. now apply (IH a b).
Qed.

Lemma split_once_no_colon b : forall a,
  no_colon a -> split_once "://" (a ++ "://" ++ b) = Some (a, b).
Proof.
  unfold no_colon. induction a as [|c a IH]; intros H.
  - reflexivity.
  - simpl in H. apply andb_prop in H as [C H].
    cbn [append split_once]. cbn [starts_with].
    rewrite Ascii.eqb_sym. apply negb_true_iff in C. rewrite C.
    cbn [andb].
    change (a ++ String ":" (String "/" (String "/" b)))
      with (a ++ "://" ++ b).
    now rewrite IH.
Qed.

(** X20: [_async_prepare] fails on the unpacking of the split exactly
    when the database URL contains no [://]; for a URL whose protocol
    has no colon, the selector event loop policy is set exactly when the
    protocol, in lower case, contains [psycopg], whatever follows the
    [://]. *)
Theorem async_prepare_reads_the_protocol :
  (forall db_url,
     selector_policy db_url = None
     <-> forall a b, db_url <> a ++ "://" ++ b)
  /\ (forall a b,
        no_colon a ->
        selector_policy (a ++ "://" ++ b)
        = Some (contains "psycopg" (lower a)))
  /\ selector_policy "postgresql+PsycoPG://user@host/db" = Some true
  /\ selector_policy "postgresql+asyncpg://user@host/psycopg" = Some false
  /\ selector_policy "host/db" = None.
Proof.
  split; [|split; [|repeat split]].
  - intros db_url. unfold selector_policy. split.
    + destruct (split_once "://" db_url) as [[a b]|] eqn:E; [discriminate|].
      intros _ a b. now apply split_once_None.
    + intros H. destruct (split_once "://" db_url) as [[a b]|] eqn:E;
        [|reflexivity].
      apply split_once_Some in E. now elim (H a b).
  - intros a b H. unfold selector_policy.
    now rewrite split_once_no_colon.
Qed.

(** ** Connections and permits *)

(** X21: [db_conn] sends a connect only after the task got a permit of
    [db_sem]: either nothing is sent (the wait for the permit was
    cancelled or never ends), or the acquisition returned, with the task
    among the holders, and exactly one connect was sent after it. *)
Theorem db_conn_connects_only_with_a_permit :
  forall (stack : nat) (w : world),
    let r := db_conn stack w in
    db (snd r) = db w
    \/ (db (snd r) = (db w ++ [DbConnect])%list
        /\ exists w1, sem_acquire db_sem w = (Ok tt, w1)
                      /\ In (current w) (holders (sem_of db_sem w1))).
Proof.
  intros stack w. cbv zeta. unfold db_conn, bind.
  destruct (enter_async_context_run stack (CmSem db_sem) w) as (D1 & _).
  cbv zeta in D1. simpl in D1. rewrite app_nil_r in D1.
  destruct (enter_async_context stack (CmSem db_sem) w) as [[[]|e|] w1] eqn:E;
    cbn [snd] in *; [|now left|now left].
  right.
  destruct (enter_async_context_run stack CmConn w1) as (D2 & _).
  cbv zeta in D2. simpl in D2. rewrite D2, D1. split; [reflexivity|].
  apply enter_async_context_ok in E as (w0 & A & _). simpl in A.
  exists w0. split; [exact A|].
  pose proof (sem_acquire_ends db_sem w) as H. now rewrite A in H.
Qed.

(** X22: a language task that starts to run when the shutdown is already
    requested and a permit of its semaphore is free takes the permit,
    stops at the first check, gives the permit back, logs the warning of
    the shutdown and returns normally, so that the [gather] that waits
    for it sees no exception; it reads no file and sends nothing. *)
Theorem lang_task_after_shutdown_ends_quietly :
  forall (self : SyncLangTask) (o : Task) (w : world),
    nth_error (objs w) (lt_self self) = Some o ->
    task_sem o = Some SyncLangTask_SEM ->
    _stack o < length (stacks w) ->
    nth (_stack o) (stacks w) [] = [] ->
    locked (sem_of SyncLangTask_SEM w) = false ->
    shutdown_requested w = true ->
    let r := SyncLangTask_run self w in
    fst r = Ok tt
    /\ db (snd r) = db w
    /\ sync (snd r) = sync w
    /\ script (snd r) = script w
    /\ log (snd r)
       = (log w ++ [{| levelname := WARNING;
                       message := "[" ++ name o ++ "] "
                                  ++ "Shutdown before completion.";
                       exc_info := false |}])%list
    /\ (forall s, permits s (snd r) = permits s w).
Proof.
  intros self o w Ho Hs L E Lk F. cbv zeta.
  unfold SyncLangTask_run, _main_outer, bind, get_obj. rewrite Ho.
  unfold try_except, main_block, async_with, try_finally, bind.
  rewrite Hs. unfold enter_async_context, bind. cbn [aenter].
  unfold sem_acquire, acquire_call. rewrite Lk. cbn [negb fst snd].
  unfold modify.
  set (w1 := set_sem SyncLangTask_SEM _ w).
  set (w2 := set_stacks _ w1).
  assert (F2 : shutdown_requested w2 = true) by exact F.
  unfold SyncLangTask_main, read_lines, read_lines_file, bind,
    check_shutdown.
  rewrite F2.
  assert (N2 : nth (_stack o) (stacks w2) [] = [CmSem SyncLangTask_SEM]).
  { unfold w2, w1. cbn [stacks set_stacks set_sem set_sems].
    rewrite nth_list_set_eq by exact L. now rewrite E. }
  unfold stack_aexit, bind, get, modify. rewrite N2.
  cbn [unwind aexit]. unfold try_finally, sem_release, modify, ret.
  cbn [fst snd]. simpl isinstance. cbn [fst snd].
  unfold warning, emit, modify. cbn [fst snd].
  split; [reflexivity|]. split; [reflexivity|]. split; [reflexivity|].
  split; [reflexivity|]. split; [reflexivity|].
  intros s. unfold permits. destruct s; try reflexivity.
  simpl. unfold release. rewrite holders_wake_up_next. simpl.
  now rewrite Nat.eqb_refl.
Qed.

Lemma lang_task_after_shutdown_ends_quietly_witness :
  let w := lang_world_shut in
  let r := SyncLangTask_run lang_en w in
  fst r = Ok tt
  /\ db (snd r) = db w
  /\ sync (snd r) = sync w
  /\ script (snd r) = script w
  /\ log (snd r)
     = (log w ++ [{| levelname := WARNING;
                     message := "[Menu/en] Shutdown before completion.";
                     exc_info := false |}])%list
  /\ (forall s, permits s (snd r) = permits s w).
Proof.
  apply (lang_task_after_shutdown_ends_quietly lang_en
           {| name := "Menu/en"; _task := None;
              task_sem := Some SyncLangTask_SEM; _stack := 0 |}
           lang_world_shut).
  - reflexivity.
  - reflexivity.
  - vm_compute. lia.
  - reflexivity.
  - reflexivity.
  - reflexivity.
Defined.

(** X23: the task [_signals_wakeup] that the fallback of [_signals_bind]
    starts never returns: however long it runs, it is still in its loop,
    unless a [CancelledError] is thrown into its sleep, which is the only
    way it ends, and which needs a cancellation among the events. *)
Theorem signals_wakeup_ends_only_cancelled :
  forall (fuel : nat) (w : world),
    match _signals_wakeup_n fuel w with
    | (Ok _, _) => False
    | (Raise e, w') => e = cancelled_error /\ In Cancel (script w)
    | (Blocked, _) => True
    end.
Proof.
  induction fuel as [|n IH]; intros w; [exact I|].
  cbn [_signals_wakeup_n]. unfold bind.
  destruct (asyncio_sleep_ends 1 w) as [_ R].
  assert (U : exists used,
             script w = (used ++ script (snd (asyncio_sleep 1 w)))%list).
  { unfold asyncio_sleep, bind, await_until, ret.
    destruct (await_loop_used (fun _ => false) (script w) (Some 1) w)
      as (used & U & _).
    exists used.
    destruct (await_loop _ _ _ _) as [[k|x|] w1]; exact U. }
  assert (C : forall e, fst (asyncio_sleep 1 w) = Raise e ->
                        In Cancel (script w)).
  { unfold asyncio_sleep, bind, await_until, ret. intros e.
    generalize (script w) as evs. generalize (Some 1) as t.
    clear. intros t evs. revert t w.
    induction evs as [|ev r IHr]; intros t w; simpl.
    - destruct t as [[|k]|]; discriminate.
    - destruct t as [[|k]|]; try discriminate;
        destruct ev; simpl; auto;
        try (intros H; right; eapply IHr; exact H).
      all: unfold shutdown, bind, get, warning, emit, modify; simpl;
        intros H; right; eapply IHr; exact H. }
  destruct (asyncio_sleep 1 w) as [[[]|e|] w1]; cbn [fst snd] in *.
  - specialize (IH w1).
    destruct (_signals_wakeup_n n w1) as [[[]|e|] w2]; auto.
    destruct IH as [-> IC]. split; [reflexivity|].
    destruct U as (used & ->). apply in_or_app. now right.
  - split; [now apply R|]. now apply (C e).
  - exact I.
Qed.
